(** * Airline market structure: the simulation core of [pipeline.py]

    A shallow embedding of the simulate-and-regress workflow of
    [src/pipeline.py]: the coefficient samplers, the effect propagator
    [determine_effect_coeff] (the second, parameterized definition, which is
    the one Python keeps), its point-estimate variant
    [determine_effect_coeff_true], the hub-stratified regressor [find_slopes]
    and the dominance matrix [prob_values_different].

    Numbers.  NumPy's float64 values are modelled by exact rationals ([Q]);
    rounding is not modelled, and the only non-finite value that appears is
    the NaN the code itself writes (diagonal of the dominance matrix, mean of
    an empty axis).  Equality of computed numbers is therefore stated with
    [Qeq] ([==]) where a result is compared with a decimal literal.

    Exceptions.  A Python call either returns or raises; a function that can
    raise returns a [result]. *)

From Stdlib Require Import String List ZArith QArith Qround Bool Arith Lia Lqa.
From Stdlib Require Import Permutation.
Import ListNotations.

Local Open Scope string_scope.
Local Open Scope list_scope.

(* ------------------------------------------------------------------ *)
(** ** Exceptions and the error monad *)

Inductive exception : Type :=
| ValueError (msg : string)
| KeyError (key : string)
| IndexError (msg : string)
| LinAlgError (msg : string).

Inductive result (A : Type) : Type :=
| Ok (a : A)
| Raise (e : exception).

Arguments Ok {A} a.
Arguments Raise {A} e.

Definition bind {A B : Type} (c : result A) (k : A -> result B) : result B :=
  match c with
  | Ok a => k a
  | Raise e => Raise e
  end.

Notation "x <- c ;; k" := (bind c (fun x => k))
  (at level 61, c at next level, right associativity).

Definition raises {A : Type} (c : result A) : Prop :=
  exists e, c = Raise e.

Definition returns {A : Type} (c : result A) : Prop :=
  exists a, c = Ok a.

(** A key-only exception: what a label lookup can raise. *)
Definition is_KeyError (e : exception) : Prop := exists k, e = KeyError k.

(** [mapM f l]: run [f] on every element, left to right, stopping at the
    first exception. *)
Fixpoint mapM {A B : Type} (f : A -> result B) (l : list A) : result (list B) :=
  match l with
  | [] => Ok []
  | a :: l' => b <- f a ;; bs <- mapM f l' ;; Ok (b :: bs)
  end.

(* ------------------------------------------------------------------ *)
(** ** Lists as NumPy vectors *)

(** Entrywise numeric equality of vectors and of matrices. *)
Definition Qlist_eq (u v : list Q) : Prop := Forall2 Qeq u v.
Definition Qmat_eq (a b : list (list Q)) : Prop := Forall2 Qlist_eq a b.

Fixpoint map2 {A B C : Type} (f : A -> B -> C) (l : list A) (m : list B) : list C :=
  match l, m with
  | a :: l', b :: m' => f a b :: map2 f l' m'
  | _, _ => []
  end.

Definition vadd (u v : list Q) : list Q := map2 Qplus u v.
Definition vsub (u v : list Q) : list Q := map2 Qminus u v.
Definition vscale (c : Q) (v : list Q) : list Q := map (Qmult c) v.

(** [a.sum()] of a vector. *)
Definition vsum (v : list Q) : Q := fold_left Qplus v 0%Q.

(** [u @ v] for two vectors. *)
Definition dot (u v : list Q) : Q := vsum (map2 Qmult u v).

(** [m.sum(axis=0)] of a matrix given by its rows, [ncols] columns wide. *)
Definition sum_axis0 (ncols : nat) (m : list (list Q)) : list Q :=
  fold_left vadd m (repeat 0%Q ncols).

(** [a @ b.T] for two matrices given by their rows. *)
Definition matmul_T (a b : list (list Q)) : list (list Q) :=
  map (fun a_s => map (fun b_i => dot a_s b_i) b) a.

(** [m.T] of a matrix with [ncols] columns given by its rows. *)
Fixpoint transpose (ncols : nat) (m : list (list Q)) : list (list Q) :=
  match m with
  | [] => repeat [] ncols
  | r :: m' => map2 cons r (transpose ncols m')
  end.

(* ------------------------------------------------------------------ *)
(** ** ndarray: a shape and the elements in row-major order *)

Record ndarray : Type := mk_ndarray { shape : list nat; flat : list Q }.

Definition ndim (a : ndarray) : nat := length (shape a).

(** [np.array([])] *)
Definition np_array_empty : ndarray := mk_ndarray [0%nat] [].

(** [np.empty((0, n))] *)
Definition np_empty_0 (n : nat) : ndarray := mk_ndarray [0%nat; n] [].

(** A 1-D array holding [v]. *)
Definition array1 (v : list Q) : ndarray := mk_ndarray [length v] v.

(** A 2-D array of [ncols] columns holding the rows [m]. *)
Definition array2 (ncols : nat) (m : list (list Q)) : ndarray :=
  mk_ndarray [length m; ncols] (concat m).

(** Cut a flat buffer into [n] rows of [k] elements. *)
Fixpoint chunks (k n : nat) (l : list Q) : list (list Q) :=
  match n with
  | O => []
  | S n' => firstn k l :: chunks k n' (skipn k l)
  end.

(** The rows of a 2-D array (the empty list for other dimensions). *)
Definition rows_of (a : ndarray) : list (list Q) :=
  match shape a with
  | [n; k] => chunks k n (flat a)
  | _ => []
  end.

(** [arr[s, i]] of a 2-D array, read from the row-major buffer. *)
Definition at2 (arr : ndarray) (s i : nat) : Q :=
  nth (s * nth 1 (shape arr) 0%nat + i) (flat arr) 0%Q.

(** [np.concatenate] of 1-D arrays. *)
Definition np_concatenate (l : list ndarray) : ndarray :=
  let data := concat (map flat l) in
  mk_ndarray [length data] data.

(** [np.vstack] of a non-empty list of 2-D arrays of equal width. *)
Definition np_vstack (l : list ndarray) : ndarray :=
  mk_ndarray
    [list_sum (map (fun a => nth 0 (shape a) 0%nat) l);
     nth 1 (shape (hd np_array_empty l)) 0%nat]
    (concat (map flat l)).

(* ------------------------------------------------------------------ *)
(** ** DataFrame: named columns over rows of numeric cells *)

Record DataFrame : Type := mk_df { columns : list string; rows : list (list Q) }.

(** [len(df)] *)
Definition len (df : DataFrame) : nat := length (rows df).

Fixpoint index_of (c : string) (cols : list string) : option nat :=
  match cols with
  | [] => None
  | c' :: cols' =>
      if String.eqb c c' then Some O
      else option_map S (index_of c cols')
  end.

Definition has_column (df : DataFrame) (c : string) : bool :=
  match index_of c (columns df) with Some _ => true | None => false end.

(** Position of a column; a missing label is a [KeyError]. *)
Definition loc (cols : list string) (c : string) : result nat :=
  match index_of c cols with
  | Some i => Ok i
  | None => Raise (KeyError c)
  end.

Definition cell (i : nat) (r : list Q) : Q := nth i r 0%Q.

(** [df[c].to_numpy()] *)
Definition series (df : DataFrame) (c : string) : result (list Q) :=
  i <- loc (columns df) c ;;
  Ok (map (cell i) (rows df)).

(** [df[cs].to_numpy()]: one row per observation, one entry per label. *)
Definition frame_values (df : DataFrame) (cs : list string) : result (list (list Q)) :=
  idx <- mapM (loc (columns df)) cs ;;
  Ok (map (fun r => map (fun i => cell i r) idx) (rows df)).

(** The cell of row [r] under label [c] (0 when the table has no such
    column, which the code never reads). *)
Definition value_at (cols : list string) (c : string) (r : list Q) : Q :=
  match index_of c cols with
  | Some i => cell i r
  | None => 0%Q
  end.

(** The position of a label (0 when absent). *)
Definition col_index (cols : list string) (c : string) : nat :=
  match index_of c cols with
  | Some i => i
  | None => O
  end.

(* ------------------------------------------------------------------ *)
(** ** groupby *)

(** A group key is the tuple of key cells; cells are reduced so that two keys
    are the same tuple exactly when they are numerically equal. *)
Definition key := list Q.

Definition Q_eqb (a b : Q) : bool :=
  Z.eqb (Qnum a) (Qnum b) && Pos.eqb (Qden a) (Qden b).

Fixpoint key_eqb (a b : key) : bool :=
  match a, b with
  | [], [] => true
  | x :: a', y :: b' => Q_eqb x y && key_eqb a' b'
  | _, _ => false
  end.

Fixpoint key_compare (a b : key) : comparison :=
  match a, b with
  | [], [] => Eq
  | [], _ :: _ => Lt
  | _ :: _, [] => Gt
  | x :: a', y :: b' =>
      match Qcompare x y with
      | Eq => key_compare a' b'
      | c => c
      end
  end.

Definition key_leb (a b : key) : bool :=
  match key_compare a b with Gt => false | _ => true end.

Definition key_of (idx : list nat) (r : list Q) : key :=
  map (fun i => Qred (cell i r)) idx.

(** The distinct keys, in order of first appearance. *)
Fixpoint unique (ks : list key) : list key :=
  match ks with
  | [] => []
  | k :: ks' => k :: filter (fun k' => negb (key_eqb k k')) (unique ks')
  end.

Fixpoint insert_key (k : key) (ks : list key) : list key :=
  match ks with
  | [] => [k]
  | k' :: ks' => if key_leb k k' then k :: ks else k' :: insert_key k ks'
  end.

Fixpoint sort_keys (ks : list key) : list key :=
  match ks with
  | [] => []
  | k :: ks' => insert_key k (sort_keys ks')
  end.

(** The rows of the group with key [k], in table order. *)
Definition group_rows (idx : list nat) (rs : list (list Q)) (k : key) : list (list Q) :=
  filter (fun r => key_eqb k (key_of idx r)) rs.

(** The order in which [groupby] yields its groups: ascending keys when
    [sort=True] (the default), first appearance when [sort=False]. *)
Definition group_order (sort : bool) (ks : list key) : list key :=
  if sort then sort_keys (unique ks) else unique ks.

(** [df.groupby(keys, sort=sort)], as the list of groups it iterates over. *)
Definition groupby (df : DataFrame) (keys : list string) (sort : bool)
  : result (list DataFrame) :=
  match keys with
  | [] => Raise (ValueError "No group keys passed!")
  | _ =>
      idx <- mapM (loc (columns df)) keys ;;
      Ok (map (fun k => mk_df (columns df) (group_rows idx (rows df) k))
              (group_order sort (map (key_of idx) (rows df))))
  end.

(* ------------------------------------------------------------------ *)
(** ** Effect propagator: [determine_effect_coeff] *)

Module Propagator.

Definition default_group_keys : list string := ["OriginAirportID"; "Year"; "Month"].

Definition default_hub_dummy_cols : list string :=
  ["AirlineHubSize_0"; "AirlineHubSize_1"; "AirlineHubSize_2"; "AirlineHubSize_3"].

Definition base_cols : list string :=
  ["MarketShare"; "HHI"; "MonthlyFlights"; "AirportHubSize"].

Definition shape_msg : string := "random_sample must have shape (num_sims, len(hub_dummy_cols))".
Definition missing_msg : string := "df_inputs missing columns".

(** [S_total_by_bin = (s[:, None] * I).sum(axis=0)] *)
Definition S_total_by_bin (nbins : nat) (s : list Q) (I : list (list Q)) : list Q :=
  sum_axis0 nbins (map2 vscale s I).

(** [comp_1 = 2.0 * (s - hhi)] *)
Definition comp_1 (s hhi : list Q) : list Q := vscale 2 (vsub s hhi).

(** [others_by_bin = S_total_by_bin[None, :] - (s[:, None] * I)] *)
Definition others_by_bin (nbins : nat) (s : list Q) (I : list (list Q)) : list (list Q) :=
  map (vsub (S_total_by_bin nbins s I)) (map2 vscale s I).

(** [comp_2 = (random_sample @ others_by_bin.T).T] *)
Definition comp_2 (random_sample others : list (list Q)) : list (list Q) :=
  transpose (length others) (matmul_T random_sample others).

(** [effect_mat = comp_1[:, None] * comp_2] *)
Definition effect_mat (c1 : list Q) (c2 : list (list Q)) : list (list Q) :=
  map2 vscale c1 c2.

(** The five Python lists the loop appends to. *)
Record accumulators : Type := mk_acc {
  effect_list : list ndarray;
  monthly_flights : list ndarray;
  market_share : list ndarray;
  airport_hub_size : list ndarray;
  group_id_first_key : list ndarray
}.

Definition acc_empty : accumulators := mk_acc [] [] [] [] [].

(** What the loop body computes for one group before appending: the
    group's effect matrix and its four parallel arrays. *)
Record block : Type := mk_block {
  blk_effect : ndarray;
  blk_monthly_flights : ndarray;
  blk_market_share : ndarray;
  blk_airport_hub_size : ndarray;
  blk_group_id : ndarray
}.

Definition block_of (random_sample : ndarray) (group_keys hub_dummy_cols : list string)
    (group : DataFrame) : result block :=
  s <- series group "MarketShare" ;;
  I <- frame_values group hub_dummy_cols ;;
  hhi <- series group "HHI" ;;
  let c1 := comp_1 s hhi in
  let others := others_by_bin (length hub_dummy_cols) s I in
  let c2 := comp_2 (rows_of random_sample) others in
  let eff := effect_mat c1 c2 in
  mf <- series group "MonthlyFlights" ;;
  ahs <- series group "AirportHubSize" ;;
  gid <- series group (hd "" group_keys) ;;
  Ok (mk_block (array2 (nth 0 (shape random_sample) 0%nat) eff)
        (array1 mf) (array1 s) (array1 ahs) (array1 gid)).

(** The five [append] calls. *)
Definition push (acc : accumulators) (b : block) : accumulators :=
  mk_acc
    (effect_list acc ++ [blk_effect b])
    (monthly_flights acc ++ [blk_monthly_flights b])
    (market_share acc ++ [blk_market_share b])
    (airport_hub_size acc ++ [blk_airport_hub_size b])
    (group_id_first_key acc ++ [blk_group_id b]).

(** One iteration of the loop body for a group that is not skipped. *)
Definition loop_body (random_sample : ndarray) (group_keys hub_dummy_cols : list string)
    (acc : accumulators) (group : DataFrame) : result accumulators :=
  b <- block_of random_sample group_keys hub_dummy_cols group ;;
  Ok (push acc b).

(** [for _, group in ...: if len(group) <= 1: continue; ...] *)
Fixpoint loop (random_sample : ndarray) (group_keys hub_dummy_cols : list string)
    (groups : list DataFrame) (acc : accumulators) : result accumulators :=
  match groups with
  | [] => Ok acc
  | group :: rest =>
      if (len group <=? 1)%nat
      then loop random_sample group_keys hub_dummy_cols rest acc
      else
        acc' <- loop_body random_sample group_keys hub_dummy_cols acc group ;;
        loop random_sample group_keys hub_dummy_cols rest acc'
  end.

(** The value returned: (monthly_flights, market_share, airport_hub_size,
    effect, group id). *)
Record output : Type := mk_output {
  out_monthly_flights : ndarray;
  out_market_share : ndarray;
  out_airport_hub_size : ndarray;
  out_effect : ndarray;
  out_group_id : ndarray
}.

Definition required_columns (group_keys hub_dummy_cols : list string) : list string :=
  group_keys ++ base_cols ++ hub_dummy_cols.

Definition missing_columns (df : DataFrame) (required : list string) : list string :=
  filter (fun c => negb (has_column df c)) required.

Definition determine_effect_coeff (df_inputs : DataFrame) (random_sample : ndarray)
    (group_keys hub_dummy_cols : list string) : result output :=
  if negb (ndim random_sample =? 2)%nat
     || negb (nth 1 (shape random_sample) 0 =? length hub_dummy_cols)%nat
  then Raise (ValueError shape_msg)
  else
    match missing_columns df_inputs (required_columns group_keys hub_dummy_cols) with
    | _ :: _ => Raise (ValueError missing_msg)
    | [] =>
        groups <- groupby df_inputs group_keys true ;;
        acc <- loop random_sample group_keys hub_dummy_cols groups acc_empty ;;
        match effect_list acc with
        | [] =>
            Ok (mk_output np_array_empty np_array_empty np_array_empty
                  (np_empty_0 (nth 0 (shape random_sample) 0%nat))
                  np_array_empty)
        | _ =>
            Ok (mk_output
                  (np_concatenate (monthly_flights acc))
                  (np_concatenate (market_share acc))
                  (np_concatenate (airport_hub_size acc))
                  (np_vstack (effect_list acc))
                  (np_concatenate (group_id_first_key acc)))
        end
    end.

(** The value returned once the loop has appended the blocks [bs]. *)
Definition assemble (rs : ndarray) (bs : list block) : output :=
  match bs with
  | [] =>
      mk_output np_array_empty np_array_empty np_array_empty
        (np_empty_0 (nth 0 (shape rs) 0%nat)) np_array_empty
  | _ =>
      mk_output
        (np_concatenate (map blk_monthly_flights bs))
        (np_concatenate (map blk_market_share bs))
        (np_concatenate (map blk_airport_hub_size bs))
        (np_vstack (map blk_effect bs))
        (np_concatenate (map blk_group_id bs))
  end.

(** A group the loop keeps. *)
Definition kept (group : DataFrame) : bool := negb (len group <=? 1)%nat.

(** The effect matrix of one group, as its rows. *)
Definition group_effect (random_sample : ndarray) (hub_dummy_cols : list string)
    (group : DataFrame) : result (list (list Q)) :=
  s <- series group "MarketShare" ;;
  I <- frame_values group hub_dummy_cols ;;
  hhi <- series group "HHI" ;;
  Ok (effect_mat (comp_1 s hhi)
        (comp_2 (rows_of random_sample) (others_by_bin (length hub_dummy_cols) s I))).

(** The table of the worked example: one market, two airlines with market
    shares 0.6 and 0.4, both medium-hub (bin 2), HHI 0.52; the remaining
    cells are arbitrary. *)
Definition two_airline_market (id year month mf1 mf2 ahs1 ahs2 : Q) : DataFrame :=
  mk_df (default_group_keys ++ base_cols ++ default_hub_dummy_cols)
    [ [id; year; month; 0.6; 0.52; mf1; ahs1; 0; 0; 1; 0];
      [id; year; month; 0.4; 0.52; mf2; ahs2; 0; 0; 1; 0] ]%Q.

(** One three-airline market and one single-airline market. *)
Definition mixed_table : DataFrame :=
  mk_df (default_group_keys ++ base_cols ++ default_hub_dummy_cols)
    [ [12; 2019; 1; 1; 1; 90; 1; 0; 1; 0; 0];
      [10; 2019; 1; 0.5; 0.38; 50; 3; 0; 0; 0; 1];
      [10; 2019; 1; 0.3; 0.38; 30; 3; 0; 0; 1; 0];
      [10; 2019; 1; 0.2; 0.38; 20; 3; 0; 0; 1; 0] ]%Q.

Definition two_draws : ndarray :=
  mk_ndarray [2; 4]%nat [1; 2; 3; 4; 0; 0; 5; 0]%Q.

End Propagator.

(* ------------------------------------------------------------------ *)
(** ** Point-estimate variant: [determine_effect_coeff_true] *)

Module TrueEffect.

Definition hub_cols : list string :=
  ["AirlineHubSize_0"; "AirlineHubSize_1"; "AirlineHubSize_2"; "AirlineHubSize_3"].

Definition market_keys : list string := ["OriginAirportID"; "Year"; "Month"].

Definition length_msg : string := "true_params must be a length-4 vector".

(** One dict appended to [results]: a row of the returned DataFrame. *)
Record record : Type := mk_record {
  r_monthly_flights : Q;
  r_market_share : Q;
  r_airport_hub_size : Q;
  r_airline_hub_size : Q;
  r_hhi : Q;
  r_num_airlines : nat;
  r_airport_id : Q;
  r_effect : Q
}.

(** [row[c]] *)
Definition row_get (cols : list string) (row : list Q) (c : string) : result Q :=
  i <- loc cols c ;; Ok (cell i row).

(** [total_hub_market_share =
     group[hub_cols].multiply(group["MarketShare"], axis=0).sum().to_numpy()] *)
Definition total_hub_market_share (group : DataFrame) : result (list Q) :=
  I <- frame_values group hub_cols ;;
  s <- series group "MarketShare" ;;
  Ok (sum_axis0 (length hub_cols)
        (map2 (fun I_j s_j => map (fun x => x * s_j)%Q I_j) I s)).

(** The body of [for _, row in group.iterrows()]. *)
Definition row_body (true_params : list Q) (cols : list string) (num_airlines : nat)
    (total : list Q) (row : list Q) : result record :=
  ms <- row_get cols row "MarketShare" ;;
  hhi <- row_get cols row "HHI" ;;
  let comp_1 := (2 * (ms - hhi))%Q in
  own_hub_vector <- mapM (row_get cols row) hub_cols ;;
  let other_airlines_market_share := vsub total (vscale ms own_hub_vector) in
  let comp_2 := dot true_params other_airlines_market_share in
  let effect := (comp_1 * comp_2)%Q in
  mf <- row_get cols row "MonthlyFlights" ;;
  ahs <- row_get cols row "AirportHubSize" ;;
  alhs <- row_get cols row "AirlineHubSize" ;;
  id <- row_get cols row "OriginAirportID" ;;
  Ok (mk_record mf ms ahs alhs hhi num_airlines id effect).

Fixpoint loop (true_params : list Q) (groups : list DataFrame) (results : list record)
  : result (list record) :=
  match groups with
  | [] => Ok results
  | group :: rest =>
      let num_airlines := len group in
      if (num_airlines <=? 1)%nat
      then loop true_params rest results
      else
        total <- total_hub_market_share group ;;
        new <- mapM (row_body true_params (columns group) num_airlines total) (rows group) ;;
        loop true_params rest (results ++ new)
  end.

(** What the loop body appends for one market that is not skipped. *)
Definition market_records (true_params : list Q) (group : DataFrame) : result (list record) :=
  total <- total_hub_market_share group ;;
  mapM (row_body true_params (columns group) (len group) total) (rows group).

(** The rows of the returned DataFrame, in order. *)
Definition determine_effect_coeff_true (true_params : ndarray) (airport_airline_market : DataFrame)
  : result (list record) :=
  let tp := flat true_params in
  if negb (length tp =? 4)%nat then Raise (ValueError length_msg)
  else
    groups <- groupby airport_airline_market market_keys false ;;
    loop tp groups [].

(** A table both effect functions accept: the market keys, the four base
    columns, the four hub dummies and AirlineHubSize are all present. *)
Definition valid_table (df : DataFrame) : Prop :=
  forall c,
    In c (market_keys ++
          ["MarketShare"; "HHI"; "MonthlyFlights"; "AirportHubSize"; "AirlineHubSize"] ++
          hub_cols) ->
    has_column df c = true.

(** The effect formula of the specification for the observations of one
    market (the rows [market], in table order):
    comp1_i = 2 (share_i - hhi_i),
    others_i[bin] = S_total[bin] - share_i * hub_dummy_i[bin],
    comp2_i = sum over bins of coeff[bin] * others_i[bin],
    effect_i = comp1_i * comp2_i. *)
Definition spec_effects (coeff : list Q) (cols : list string) (market : list (list Q))
  : list Q :=
  let share := value_at cols "MarketShare" in
  let hhi := value_at cols "HHI" in
  let hub_dummy := fun r => map (fun c => value_at cols c r) hub_cols in
  let S_total := sum_axis0 4 (map (fun r => vscale (share r) (hub_dummy r)) market) in
  map (fun r =>
         (2 * (share r - hhi r) * dot coeff (vsub S_total (vscale (share r) (hub_dummy r))))%Q)
      market.

(** Two two-airline markets, listed with the larger airport id first. *)
Definition unsorted_table : DataFrame :=
  mk_df (market_keys ++
         ["MarketShare"; "HHI"; "MonthlyFlights"; "AirportHubSize"; "AirlineHubSize"] ++
         hub_cols)
    [ [20; 2019; 1; 0.7; 0.58; 70; 3; 3; 0; 0; 0; 1];
      [20; 2019; 1; 0.3; 0.58; 30; 3; 1; 0; 1; 0; 0];
      [10; 2019; 1; 0.6; 0.52; 60; 2; 2; 0; 0; 1; 0];
      [10; 2019; 1; 0.4; 0.52; 40; 2; 2; 0; 0; 1; 0] ]%Q.

End TrueEffect.

(* ------------------------------------------------------------------ *)
(** ** Coefficient sampler: [basic_random_sample], [hub_random_sample] *)

(** What [pd.read_csv] yields for a file: the numeric columns, and the text
    column ["Unnamed: 0"] when the file has one (the row labels of a
    covariance table). *)
Record csv_table : Type := mk_csv {
  unnamed_0 : option (list string);
  table : DataFrame
}.

Inductive mvn_method : Type := svd | cholesky.

Module Sampler.

Section WithNumpy.

(** The file store ([pd.read_csv]) and NumPy's generator are outside the
    repository.  [default_rng(seed)] with an integer seed builds the
    generator from the seed alone; with [None] it builds it from fresh
    operating-system entropy, which is an input of the call here. *)
Variable read_csv : string -> result csv_table.
Variable bit_generator : Type.
Variable entropy : Type.
Variable seeded : Z -> bit_generator.
Variable unseeded : entropy -> bit_generator.
Variable multivariate_normal :
  bit_generator -> list Q -> list (list Q) -> nat -> mvn_method -> result ndarray.

Definition default_rng (os : entropy) (seed : option Z) : bit_generator :=
  match seed with
  | Some n => seeded n
  | None => unseeded os
  end.

Definition num_sims_msg : string := "num_sims must be positive.".

(** [coef_df.loc[0, reg_vars].to_numpy(dtype=float)] *)
Definition first_row (df : DataFrame) (reg_vars : list string) : result (list Q) :=
  match rows df with
  | [] => Raise (KeyError "0")
  | r :: _ =>
      idx <- mapM (loc (columns df)) reg_vars ;;
      Ok (map (fun i => cell i r) idx)
  end.

Fixpoint label_index (l : string) (labels : list string) : option nat :=
  match labels with
  | [] => None
  | l' :: labels' =>
      if String.eqb l l' then Some O else option_map S (label_index l labels')
  end.

(** [pd.read_csv(cov_path).set_index("Unnamed: 0").loc[reg_vars, reg_vars]
     .to_numpy(dtype=float)] for a table whose row labels are distinct. *)
Definition cov_matrix (c : csv_table) (reg_vars : list string) : result (list (list Q)) :=
  match unnamed_0 c with
  | None => Raise (KeyError "Unnamed: 0")
  | Some labels =>
      ridx <- mapM (fun v => match label_index v labels with
                             | Some i => Ok i
                             | None => Raise (KeyError v)
                             end) reg_vars ;;
      cidx <- mapM (loc (columns (table c))) reg_vars ;;
      Ok (map (fun i => map (fun j => cell j (nth i (rows (table c)) [])) cidx) ridx)
  end.

(** [missing = [v for v in reg_vars if v not in coef_df.columns]] *)
Definition missing_vars (df : DataFrame) (reg_vars : list string) : list string :=
  filter (fun v => negb (has_column df v)) reg_vars.

(** [f"{missing}"]: the [repr] of a list of regressor names (none of them
    holds a quote or a backslash, so each is written between single quotes). *)
Definition repr_list (l : list string) : string :=
  ("[" ++ String.concat ", " (map (fun v => "'" ++ v ++ "'")%string l) ++ "]")%string.

(** [f"Missing coefficient columns in {coef_path}: {missing}"] *)
Definition missing_coef_msg (coef_path : string) (missing : list string) : string :=
  ("Missing coefficient columns in " ++ coef_path ++ ": " ++ repr_list missing)%string.

Definition basic_reg_vars : list string := ["hhiorigin"; "hhidest"].
Definition n_hub_sizes : nat := 4.

Definition basic_random_sample (os : entropy) (coef_path cov_path : string)
    (num_sims : Z) (seed : option Z) : result (ndarray * ndarray) :=
  if (num_sims <=? 0)%Z then Raise (ValueError num_sims_msg)
  else
    coef <- read_csv coef_path ;;
    let coef_df := table coef in
    match missing_vars coef_df basic_reg_vars with
    | _ :: _ =>
        Raise (KeyError (missing_coef_msg coef_path (missing_vars coef_df basic_reg_vars)))
    | [] =>
        mu <- first_row coef_df basic_reg_vars ;;
        cov <- read_csv cov_path ;;
        Sigma <- cov_matrix cov basic_reg_vars ;;
        let rng := default_rng os seed in
        draws <- multivariate_normal rng mu Sigma (Z.to_nat num_sims) svd ;;
        let combined := map vsum (rows_of draws) in
        let random_sample :=
          array2 n_hub_sizes (map (fun c => repeat c n_hub_sizes) combined) in
        let true_params := array1 (repeat (vsum mu) n_hub_sizes) in
        Ok (random_sample, true_params)
    end.

Definition hub_reg_vars : list string :=
  ["nonhubairlineconcorigin"; "smallhubairlineconcorigin";
   "mediumhubairlineconcorigin"; "largehubairlineconcorigin";
   "nonhubairlineconcdest"; "smallhubairlineconcdest";
   "mediumhubairlineconcdest"; "largehubairlineconcdest"].

Definition hub_random_sample (os : entropy) (coef_path cov_path : string)
    (num_sims : Z) (seed : option Z) : result (ndarray * ndarray) :=
  if (num_sims <=? 0)%Z then Raise (ValueError num_sims_msg)
  else
    coef <- read_csv coef_path ;;
    let coef_df := table coef in
    match missing_vars coef_df hub_reg_vars with
    | _ :: _ =>
        Raise (KeyError (missing_coef_msg coef_path (missing_vars coef_df hub_reg_vars)))
    | [] =>
        mu <- first_row coef_df hub_reg_vars ;;
        cov <- read_csv cov_path ;;
        Sigma <- cov_matrix cov hub_reg_vars ;;
        let rng := default_rng os seed in
        draws <- multivariate_normal rng mu Sigma (Z.to_nat num_sims) cholesky ;;
        let random_sample :=
          array2 4 (map (fun d => vadd (firstn 4 d) (skipn 4 d)) (rows_of draws)) in
        let true_params := array1 (vadd (firstn 4 mu) (skipn 4 mu)) in
        Ok (random_sample, true_params)
    end.

End WithNumpy.

(** Stand-ins for the file store and the generator, used to run the model:
    two one-row files, and a generator whose every draw is the mean. *)
Definition sample_files (path : string) : result csv_table :=
  if String.eqb path "coef.csv"
  then Ok (mk_csv None (mk_df ["hhiorigin"; "hhidest"] [[1.5; 0.5]]%Q))
  else if String.eqb path "cov.csv"
  then Ok (mk_csv (Some ["hhiorigin"; "hhidest"])
             (mk_df ["hhiorigin"; "hhidest"] [[1; 0]; [0; 1]]%Q))
  else Raise (KeyError path).

Definition mean_draws (g : Z) (mu : list Q) (Sigma : list (list Q)) (size : nat)
    (method : mvn_method) : result ndarray :=
  Ok (array2 (length mu) (repeat mu size)).

End Sampler.

(* ------------------------------------------------------------------ *)
(** ** Numbers that may be NaN, and summary statistics *)

Inductive number : Type :=
| Finite (q : Q)
| NaN.

Fixpoint insert_Q (x : Q) (l : list Q) : list Q :=
  match l with
  | [] => [x]
  | y :: l' => if Qle_bool x y then x :: l else y :: insert_Q x l'
  end.

Definition sort_Q (l : list Q) : list Q := fold_right insert_Q [] l.

Definition percentile_msg : string := "index -1 is out of bounds for axis 0 with size 0".

(** [np.percentile(v, p)] with the default linear interpolation; on an empty
    vector NumPy raises an IndexError. *)
Definition percentile (v : list Q) (p : Q) : result number :=
  match v with
  | [] => Raise (IndexError percentile_msg)
  | _ =>
      let a := sort_Q v in
      let vi := (p / 100 * inject_Z (Z.of_nat (length v - 1)))%Q in
      let lo := Z.to_nat (Qfloor vi) in
      let hi := Nat.min (lo + 1) (length v - 1) in
      let gamma := (vi - inject_Z (Qfloor vi))%Q in
      Ok (Finite (nth lo a 0 + (nth hi a 0 - nth lo a 0) * gamma)%Q)
  end.

(** [v.mean()]; NaN on an empty vector. *)
Definition mean (v : list Q) : number :=
  match v with
  | [] => NaN
  | _ => Finite (vsum v / inject_Z (Z.of_nat (length v)))%Q
  end.

(** [a[mask]] *)
Definition compress {A : Type} (mask : list bool) (a : list A) : list A :=
  map snd (filter fst (combine mask a)).

(* ------------------------------------------------------------------ *)
(** ** Hub-stratified regressor: [find_slopes] *)

Module Regressor.

Record stats : Type := mk_stats {
  median : number;
  st_mean : number;
  p2_5 : number;
  p97_5 : number
}.

Record summary : Type := mk_summary {
  n_obs : nat;
  intercept : stats;
  slope : stats
}.

(** The four entries of one summary dict, evaluated in the order the dict
    literal lists them: median, mean, p2_5, p97_5. *)
Definition stats_of (v : list Q) : result stats :=
  med <- percentile v 50 ;;
  let avg := mean v in
  lo <- percentile v 2.5 ;;
  hi <- percentile v 97.5 ;;
  Ok (mk_stats med avg lo hi).

(** A summary used as the default of a lookup by position. *)
Definition nan_stats : stats := mk_stats NaN NaN NaN NaN.

Definition align_msg : string :=
  "market_share, hub_size, and effect must align on the first dimension (N).".
Definition weights_len_msg : string := "weights must have the same length as hub_size.".
Definition nonpositive_msg : string := "Non-positive weights found for hub".
Definition unpack_msg : string := "effect.shape does not unpack into two values".

Section WithStatsmodels.

(** [OLS(y, X).fit().params] and [WLS(y, X, weights=w).fit().params] for a
    two-column design matrix, as (intercept, slope).  statsmodels is outside
    the repository; a fit may raise. *)
Variable OLS_fit : list Q -> list (list Q) -> result (Q * Q).
Variable WLS_fit : list Q -> list (list Q) -> list Q -> result (Q * Q).

(** [hub_ind = (hub_size == hub)] *)
Definition hub_ind (hub_size : list Q) (hub : nat) : list bool :=
  map (fun h => Qeq_bool h (inject_Z (Z.of_nat hub))) hub_size.

(** [X = np.concatenate([np.ones_like(ms_hub), ms_hub], axis=1)] *)
Definition design (ms_hub : list Q) : list (list Q) :=
  map (fun m => [1%Q; m]) ms_hub.

(** [effect[hub_ind, column]] *)
Definition effect_hub (effect_rows : list (list Q)) (mask : list bool) (column : nat)
  : list Q :=
  map (cell column) (compress mask effect_rows).

(** The regression of one column. *)
Definition fit (w_hub : option (list Q)) (y : list Q) (X : list (list Q))
  : result (Q * Q) :=
  match w_hub with
  | None => OLS_fit y X
  | Some w => WLS_fit y X w
  end.

(** [np.any(w_hub <= 0)] *)
Definition any_nonpositive (w : list Q) : bool :=
  existsb (fun x => Qle_bool x 0) w.

(** The body of [for hub in range(4)]. *)
Definition hub_body (market_share hub_size : list Q) (effect_rows : list (list Q))
    (weights : option (list Q)) (columns : nat) (hub : nat)
  : result (list Q * list Q * (nat * summary)) :=
  let mask := hub_ind hub_size hub in
  let n_obs := length (filter (fun b => b) mask) in
  let ms_hub := compress mask market_share in
  let X := design ms_hub in
  w_hub <- match weights with
           | None => Ok None
           | Some w =>
               let w_hub := compress mask w in
               if any_nonpositive w_hub
               then Raise (ValueError nonpositive_msg)
               else Ok (Some w_hub)
           end ;;
  params <- mapM (fun column => fit w_hub (effect_hub effect_rows mask column) X)
                 (seq 0 columns) ;;
  let slope_vec := map snd params in
  let intercept_vec := map fst params in
  intercept_stats <- stats_of intercept_vec ;;
  slope_stats <- stats_of slope_vec ;;
  Ok (slope_vec, intercept_vec,
      (hub, mk_summary n_obs intercept_stats slope_stats)).

(** Returns (slope_mat, intercept_mat, summary_list). *)
Definition find_slopes (market_share hub_size effect : ndarray) (weights : option ndarray)
  : result (list (list Q) * list (list Q) * list (nat * summary)) :=
  let ms := flat market_share in
  let hs := flat hub_size in
  if negb (length ms =? length hs)%nat then Raise (ValueError align_msg)
  else
    match shape effect with
    | [] => Raise (IndexError "tuple index out of range")
    | n :: _ =>
        if negb (length ms =? n)%nat
        then Raise (ValueError align_msg)
        else
          w <- match weights with
               | None => Ok None
               | Some w =>
                   if negb (length (flat w) =? length hs)%nat
                   then Raise (ValueError weights_len_msg)
                   else Ok (Some (flat w))
               end ;;
          match shape effect with
          | [_; columns] =>
              per_hub <- mapM (hub_body ms hs (rows_of effect) w columns) (seq 0 4) ;;
              Ok (map (fun r => fst (fst r)) per_hub,
                  map (fun r => snd (fst r)) per_hub,
                  map snd per_hub)
          | _ => Raise (ValueError unpack_msg)
          end
    end.

End WithStatsmodels.

(** The inputs of the regressions of stratum [hub]: the rows selected, the
    response of one simulation column, the design matrix, the sliced
    weights. *)
Definition stratum_mask (hub_size : ndarray) (hub : nat) : list bool :=
  hub_ind (flat hub_size) hub.

Definition stratum_y (effect hub_size : ndarray) (hub column : nat) : list Q :=
  effect_hub (rows_of effect) (stratum_mask hub_size hub) column.

Definition stratum_X (market_share hub_size : ndarray) (hub : nat) : list (list Q) :=
  design (compress (stratum_mask hub_size hub) (flat market_share)).

Definition stratum_w (weights hub_size : ndarray) (hub : nat) : list Q :=
  compress (stratum_mask hub_size hub) (flat weights).

(** Every observation belongs to one of the four strata. *)
Definition hubs_in_range (hub_size : list Q) : Prop :=
  Forall (fun h => exists k, (k < 4)%nat /\ (h == inject_Z (Z.of_nat k))%Q) hub_size.

(** The three values returned, from the per-hub results. *)
Definition pack (per_hub : list (list Q * list Q * (nat * summary)))
  : list (list Q) * list (list Q) * list (nat * summary) :=
  (map (fun r => fst (fst r)) per_hub, map (fun r => snd (fst r)) per_hub, map snd per_hub).

(** Stand-ins for the two statsmodels fits, used to run the model: the
    fitted line is the horizontal line through the (weighted) mean. *)
Definition flat_OLS (y : list Q) (X : list (list Q)) : result (Q * Q) :=
  Ok ((vsum y / inject_Z (Z.of_nat (length y)))%Q, 0%Q).

Definition flat_WLS (y : list Q) (X : list (list Q)) (w : list Q) : result (Q * Q) :=
  Ok ((dot w y / vsum w)%Q, 0%Q).

(** Modelled from the spec: statsmodels is outside the repository, and the
    specification (4.4, 7) states that the regression call on a stratum with
    zero observations fails with an invalid-argument error.  These stand-ins
    fail on an empty response and fit the mean line otherwise. *)
Definition empty_msg : string :=
  "zero-size array to reduction operation maximum which has no identity".

Definition strict_OLS (y : list Q) (X : list (list Q)) : result (Q * Q) :=
  match y with
  | [] => Raise (ValueError empty_msg)
  | _ => flat_OLS y X
  end.

Definition strict_WLS (y : list Q) (X : list (list Q)) (w : list Q) : result (Q * Q) :=
  match y with
  | [] => Raise (ValueError empty_msg)
  | _ => flat_WLS y X w
  end.

End Regressor.

(* ------------------------------------------------------------------ *)
(** ** Dominance matrix: [prob_values_different] *)

Module Dominance.

Inductive label : Type :=
| LInt (n : nat)
| LStr (s : string).

(** The [slopes] argument: an ndarray, or a list or tuple of arrays. *)
Inductive slopes_arg : Type :=
| AsArray (a : ndarray)
| AsList (l : list ndarray).

(** The returned DataFrame: K row labels, K column labels, K rows of K
    values. *)
Record prob_frame : Type := mk_prob_frame {
  index : list label;
  pf_columns : list label;
  values : list (list number)
}.

Definition ndim_msg : string := "`slopes` array must be 2D (num_sims, K).".
Definition labels_msg : string := "`labels` must have length K.".
Definition stack_msg : string := "column_stack: arrays must be non-empty and of one length".

(** [np.column_stack(cols)] of 1-D arrays, as (num_sims, K, rows). *)
Definition column_stack (cols : list (list Q)) : result (nat * nat * list (list Q)) :=
  match cols with
  | [] => Raise (ValueError stack_msg)
  | c :: _ =>
      if forallb (fun c' => (length c' =? length c)%nat) cols
      then Ok (length c, length cols, transpose (length c) cols)
      else Raise (ValueError stack_msg)
  end.

(** Number of draws in which value [i] is strictly greater than value [j]. *)
Definition count_gt (arr : list (list Q)) (i j : nat) : nat :=
  length (filter (fun r => negb (Qle_bool (cell i r) (cell j r))) arr).

(** [(arr[:, :, None] > arr[:, None, :]).mean(axis=0)] at (i, j). *)
Definition prob (num_sims : nat) (arr : list (list Q)) (i j : nat) : number :=
  match num_sims with
  | O => NaN
  | _ => Finite (inject_Z (Z.of_nat (count_gt arr i j)) / inject_Z (Z.of_nat num_sims))%Q
  end.

Definition probs (num_sims k : nat) (arr : list (list Q)) : list (list number) :=
  map (fun i => map (fun j => prob num_sims arr i j) (seq 0 k)) (seq 0 k).

(** [np.fill_diagonal(df.values, v)]; [df.values] is a view of the frame's
    single float block, so the frame itself is updated. *)
Definition fill_diagonal (v : number) (m : list (list number)) : list (list number) :=
  map (fun ir => map (fun jx => if (fst ir =? fst jx)%nat then v else snd jx)
                     (combine (seq 0 (length (snd ir))) (snd ir)))
      (combine (seq 0 (length m)) m).

Definition prob_values_different (slopes : slopes_arg) (labels : option (list label))
    (include_diagonal : bool) : result prob_frame :=
  shaped <- match slopes with
            | AsArray arr =>
                match shape arr with
                | [num_sims; k] => Ok (num_sims, k, rows_of arr)
                | _ => Raise (ValueError ndim_msg)
                end
            | AsList l => column_stack (map flat l)
            end ;;
  let '(num_sims, k, arr) := shaped in
  let labels := match labels with
                | None => map LInt (seq 0 k)
                | Some l => l
                end in
  if negb (length labels =? k)%nat then Raise (ValueError labels_msg)
  else
    let p := probs num_sims k arr in
    Ok (mk_prob_frame labels labels
          (fill_diagonal (if include_diagonal then Finite 0.5 else NaN) p)).

(** Entry (i, j) of the returned matrix. *)
Definition entry (df : prob_frame) (i j : nat) : number :=
  nth j (nth i (values df) []) NaN.

(** The draws [s < num_sims] in which value [i] is strictly greater than
    value [j], and those in which the two are equal. *)
Definition draws_gt (arr : ndarray) (i j : nat) : list nat :=
  filter (fun s => if Qlt_le_dec (at2 arr s j) (at2 arr s i) then true else false)
         (seq 0 (nth 0 (shape arr) 0%nat)).

Definition draws_tied (arr : ndarray) (i j : nat) : list nat :=
  filter (fun s => if Qeq_dec (at2 arr s i) (at2 arr s j) then true else false)
         (seq 0 (nth 0 (shape arr) 0%nat)).

(** The fraction [|l| / num_sims]. *)
Definition fraction (l : list nat) (num_sims : nat) : Q :=
  (inject_Z (Z.of_nat (length l)) / inject_Z (Z.of_nat num_sims))%Q.

(** A probability or NaN. *)
Definition in_unit_or_nan (x : number) : Prop :=
  match x with
  | NaN => True
  | Finite q => (0 <= q /\ q <= 1)%Q
  end.

End Dominance.

(* ------------------------------------------------------------------ *)
(** ** The first, shadowed definition of [determine_effect_coeff] *)

Module Superseded.
Import Propagator.

Definition HUB_DUMMY_COLS : list string :=
  ["airline_hub_bin_0"; "airline_hub_bin_1"; "airline_hub_bin_2"; "airline_hub_bin_3"].

Definition GROUP_KEYS : list string := ["OriginAirportID"; "Year"; "Month"].

(** What the loop body computes for one group before appending. *)
Definition block_of (random_sample : ndarray) (group : DataFrame) : result block :=
  s <- series group "MarketShare" ;;
  I <- frame_values group HUB_DUMMY_COLS ;;
  let S_total := sum_axis0 (length HUB_DUMMY_COLS) (map2 vscale s I) in
  hhi <- series group "HHI" ;;
  let c1 := vscale 2 (vsub s hhi) in
  let others := map (vsub S_total) (map2 vscale s I) in
  let c2 := transpose (length others) (matmul_T (rows_of random_sample) others) in
  let eff := map2 vscale c1 c2 in
  mf <- series group "MonthlyFlights" ;;
  ahs <- series group "AirportHubSize" ;;
  id <- series group "OriginAirportID" ;;
  Ok (mk_block (array2 (nth 0 (shape random_sample) 0%nat) eff)
        (array1 mf) (array1 s) (array1 ahs) (array1 id)).

Fixpoint loop (random_sample : ndarray) (groups : list DataFrame) (acc : accumulators)
  : result accumulators :=
  match groups with
  | [] => Ok acc
  | group :: rest =>
      if (len group <=? 1)%nat then loop random_sample rest acc
      else
        b <- block_of random_sample group ;;
        loop random_sample rest (push acc b)
  end.

Definition determine_effect_coeff_first (df_inputs : DataFrame) (random_sample : ndarray)
  : result output :=
  if negb (ndim random_sample =? 2)%nat || negb (nth 1 (shape random_sample) 0 =? 4)%nat
  then Raise (ValueError shape_msg)  (* the same text as the f-string at 4 columns *)
  else
    let missing :=
      missing_columns df_inputs (GROUP_KEYS ++ base_cols)
      ++ missing_columns df_inputs HUB_DUMMY_COLS in
    match missing with
    | _ :: _ => Raise (ValueError missing_msg)
    | [] =>
        groups <- groupby df_inputs GROUP_KEYS true ;;
        acc <- loop random_sample groups acc_empty ;;
        match effect_list acc with
        | [] =>
            Ok (mk_output np_array_empty np_array_empty np_array_empty
                  (np_empty_0 (nth 0 (shape random_sample) 0%nat))
                  np_array_empty)
        | _ =>
            Ok (mk_output
                  (np_concatenate (monthly_flights acc))
                  (np_concatenate (market_share acc))
                  (np_concatenate (airport_hub_size acc))
                  (np_vstack (effect_list acc))
                  (np_concatenate (group_id_first_key acc)))
        end
    end.

End Superseded.

(* ------------------------------------------------------------------ *)
(** ** Notions used to state further properties *)

(** [sum over j < n, j <> i, of f j]: a sum over the other observations of a
    market. *)
Definition sum_over_others (n i : nat) (f : nat -> Q) : Q :=
  vsum (map f (filter (fun j => negb (j =? i)%nat) (seq 0 n))).

(** Row [s] of a 2-D array, as a one-row array of the same width. *)
Definition single_draw (random_sample : ndarray) (s : nat) : ndarray :=
  mk_ndarray [1%nat; nth 1 (shape random_sample) 0%nat]
             (nth s (rows_of random_sample) []).

(** Column [s] of a matrix given by its rows, as a one-column matrix. *)
Definition column_of (s : nat) (m : list (list Q)) : list (list Q) :=
  map (fun row => [nth s row 0%Q]) m.

(** [b_s] is the block of a group under draw [s] alone when [b] is its block
    under all [S] draws. *)
Definition block_at (S s : nat) (b b_s : Propagator.block) : Prop :=
  Propagator.blk_monthly_flights b_s = Propagator.blk_monthly_flights b /\
  Propagator.blk_market_share b_s = Propagator.blk_market_share b /\
  Propagator.blk_airport_hub_size b_s = Propagator.blk_airport_hub_size b /\
  Propagator.blk_group_id b_s = Propagator.blk_group_id b /\
  exists eff,
    Propagator.blk_effect b = array2 S eff /\
    Forall (fun row => length row = S) eff /\
    Propagator.blk_effect b_s = array2 1 (column_of s eff).

(** The rows of the table that belong to the market of row [r], the key
    columns being at the positions [idx]. *)
Definition market_of (idx : list nat) (rws : list (list Q)) (r : list Q) : list (list Q) :=
  group_rows idx rws (key_of idx r).

(** The record [determine_effect_coeff_true] builds for row [r] of a table:
    the row's cells, the size of its market and its effect. *)
Definition record_of (coeff : list Q) (df : DataFrame) (r : list Q) : TrueEffect.record :=
  let cols := columns df in
  let idx := map (col_index cols) TrueEffect.market_keys in
  let market := market_of idx (rows df) r in
  let share := value_at cols "MarketShare" in
  let hub_dummy := fun x => map (fun c => value_at cols c x) TrueEffect.hub_cols in
  let S_total := sum_axis0 4 (map (fun x => vscale (share x) (hub_dummy x)) market) in
  TrueEffect.mk_record
    (value_at cols "MonthlyFlights" r) (share r)
    (value_at cols "AirportHubSize" r) (value_at cols "AirlineHubSize" r)
    (value_at cols "HHI" r) (length market) (value_at cols "OriginAirportID" r)
    (2 * (share r - value_at cols "HHI" r)
     * dot coeff (vsub S_total (vscale (share r) (hub_dummy r))))%Q.

(** The observations of the markets with more than one airline, market by
    market in order of first appearance. *)
Definition multi_airline_rows (df : DataFrame) : list (list Q) :=
  let idx := map (col_index (columns df)) TrueEffect.market_keys in
  concat (map (group_rows idx (rows df))
              (filter (fun k => negb (length (group_rows idx (rows df) k) <=? 1)%nat)
                      (unique (map (key_of idx) (rows df))))).

(** A file store for the hub-decomposed sampler: eight point estimates and
    the identity as covariance matrix. *)
Definition hub_files (path : string) : result csv_table :=
  if String.eqb path "coef.csv"
  then Ok (mk_csv None (mk_df Sampler.hub_reg_vars [[1; 2; 3; 4; 0.5; 0.5; 0.5; 0.5]]%Q))
  else if String.eqb path "cov.csv"
  then Ok (mk_csv (Some Sampler.hub_reg_vars)
             (mk_df Sampler.hub_reg_vars
                (map (fun i => map (fun j => if (i =? j)%nat then 1%Q else 0%Q) (seq 0 8))
                     (seq 0 8))))
  else Raise (KeyError path).

(* ------------------------------------------------------------------ *)
(** ** The fitted externality line per airport hub size:
       the table returned by [plot_true_externality] *)

Module Externality.

Definition hub_desc : list string :=
  ["Non-hub airports"; "Small hub airports"; "Medium hub airports"; "Large hub airports"].

Definition required : list string :=
  ["airport hub size"; "effect"; "market share"; "monthly flights"].

Definition missing_msg : string := "effect_df is missing required columns".
Definition use_weights_msg : string :=
  "use_weights must be one of: 'ms', 'flights', 'ms_x_flights'".

(** The returned DataFrame: the index and the two columns. *)
Record table : Type := mk_table {
  tb_index : list string;
  tb_intercept : list Q;
  tb_slope : list Q
}.

(** The [if use_weights == ...] chain. *)
Definition choose_weights (use_weights : string) (ms_hub flights_hub : list Q)
  : result (list Q) :=
  if String.eqb use_weights "ms" then Ok ms_hub
  else if String.eqb use_weights "flights" then Ok flights_hub
  else if String.eqb use_weights "ms_x_flights" then Ok (map2 Qmult ms_hub flights_hub)
  else Raise (ValueError use_weights_msg).

Section WithStatsmodels.

(** [WLS(y, X, weights=w).fit().params] as (intercept, slope). *)
Variable WLS_fit : list Q -> list (list Q) -> list Q -> result (Q * Q).

(** The body of [for hub in range(4)], up to the two [append]s.  The cells of
    a table are finite numbers here, so the three [np.isfinite] tests hold
    and [ok] is [w > 0].  The scatter plot drawn afterwards reads the arrays
    and does not enter the returned table; it is not modelled. *)
Definition hub_body (effect_df : DataFrame) (use_weights : string) (hub : nat)
  : result (Q * Q) :=
  hs <- series effect_df "airport hub size" ;;
  let hub_ind := Regressor.hub_ind hs hub in
  eff <- series effect_df "effect" ;;
  ms <- series effect_df "market share" ;;
  fl <- series effect_df "monthly flights" ;;
  let effect_hub := compress hub_ind eff in
  let ms_hub := compress hub_ind ms in
  let flights_hub := compress hub_ind fl in
  w <- choose_weights use_weights ms_hub flights_hub ;;
  let ok := map (fun x => negb (Qle_bool x 0)) w in
  let effect_hub := compress ok effect_hub in
  let ms_hub := compress ok ms_hub in
  let w := compress ok w in
  WLS_fit effect_hub (Regressor.design ms_hub) w.

Definition plot_true_externality (effect_df : DataFrame) (use_weights : string)
  : result table :=
  match Propagator.missing_columns effect_df required with
  | _ :: _ => Raise (ValueError missing_msg)
  | [] =>
      params <- mapM (hub_body effect_df use_weights) (seq 0 4) ;;
      Ok (mk_table hub_desc (map fst params) (map snd params))
  end.

End WithStatsmodels.

(** One of the three accepted values of [use_weights]. *)
Definition valid_weights (use_weights : string) : bool :=
  String.eqb use_weights "ms" || String.eqb use_weights "flights"
  || String.eqb use_weights "ms_x_flights".

(** The weight of one observation under an accepted [use_weights]. *)
Definition row_weight (cols : list string) (use_weights : string) (r : list Q) : Q :=
  if String.eqb use_weights "ms" then value_at cols "market share" r
  else if String.eqb use_weights "flights" then value_at cols "monthly flights" r
  else (value_at cols "market share" r * value_at cols "monthly flights" r)%Q.

Definition in_hub (cols : list string) (hub : nat) (r : list Q) : bool :=
  Qeq_bool (value_at cols "airport hub size" r) (inject_Z (Z.of_nat hub)).

Definition positive_weight (cols : list string) (use_weights : string) (r : list Q) : bool :=
  negb (Qle_bool (row_weight cols use_weights r) 0).

(** The observations of airport hub size [hub] with a positive weight, in
    table order. *)
Definition stratum_rows (cols : list string) (use_weights : string) (hub : nat)
    (rws : list (list Q)) : list (list Q) :=
  filter (positive_weight cols use_weights) (filter (in_hub cols hub) rws).

(** An observation that some regression uses: positive weight, and hub size
    0, 1, 2 or 3. *)
Definition used (cols : list string) (use_weights : string) (r : list Q) : bool :=
  positive_weight cols use_weights r && existsb (fun hub => in_hub cols hub r) (seq 0 4).

End Externality.

(** Two weight arguments that agree on the observations selected by [mask]. *)
Definition weights_agree (mask : list bool) (w w' : option ndarray) : Prop :=
  match w, w' with
  | None, None => True
  | Some a, Some b =>
      forall i, nth i mask false = true -> nth i (flat a) 0%Q = nth i (flat b) 0%Q
  | _, _ => False
  end.

(** The (num_sims, K) array whose columns are the given vectors. *)
Definition stacked (num_sims : nat) (cols : list ndarray) : ndarray :=
  array2 (length cols) (transpose num_sims (map flat cols)).

(* ================================================================== *)
(** * Properties *)

(* ------------------------------------------------------------------ *)
(** ** Keys and grouping *)

Lemma Q_eqb_eq (a b : Q) : Q_eqb a b = true <-> a = b.
Proof.
  unfold Q_eqb. rewrite andb_true_iff, Z.eqb_eq, Pos.eqb_eq.
  destruct a as [an ad], b as [bn bd]; simpl. split.
  - intros [-> ->]. reflexivity.
  - intros H. inversion H. auto.
Qed.

Lemma key_eqb_eq (a b : key) : key_eqb a b = true <-> a = b.
Proof.
  revert b. induction a as [|x a IH]; intros [|y b]; simpl;
    try (split; [discriminate | discriminate]); try tauto.
  rewrite andb_true_iff, Q_eqb_eq, IH. split.
  - intros [-> ->]. reflexivity.
  - intros H. inversion H. auto.
Qed.

Lemma key_eqb_refl (a : key) : key_eqb a a = true.
Proof. apply key_eqb_eq. reflexivity. Qed.

Lemma key_eqb_neq (a b : key) : key_eqb a b = false <-> a <> b.
Proof.
  rewrite <- key_eqb_eq. destruct (key_eqb a b); split; congruence.
Qed.

Lemma key_eqb_sym (a b : key) : key_eqb a b = key_eqb b a.
Proof.
  destruct (key_eqb a b) eqn:E.
  - apply key_eqb_eq in E. subst. symmetry. apply key_eqb_refl.
  - symmetry. apply key_eqb_neq. apply key_eqb_neq in E. congruence.
Qed.

(* ------------------------------------------------------------------ *)
(** ** The error monad *)

Lemma bind_Ok_inv {A B : Type} (c : result A) (k : A -> result B) (b : B) :
  (x <- c ;; k x) = Ok b -> exists a, c = Ok a /\ k a = Ok b.
Proof. destruct c as [a|e]; simpl; [eauto | discriminate]. Qed.

Lemma bind_Raise_inv {A B : Type} (c : result A) (k : A -> result B) (e : exception) :
  (x <- c ;; k x) = Raise e -> c = Raise e \/ exists a, c = Ok a /\ k a = Raise e.
Proof. destruct c as [a|e']; simpl; [eauto | intros [= ->]; auto]. Qed.

Lemma mapM_Raise_inv {A B : Type} (f : A -> result B) (l : list A) (e : exception) :
  mapM f l = Raise e -> exists a, In a l /\ f a = Raise e.
Proof.
  induction l as [|a l IH]; simpl; [discriminate|].
  destruct (f a) as [b|e'] eqn:Ea; simpl.
  - destruct (mapM f l) as [bs|e'']; simpl; [discriminate|].
    intros [= ->]. destruct IH as [a' [Hin Ha']]; eauto.
  - intros [= ->]. eauto.
Qed.

Lemma mapM_Ok_length {A B : Type} (f : A -> result B) (l : list A) (bs : list B) :
  mapM f l = Ok bs -> length bs = length l.
Proof.
  revert bs. induction l as [|a l IH]; simpl; intros bs.
  - intros [= <-]. reflexivity.
  - destruct (f a) as [b|e]; simpl; [|discriminate].
    destruct (mapM f l) as [bs'|e]; simpl; [|discriminate].
    intros [= <-]. simpl. f_equal. apply IH. reflexivity.
Qed.

Lemma mapM_total {A B : Type} (f : A -> result B) (l : list A) :
  (forall a, In a l -> returns (f a)) -> returns (mapM f l).
Proof.
  induction l as [|a l IH]; simpl; intros H.
  - eexists. reflexivity.
  - destruct (H a (or_introl eq_refl)) as [b ->]. simpl.
    destruct IH as [bs ->]; [intros; apply H; auto|]. simpl. eexists. reflexivity.
Qed.

Lemma filter_map_groups {A B : Type} (mk : A -> B) (p : B -> bool) (l : list A) :
  filter p (map mk l) = map mk (filter (fun a => p (mk a)) l).
Proof.
  induction l as [|a l IH]; simpl; [reflexivity|].
  destruct (p (mk a)); simpl; rewrite IH; reflexivity.
Qed.

Lemma loc_raises cols c e : loc cols c = Raise e -> is_KeyError e.
Proof. unfold loc. destruct (index_of c cols); [discriminate|]. intros [= <-]. eexists; eauto. Qed.

Lemma series_raises df c e : series df c = Raise e -> is_KeyError e.
Proof.
  unfold series. intros H. apply bind_Raise_inv in H as [H|[i [_ H]]].
  - eapply loc_raises; eauto.
  - discriminate.
Qed.

Lemma frame_values_raises df cs e : frame_values df cs = Raise e -> is_KeyError e.
Proof.
  unfold frame_values. intros H. apply bind_Raise_inv in H as [H|[i [_ H]]].
  - apply mapM_Raise_inv in H as [c [_ H]]. eapply loc_raises; eauto.
  - discriminate.
Qed.

(* ------------------------------------------------------------------ *)
(** ** Rows of a 2-D array *)

Lemma nth_firstn {A : Type} (l : list A) (k i : nat) (d : A) :
  (i < k)%nat -> nth i (firstn k l) d = nth i l d.
Proof.
  revert l i. induction k as [|k IH]; intros l i Hi; [lia|].
  destruct l as [|a l]; [destruct i; reflexivity|].
  destruct i as [|i]; simpl; [reflexivity|]. apply IH. lia.
Qed.

Lemma nth_skipn {A : Type} (l : list A) (m i : nat) (d : A) :
  nth i (skipn m l) d = nth (m + i) l d.
Proof.
  revert l. induction m as [|m IH]; intros l; [reflexivity|].
  destruct l as [|a l]; simpl; [destruct i; reflexivity|]. apply IH.
Qed.

Lemma chunks_length k n l : length (chunks k n l) = n.
Proof. revert l. induction n as [|n IH]; intros l; simpl; [reflexivity|]. rewrite IH. reflexivity. Qed.

Lemma nth_chunks k n l s :
  (s < n)%nat -> nth s (chunks k n l) [] = firstn k (skipn (s * k) l).
Proof.
  revert l s. induction n as [|n IH]; intros l s Hs; [lia|].
  destruct s as [|s]; simpl; [reflexivity|].
  rewrite IH by lia. rewrite skipn_skipn. f_equal. f_equal. lia.
Qed.

Lemma cell_rows_of arr n k s i :
  shape arr = [n; k] -> (s < n)%nat -> (i < k)%nat ->
  cell i (nth s (rows_of arr) []) = at2 arr s i.
Proof.
  intros Hsh Hs Hi. unfold rows_of, at2, cell. rewrite Hsh. cbn [nth].
  rewrite nth_chunks by exact Hs. rewrite nth_firstn by exact Hi.
  apply nth_skipn.
Qed.

Lemma nth_map_in {A B : Type} (f : A -> B) (l : list A) (i : nat) (d : A) (e : B) :
  (i < length l)%nat -> nth i (map f l) e = f (nth i l d).
Proof.
  intros Hi. rewrite (nth_indep _ e (f d)) by (rewrite length_map; exact Hi).
  apply map_nth.
Qed.

Lemma filter_length_nth {A : Type} (f : A -> bool) (l : list A) (d : A) :
  length (filter f l) = length (filter (fun s => f (nth s l d)) (seq 0 (length l))).
Proof.
  induction l as [|a l IH]; [reflexivity|].
  cbn [length seq]. rewrite <- seq_shift. cbn [filter nth].
  destruct (f a); cbn [length]; rewrite filter_map_groups, length_map; cbn [nth];
    rewrite IH; reflexivity.
Qed.

(* ------------------------------------------------------------------ *)
(** ** The effect propagator *)

Module PropagatorFacts.
Import Propagator.

Ltac Qlists :=
  repeat first [ apply Forall2_nil | apply Forall2_cons ];
  try (vm_compute; reflexivity).

(** C1. Worked example of the spec: shares 0.6 and 0.4, both airlines in hub
    bin 2, HHI 0.52, one draw [0, 0, 5.0, 0].  The first observation has
    others = [0, 0, 0.4, 0], comp1 = 0.16, comp2 = 2.0 and effect 0.32; the
    second has others[2] = 0.6, comp1 = -0.24, comp2 = 3.0 and effect -0.72;
    the call returns the 2 x 1 effect matrix [[0.32], [-0.72]], rows in the
    order of the two observations. *)
Theorem C1_worked_example (id year month mf1 mf2 ahs1 ahs2 : Q) :
  let s := [0.6; 0.4]%Q in
  let I := [[0; 0; 1; 0]; [0; 0; 1; 0]]%Q in
  let hhi := [0.52; 0.52]%Q in
  let draws := mk_ndarray [1; 4]%nat [0; 0; 5.0; 0]%Q in
  let others := others_by_bin 4 s I in
  Qmat_eq others [[0; 0; 0.4; 0]; [0; 0; 0.6; 0]]%Q /\
  Qlist_eq (comp_1 s hhi) [0.16; -0.24]%Q /\
  Qmat_eq (comp_2 (rows_of draws) others) [[2.0]; [3.0]]%Q /\
  Qmat_eq (effect_mat (comp_1 s hhi) (comp_2 (rows_of draws) others)) [[0.32]; [-0.72]]%Q /\
  exists out,
    determine_effect_coeff (two_airline_market id year month mf1 mf2 ahs1 ahs2)
      draws default_group_keys default_hub_dummy_cols = Ok out /\
    shape (out_effect out) = [2; 1]%nat /\
    Qlist_eq (flat (out_effect out)) [0.32; -0.72]%Q /\
    out_market_share out = mk_ndarray [2%nat] [0.6; 0.4]%Q /\
    out_monthly_flights out = mk_ndarray [2%nat] [mf1; mf2] /\
    out_airport_hub_size out = mk_ndarray [2%nat] [ahs1; ahs2] /\
    out_group_id out = mk_ndarray [2%nat] [id; id].
Proof.
  intros s I hhi draws others.
  split; [unfold Qmat_eq, Qlist_eq; Qlists|].
  split; [unfold Qlist_eq; Qlists|].
  split; [unfold Qmat_eq, Qlist_eq; Qlists|].
  split; [unfold Qmat_eq, Qlist_eq; Qlists|].
  unfold determine_effect_coeff, two_airline_market, draws.
  cbn -[Qred Qplus Qmult Qminus key_eqb key_leb].
  repeat (rewrite !key_eqb_refl; cbn -[Qred Qplus Qmult Qminus key_eqb key_leb]).
  eexists. split; [reflexivity|].
  cbn -[Qplus Qmult Qminus].
  repeat split. unfold Qlist_eq. Qlists.
Qed.

(** *** The loop, read as a map over the kept groups *)

Lemma loop_blocks rs gk hc groups acc :
  loop rs gk hc groups acc =
  (bs <- mapM (block_of rs gk hc) (filter kept groups) ;; Ok (fold_left push bs acc)).
Proof.
  revert acc. induction groups as [|g groups IH]; intros acc; simpl.
  - reflexivity.
  - unfold kept at 1. destruct (len g <=? 1)%nat; simpl.
    + apply IH.
    + unfold loop_body. destruct (block_of rs gk hc g) as [b|e]; simpl; [|reflexivity].
      rewrite IH. destruct (mapM (block_of rs gk hc) (filter kept groups)); reflexivity.
Qed.

Lemma fold_push_fields bs acc :
  effect_list (fold_left push bs acc) = effect_list acc ++ map blk_effect bs /\
  monthly_flights (fold_left push bs acc) = monthly_flights acc ++ map blk_monthly_flights bs /\
  market_share (fold_left push bs acc) = market_share acc ++ map blk_market_share bs /\
  airport_hub_size (fold_left push bs acc) = airport_hub_size acc ++ map blk_airport_hub_size bs /\
  group_id_first_key (fold_left push bs acc) = group_id_first_key acc ++ map blk_group_id bs.
Proof.
  revert acc. induction bs as [|b bs IH]; intros acc; simpl.
  - rewrite !app_nil_r. repeat split.
  - destruct (IH (push acc b)) as (H1 & H2 & H3 & H4 & H5).
    rewrite H1, H2, H3, H4, H5. simpl. rewrite <- !app_assoc. repeat split.
Qed.

Lemma block_of_raises rs gk hc g e : block_of rs gk hc g = Raise e -> is_KeyError e.
Proof.
  unfold block_of. intros H.
  repeat match type of H with
  | bind _ _ = Raise _ =>
      apply bind_Raise_inv in H as [H|[? [_ H]]];
      [first [eapply series_raises; eassumption | eapply frame_values_raises; eassumption]|]
  end.
  discriminate.
Qed.

Lemma loop_raises rs gk hc groups acc e :
  loop rs gk hc groups acc = Raise e -> is_KeyError e.
Proof.
  rewrite loop_blocks. intros H. apply bind_Raise_inv in H as [H|[? [_ H]]]; [|discriminate].
  apply mapM_Raise_inv in H as [g [_ H]]. eapply block_of_raises; eauto.
Qed.

Lemma groupby_raises df keys sort e :
  groupby df keys sort = Raise e ->
  e = ValueError "No group keys passed!" \/ is_KeyError e.
Proof.
  unfold groupby. destruct keys as [|k keys].
  - intros [= <-]. auto.
  - intros H. apply bind_Raise_inv in H as [H|[? [_ H]]]; [|discriminate].
    apply mapM_Raise_inv in H as [c [_ H]]. right. eapply loc_raises; eauto.
Qed.

(** The shape guard, as a boolean. *)
Lemma shape_guard rs (hc : list string) :
  negb (ndim rs =? 2)%nat || negb (nth 1 (shape rs) 0 =? length hc)%nat = true <->
  (ndim rs <> 2%nat \/ nth 1 (shape rs) 0%nat <> length hc).
Proof.
  rewrite orb_true_iff, !negb_true_iff, !Nat.eqb_neq. tauto.
Qed.

(** C7. The call raises the shape-mismatch error exactly when the draw
    matrix is not 2-dimensional or its column count differs from the number
    of hub-dummy columns; the guard is the first statement, so no table is
    looked at and nothing is produced before it, and with a conforming
    (num_sims, len(hub_dummy_cols)) matrix that error is never raised. *)
Theorem C7_shape_mismatch (df : DataFrame) (rs : ndarray) (gk hc : list string) :
  determine_effect_coeff df rs gk hc = Raise (ValueError shape_msg) <->
  (ndim rs <> 2%nat \/ nth 1 (shape rs) 0%nat <> length hc).
Proof.
  rewrite <- shape_guard. unfold determine_effect_coeff.
  destruct (negb (ndim rs =? 2)%nat || negb (nth 1 (shape rs) 0 =? length hc)%nat).
  - tauto.
  - split; [|discriminate]. intros H. exfalso.
    destruct (missing_columns df (required_columns gk hc)); [|discriminate].
    apply bind_Raise_inv in H as [H|[groups [_ H]]].
    + apply groupby_raises in H as [H|[k H]]; discriminate.
    + apply bind_Raise_inv in H as [H|[acc [_ H]]].
      * apply loop_raises in H as [k H]. discriminate.
      * destruct (effect_list acc); discriminate.
Qed.

(** *** What [groupby] yields *)

Lemma groupby_Ok_inv df keys sort groups :
  groupby df keys sort = Ok groups ->
  exists idx,
    mapM (loc (columns df)) keys = Ok idx /\
    groups = map (fun k => mk_df (columns df) (group_rows idx (rows df) k))
                 (group_order sort (map (key_of idx) (rows df))).
Proof.
  unfold groupby. destruct keys as [|k keys]; [discriminate|].
  intros H. apply bind_Ok_inv in H as [idx [Hidx H]].
  injection H as <-. eauto.
Qed.

Lemma in_group_rows idx rs k r :
  In r (group_rows idx rs k) <-> In r rs /\ key_of idx r = k.
Proof.
  unfold group_rows. rewrite filter_In, key_eqb_eq. intuition congruence.
Qed.

Lemma groupby_group df keys sort groups idx g :
  groupby df keys sort = Ok groups ->
  mapM (loc (columns df)) keys = Ok idx ->
  In g groups ->
  columns g = columns df /\
  exists k, rows g = group_rows idx (rows df) k.
Proof.
  intros H Hidx Hg. apply groupby_Ok_inv in H as [idx' [Hidx' ->]].
  rewrite Hidx in Hidx'. injection Hidx' as <-.
  apply in_map_iff in Hg as [k [<- _]]. simpl. eauto.
Qed.

(** *** Columns of a table assembled from groups *)

Lemma series_rows cols rws c :
  series (mk_df cols rws) c = (i <- loc cols c ;; Ok (map (cell i) rws)).
Proof. reflexivity. Qed.

Lemma series_concat cols c (gs : list DataFrame) (vs : list (list Q)) :
  returns (loc cols c) ->
  Forall (fun g => columns g = cols) gs ->
  mapM (fun g => series g c) gs = Ok vs ->
  series (mk_df cols (concat (map rows gs))) c = Ok (concat vs).
Proof.
  intros [i Hi] Hcols. revert vs. induction Hcols as [|g gs Hg _ IH]; intros vs; simpl.
  - intros [= <-]. rewrite series_rows, Hi. reflexivity.
  - intros H. apply bind_Ok_inv in H as [v [Hv H]].
    apply bind_Ok_inv in H as [vs' [Hvs H]]. injection H as <-.
    specialize (IH _ Hvs). rewrite series_rows, Hi in IH |- *. simpl in IH |- *.
    injection IH as IH. unfold series in Hv. rewrite Hg, Hi in Hv. simpl in Hv.
    injection Hv as <-. rewrite map_app, IH. reflexivity.
Qed.

Lemma mapM_map {A B C : Type} (f : A -> result B) (h : B -> C) (l : list A) (bs : list B) :
  mapM f l = Ok bs ->
  mapM (fun a => b <- f a ;; Ok (h b)) l = Ok (map h bs).
Proof.
  revert bs. induction l as [|a l IH]; simpl; intros bs.
  - intros [= <-]. reflexivity.
  - intros H. apply bind_Ok_inv in H as [b [Hb H]].
    apply bind_Ok_inv in H as [bs' [Hbs H]]. injection H as <-.
    rewrite Hb. simpl. rewrite (IH _ Hbs). reflexivity.
Qed.

Lemma mapM_ext_in {A B : Type} (f g : A -> result B) (l : list A) :
  (forall a, In a l -> f a = g a) -> mapM f l = mapM g l.
Proof.
  induction l as [|a l IH]; simpl; intros H; [reflexivity|].
  rewrite (H a (or_introl eq_refl)), IH; [reflexivity|]. intros; apply H; auto.
Qed.

(** What a block holds, read back from the group. *)
Lemma block_of_Ok rs gk hc g b :
  block_of rs gk hc g = Ok b ->
  exists eff,
    group_effect rs hc g = Ok eff /\
    blk_effect b = array2 (nth 0 (shape rs) 0%nat) eff /\
    (mf <- series g "MonthlyFlights" ;; Ok (array1 mf)) = Ok (blk_monthly_flights b) /\
    (s <- series g "MarketShare" ;; Ok (array1 s)) = Ok (blk_market_share b) /\
    (a <- series g "AirportHubSize" ;; Ok (array1 a)) = Ok (blk_airport_hub_size b) /\
    (i <- series g (hd "" gk) ;; Ok (array1 i)) = Ok (blk_group_id b).
Proof.
  unfold block_of, group_effect. intros H.
  apply bind_Ok_inv in H as [s [Hs H]].
  apply bind_Ok_inv in H as [I [HI H]].
  apply bind_Ok_inv in H as [hhi [Hhhi H]].
  apply bind_Ok_inv in H as [mf [Hmf H]].
  apply bind_Ok_inv in H as [ahs [Hahs H]].
  apply bind_Ok_inv in H as [gid [Hgid H]].
  injection H as <-. rewrite Hs, HI, Hhhi, Hmf, Hahs, Hgid. simpl.
  eexists. repeat split.
Qed.

(** *** The value returned, in terms of the blocks *)

Lemma determine_effect_coeff_Ok_inv df rs gk hc out :
  determine_effect_coeff df rs gk hc = Ok out ->
  ndim rs = 2%nat /\ nth 1 (shape rs) 0%nat = length hc /\
  missing_columns df (required_columns gk hc) = [] /\
  exists groups bs,
    groupby df gk true = Ok groups /\
    mapM (block_of rs gk hc) (filter kept groups) = Ok bs /\
    out = assemble rs bs.
Proof.
  unfold determine_effect_coeff.
  destruct (negb (ndim rs =? 2)%nat || negb (nth 1 (shape rs) 0 =? length hc)%nat) eqn:G;
    [discriminate|].
  apply orb_false_iff in G as [G1 G2].
  apply negb_false_iff, Nat.eqb_eq in G1. apply negb_false_iff, Nat.eqb_eq in G2.
  destruct (missing_columns df (required_columns gk hc)) eqn:M; [|discriminate].
  intros H. apply bind_Ok_inv in H as [groups [Hg H]].
  apply bind_Ok_inv in H as [acc [Hacc H]].
  rewrite loop_blocks in Hacc. apply bind_Ok_inv in Hacc as [bs [Hbs Hacc]].
  injection Hacc as <-.
  destruct (fold_push_fields bs acc_empty) as (E1 & E2 & E3 & E4 & E5).
  simpl in E1, E2, E3, E4, E5. rewrite E1, E2, E3, E4, E5 in H.
  repeat split; auto. exists groups, bs. repeat split; auto.
  destruct bs; simpl in H |- *; congruence.
Qed.

Lemma determine_effect_coeff_Ok_intro df rs gk hc groups bs :
  ndim rs = 2%nat -> nth 1 (shape rs) 0%nat = length hc ->
  missing_columns df (required_columns gk hc) = [] ->
  groupby df gk true = Ok groups ->
  mapM (block_of rs gk hc) (filter kept groups) = Ok bs ->
  determine_effect_coeff df rs gk hc = Ok (assemble rs bs).
Proof.
  intros Hdim Hcols Hmiss Hg Hbs. unfold determine_effect_coeff.
  rewrite Hdim, Hcols, !Nat.eqb_refl, Hmiss, Hg. simpl.
  rewrite loop_blocks, Hbs. simpl.
  destruct (fold_push_fields bs acc_empty) as (E1 & E2 & E3 & E4 & E5).
  simpl in E1, E2, E3, E4, E5. rewrite E1, E2, E3, E4, E5.
  destruct bs; reflexivity.
Qed.

Lemma mapM_project {A B C : Type} (f : A -> result B) (g : A -> result C)
    (P : B -> C -> Prop) (l : list A) (bs : list B) :
  (forall a b, In a l -> f a = Ok b -> exists c, g a = Ok c /\ P b c) ->
  mapM f l = Ok bs ->
  exists cs, mapM g l = Ok cs /\ Forall2 P bs cs.
Proof.
  revert bs. induction l as [|a l IH]; simpl; intros bs HP.
  - intros [= <-]. exists []. split; [reflexivity | constructor].
  - intros H. apply bind_Ok_inv in H as [b [Hb H]].
    apply bind_Ok_inv in H as [bs' [Hbs H]]. injection H as <-.
    destruct (HP a b (or_introl eq_refl) Hb) as [c [Hc HPc]].
    destruct (IH bs') as [cs [Hcs HF]]; [intros; eapply HP; eauto | exact Hbs |].
    exists (c :: cs). rewrite Hc. simpl. rewrite Hcs. simpl. split; [reflexivity|].
    constructor; assumption.
Qed.

Lemma Forall2_map_eq {B C D : Type} (p : B -> D) (h : C -> D) (bs : list B) (cs : list C) :
  Forall2 (fun b c => p b = h c) bs cs -> map p bs = map h cs.
Proof. induction 1; simpl; congruence. Qed.

(** *** Lengths *)

Lemma map2_length {A B C : Type} (f : A -> B -> C) l m :
  length (map2 f l m) = Nat.min (length l) (length m).
Proof.
  revert m. induction l as [|a l IH]; intros [|b m]; simpl; auto.
Qed.

Lemma map2_map_same {A B C D : Type} (f : B -> C -> D) (g : A -> B) (h : A -> C) l :
  map2 f (map g l) (map h l) = map (fun x => f (g x) (h x)) l.
Proof. induction l; simpl; congruence. Qed.

Lemma map_const_repeat {A B : Type} (b : B) (l : list A) :
  map (fun _ => b) l = repeat b (length l).
Proof. induction l; simpl; congruence. Qed.

(** [(a @ b.T).T]: row i holds the products of row i of [b] with the rows
    of [a]. *)
Lemma transpose_matmul_T (a b : list (list Q)) :
  transpose (length b) (matmul_T a b) =
  map (fun b_i => map (fun a_s => dot a_s b_i) a) b.
Proof.
  induction a as [|r a IH]; simpl.
  - symmetry. apply map_const_repeat.
  - rewrite IH. apply map2_map_same.
Qed.

Lemma series_length df c v : series df c = Ok v -> length v = len df.
Proof.
  unfold series. intros H. apply bind_Ok_inv in H as [i [_ H]].
  injection H as <-. apply length_map.
Qed.

Lemma frame_values_length df cs v : frame_values df cs = Ok v -> length v = len df.
Proof.
  unfold frame_values. intros H. apply bind_Ok_inv in H as [i [_ H]].
  injection H as <-. apply length_map.
Qed.

Lemma group_effect_length rs hc g eff :
  group_effect rs hc g = Ok eff -> length eff = len g.
Proof.
  unfold group_effect. intros H.
  apply bind_Ok_inv in H as [s [Hs H]].
  apply bind_Ok_inv in H as [I [HI H]].
  apply bind_Ok_inv in H as [hhi [Hhhi H]].
  injection H as <-.
  apply series_length in Hs, Hhhi. apply frame_values_length in HI.
  unfold effect_mat, comp_1, comp_2, vscale, vsub.
  rewrite transpose_matmul_T, map2_length, !length_map, map2_length.
  unfold others_by_bin. rewrite !length_map, map2_length. lia.
Qed.

(** *** Only markets with two or more airlines reach the output *)

Lemma has_column_loc df c : has_column df c = true -> returns (loc (columns df) c).
Proof.
  unfold has_column, loc. destruct (index_of c (columns df)); [|discriminate].
  intros _. eexists. reflexivity.
Qed.

Lemma missing_nil df req c :
  missing_columns df req = [] -> In c req -> returns (loc (columns df) c).
Proof.
  unfold missing_columns. intros H Hc. apply has_column_loc.
  destruct (has_column df c) eqn:E; [reflexivity|]. exfalso.
  assert (Hin : In c (filter (fun c => negb (has_column df c)) req)).
  { apply filter_In. rewrite E. auto. }
  rewrite H in Hin. exact Hin.
Qed.

Lemma concat_map_length {A : Type} (ls : list (list A)) :
  length (concat ls) = list_sum (map (@length A) ls).
Proof. induction ls as [|l ls IH]; simpl; [reflexivity|]. rewrite length_app, IH. reflexivity. Qed.

Lemma flat_concatenate vs :
  np_concatenate (map array1 vs) = mk_ndarray [length (concat vs)] (concat vs).
Proof.
  unfold np_concatenate. rewrite map_map. simpl. rewrite map_id. reflexivity.
Qed.

Lemma vstack_blocks n eff effs :
  np_vstack (map (array2 n) (eff :: effs)) =
  mk_ndarray [list_sum (map (@length (list Q)) (eff :: effs)); n]
             (concat (map (@concat Q) (eff :: effs))).
Proof.
  unfold np_vstack. rewrite !map_map. reflexivity.
Qed.

Lemma kept_len g : kept g = true <-> (2 <= len g)%nat.
Proof.
  unfold kept. rewrite negb_true_iff, Nat.leb_gt. lia.
Qed.

Lemma block_of_effect rs gk hc g b :
  block_of rs gk hc g = Ok b ->
  exists eff,
    group_effect rs hc g = Ok eff /\
    (blk_effect b = array2 (nth 0 (shape rs) 0%nat) eff /\
     length eff = length (flat (blk_market_share b))).
Proof.
  intros Hb. apply block_of_Ok in Hb as (eff & E & E' & _ & E'' & _).
  apply bind_Ok_inv in E'' as [v [Hv E'']]. injection E'' as E''.
  exists eff. rewrite <- E''. simpl.
  rewrite (group_effect_length _ _ _ _ E), (series_length _ _ _ Hv). auto.
Qed.

(** The effect matrix returned, in terms of the per-group effect rows. *)
Lemma output_effect rs gk hc gs bs :
  mapM (block_of rs gk hc) gs = Ok bs ->
  exists effs,
    mapM (group_effect rs hc) gs = Ok effs /\
    flat (out_effect (assemble rs bs)) = concat (map (@concat Q) effs) /\
    shape (out_effect (assemble rs bs)) =
      [list_sum (map (@length (list Q)) effs); nth 0 (shape rs) 0%nat].
Proof.
  intros Hbs.
  destruct (mapM_project _ (group_effect rs hc)
              (fun b eff => blk_effect b = array2 (nth 0 (shape rs) 0%nat) eff
                            /\ length eff = length (flat (blk_market_share b))) _ _
              ltac:(intros g b _ Hb; exact (block_of_effect rs gk hc g b Hb)) Hbs)
    as [effs [Heffs Feff]].
  exists effs. split; [exact Heffs|].
  assert (E : map blk_effect bs = map (array2 (nth 0 (shape rs) 0%nat)) effs).
  { apply Forall2_map_eq. eapply Forall2_impl; [|exact Feff]. simpl. tauto. }
  destruct bs as [|b bs].
  - destruct effs; [|discriminate]. split; reflexivity.
  - destruct effs as [|eff effs]; [discriminate|].
    unfold assemble. cbn [out_effect]. rewrite E, vstack_blocks. split; reflexivity.
Qed.

(** C2. A market with at most one observation contributes nothing: the
    observations the output is built from are those of the markets with two
    or more observations, in group order; every returned array has one row
    per such observation and is the corresponding column (or effect rows) of
    exactly these observations. *)
Theorem C2_single_observation_markets_skipped
    (df : DataFrame) (rs : ndarray) (gk hc : list string) (out : output) :
  determine_effect_coeff df rs gk hc = Ok out ->
  exists idx groups effs,
    mapM (loc (columns df)) gk = Ok idx /\
    groupby df gk true = Ok groups /\
    let emitted := concat (map rows (filter kept groups)) in
    (forall r, In r emitted ->
       (2 <= length (group_rows idx (rows df) (key_of idx r)))%nat) /\
    (forall g r, In g groups -> (len g <= 1)%nat -> In r (rows g) -> ~ In r emitted) /\
    series (mk_df (columns df) emitted) "MonthlyFlights" = Ok (flat (out_monthly_flights out)) /\
    series (mk_df (columns df) emitted) "MarketShare" = Ok (flat (out_market_share out)) /\
    series (mk_df (columns df) emitted) "AirportHubSize" = Ok (flat (out_airport_hub_size out)) /\
    series (mk_df (columns df) emitted) (hd "" gk) = Ok (flat (out_group_id out)) /\
    mapM (group_effect rs hc) (filter kept groups) = Ok effs /\
    flat (out_effect out) = concat (map (@concat Q) effs) /\
    shape (out_effect out) = [length emitted; nth 0 (shape rs) 0%nat] /\
    shape (out_monthly_flights out) = [length emitted] /\
    shape (out_market_share out) = [length emitted] /\
    shape (out_airport_hub_size out) = [length emitted] /\
    shape (out_group_id out) = [length emitted].
Proof.
  intros H.
  apply determine_effect_coeff_Ok_inv in H as (Hdim & Hcols & Hmiss & groups & bs & Hg & Hbs & ->).
  destruct (groupby_Ok_inv _ _ _ _ Hg) as [idx [Hidx Hgroups]].
  assert (Hgrp : forall g, In g groups ->
            columns g = columns df /\ exists k, rows g = group_rows idx (rows df) k).
  { intros g Hin. eapply groupby_group; eauto. }
  assert (Hkey : forall g r, In g groups -> In r (rows g) ->
            group_rows idx (rows df) (key_of idx r) = rows g).
  { intros g r Hin Hr. destruct (Hgrp g Hin) as [_ [k Hk]]. rewrite Hk in Hr |- *.
    apply in_group_rows in Hr as [_ ->]. reflexivity. }
  assert (Hemit : forall r, In r (concat (map rows (filter kept groups))) ->
            (2 <= length (group_rows idx (rows df) (key_of idx r)))%nat).
  { intros r Hr. apply in_concat in Hr as [rws [Hrws Hr]].
    apply in_map_iff in Hrws as [g [<- Hgin]]. apply filter_In in Hgin as [Hgin Hk].
    rewrite (Hkey g r Hgin Hr). apply kept_len. exact Hk. }
  assert (Hcolsk : Forall (fun g => columns g = columns df) (filter kept groups)).
  { apply Forall_forall. intros g Hin. apply filter_In in Hin as [Hin _].
    apply (Hgrp g Hin). }
  assert (Hreq : forall c, In c (required_columns gk hc) -> returns (loc (columns df) c)).
  { intros c. apply missing_nil. exact Hmiss. }
  assert (Hgk : In (hd "" gk) (required_columns gk hc)).
  { unfold required_columns. destruct gk as [|k gk]; [discriminate Hg|]. simpl. auto. }
  (* the four parallel arrays and the effect blocks, group by group *)
  destruct (mapM_project _ (fun g => series g "MonthlyFlights")
              (fun b v => blk_monthly_flights b = array1 v) _ _
              ltac:(intros g b _ Hb; apply block_of_Ok in Hb as (eff & _ & _ & E & _);
                    apply bind_Ok_inv in E as [v [Hv E]]; injection E as E; eauto) Hbs)
    as [mfs [Hmfs Fmf]].
  destruct (mapM_project _ (fun g => series g "MarketShare")
              (fun b v => blk_market_share b = array1 v) _ _
              ltac:(intros g b _ Hb; apply block_of_Ok in Hb as (eff & _ & _ & _ & E & _);
                    apply bind_Ok_inv in E as [v [Hv E]]; injection E as E; eauto) Hbs)
    as [mss [Hmss Fms]].
  destruct (mapM_project _ (fun g => series g "AirportHubSize")
              (fun b v => blk_airport_hub_size b = array1 v) _ _
              ltac:(intros g b _ Hb; apply block_of_Ok in Hb as (eff & _ & _ & _ & _ & E & _);
                    apply bind_Ok_inv in E as [v [Hv E]]; injection E as E; eauto) Hbs)
    as [ahss [Hahss Fahs]].
  destruct (mapM_project _ (fun g => series g (hd "" gk))
              (fun b v => blk_group_id b = array1 v) _ _
              ltac:(intros g b _ Hb; apply block_of_Ok in Hb as (eff & _ & _ & _ & _ & _ & E);
                    apply bind_Ok_inv in E as [v [Hv E]]; injection E as E; eauto) Hbs)
    as [gids [Hgids Fgid]].
  destruct (mapM_project _ (group_effect rs hc)
              (fun b eff => blk_effect b = array2 (nth 0 (shape rs) 0%nat) eff
                            /\ length eff = length (flat (blk_market_share b))) _ _
              ltac:(intros g b _ Hb; exact (block_of_effect rs gk hc g b Hb)) Hbs)
    as [effs [Heffs Feff]].
  apply Forall2_map_eq in Fmf, Fms, Fahs, Fgid.
  assert (Feff1 : map blk_effect bs = map (array2 (nth 0 (shape rs) 0%nat)) effs).
  { apply Forall2_map_eq. eapply Forall2_impl; [|exact Feff]. simpl. tauto. }
  assert (Hlen : map (@length (list Q)) effs = map (@length Q) mss).
  { clear - Feff Fms. revert mss Fms. induction Feff as [|b eff bs effs [_ Hb] _ IH];
      intros [|v mss]; simpl; try discriminate; [reflexivity|].
    intros [= E1 E2]. rewrite Hb, E1. simpl. f_equal. apply IH. exact E2. }
  pose proof (series_concat _ _ _ _ (Hreq "MonthlyFlights" ltac:(unfold required_columns;
      apply in_or_app; right; simpl; auto)) Hcolsk Hmfs) as Smf.
  pose proof (series_concat _ _ _ _ (Hreq "MarketShare" ltac:(unfold required_columns;
      apply in_or_app; right; simpl; auto)) Hcolsk Hmss) as Sms.
  pose proof (series_concat _ _ _ _ (Hreq "AirportHubSize" ltac:(unfold required_columns;
      apply in_or_app; right; simpl; auto)) Hcolsk Hahss) as Sahs.
  pose proof (series_concat _ _ _ _ (Hreq _ Hgk) Hcolsk Hgids) as Sgid.
  pose proof (series_length _ _ _ Smf) as Lmf.
  pose proof (series_length _ _ _ Sms) as Lms.
  pose proof (series_length _ _ _ Sahs) as Lahs.
  pose proof (series_length _ _ _ Sgid) as Lgid.
  unfold len in Lmf, Lms, Lahs, Lgid. simpl in Lmf, Lms, Lahs, Lgid.
  exists idx, groups, effs. split; [exact Hidx|]. split; [exact Hg|]. cbv zeta.
  split; [exact Hemit|].
  split.
  { intros g r Hin Hsmall Hr Hemitted. apply Hemit in Hemitted.
    rewrite (Hkey g r Hin Hr) in Hemitted. unfold len in Hsmall. lia. }
  rewrite Smf, Sms, Sahs, Sgid, Heffs.
  destruct bs as [|b bs].
  - destruct mfs; [|discriminate]. destruct mss; [|discriminate].
    destruct ahss; [|discriminate]. destruct gids; [|discriminate].
    destruct effs; [|discriminate]. simpl in Lms. rewrite <- Lms. simpl. repeat split.
  - unfold assemble.
    rewrite Fmf, Fms, Fahs, Fgid, Feff1, !flat_concatenate.
    destruct effs as [|eff effs]; [discriminate|].
    rewrite vstack_blocks, Hlen, <- concat_map_length. simpl flat. simpl shape.
    rewrite Lmf, Lms, Lahs, Lgid. repeat split.
Qed.

(** A table with one three-airline market and one single-airline market. *)
Lemma C2_single_observation_markets_skipped_witness :
  exists out,
    determine_effect_coeff mixed_table two_draws
      default_group_keys default_hub_dummy_cols = Ok out /\
    shape (out_effect out) = [3; 2]%nat /\
    flat (out_market_share out) = [0.5; 0.3; 0.2]%Q.
Proof.
  assert (H : returns (determine_effect_coeff mixed_table two_draws
                         default_group_keys default_hub_dummy_cols)).
  { eexists. vm_compute. reflexivity. }
  destruct H as [out H]. exists out. split; [exact H|].
  destruct (C2_single_observation_markets_skipped _ _ _ _ _ H)
    as (idx & groups & effs & _ & Hg & _ & _ & _ & Hms & _ & _ & _ & _ & Hsh & _).
  vm_compute in Hg. injection Hg as <-.
  split.
  - rewrite Hsh. reflexivity.
  - vm_compute in Hms. injection Hms as Hms. symmetry. exact Hms.
Defined.

(** *** Tables in which no market has two airlines *)

Lemma filter_kept_small groups :
  Forall (fun g => (len g <= 1)%nat) groups -> filter kept groups = [].
Proof.
  induction 1 as [|g groups Hg _ IH]; simpl; [reflexivity|].
  unfold kept at 1. apply Nat.leb_le in Hg. rewrite Hg. simpl. exact IH.
Qed.

(** C3. When every market of the table has at most one observation, a call
    with a conforming draw matrix and a table holding the required columns
    returns (it does not raise): four empty 1-D arrays and an effect matrix
    of shape (0, num_sims), num_sims being the row count of the draw
    matrix. *)
Theorem C3_empty_result (df : DataFrame) (rs : ndarray) (gk hc : list string)
    (groups : list DataFrame) :
  ndim rs = 2%nat ->
  nth 1 (shape rs) 0%nat = length hc ->
  missing_columns df (required_columns gk hc) = [] ->
  groupby df gk true = Ok groups ->
  Forall (fun g => (len g <= 1)%nat) groups ->
  determine_effect_coeff df rs gk hc =
    Ok (mk_output (mk_ndarray [0%nat] []) (mk_ndarray [0%nat] []) (mk_ndarray [0%nat] [])
          (mk_ndarray [0%nat; nth 0 (shape rs) 0%nat] [])
          (mk_ndarray [0%nat] [])).
Proof.
  intros Hdim Hcols Hmiss Hgroups Hsmall. unfold determine_effect_coeff.
  rewrite Hdim, Hcols, !Nat.eqb_refl, Hmiss, Hgroups. simpl.
  rewrite loop_blocks, (filter_kept_small _ Hsmall). reflexivity.
Qed.

(** A table of two single-airline markets. *)
Lemma C3_empty_result_witness :
  determine_effect_coeff
    (mk_df (default_group_keys ++ base_cols ++ default_hub_dummy_cols)
       [ [11; 2019; 1; 1; 1; 60; 3; 0; 0; 1; 0];
         [10; 2019; 1; 1; 1; 40; 2; 0; 1; 0; 0] ]%Q)
    (mk_ndarray [3; 4]%nat (repeat 1%Q 12))
    default_group_keys default_hub_dummy_cols =
    Ok (mk_output (mk_ndarray [0%nat] []) (mk_ndarray [0%nat] []) (mk_ndarray [0%nat] [])
          (mk_ndarray [0%nat; 3%nat] [])
          (mk_ndarray [0%nat] [])).
Proof.
  eapply C3_empty_result.
  - reflexivity.
  - reflexivity.
  - reflexivity.
  - vm_compute. reflexivity.
  - repeat constructor.
Defined.

End PropagatorFacts.

(* ------------------------------------------------------------------ *)
(** ** The point-estimate variant against the matrix variant *)

Module TrueEffectFacts.
Import Propagator TrueEffect PropagatorFacts.

Lemma Qmult_comm_eq (x y : Q) : (x * y)%Q = (y * x)%Q.
Proof. unfold Qmult. rewrite Z.mul_comm, Pos.mul_comm. reflexivity. Qed.

(** *** Lookups that succeed *)

Lemma has_column_index cols rws c :
  has_column (mk_df cols rws) c = true -> index_of c cols = Some (col_index cols c).
Proof.
  unfold has_column, col_index. simpl. destruct (index_of c cols); [reflexivity | discriminate].
Qed.

Lemma cell_col_index cols rws c r :
  has_column (mk_df cols rws) c = true -> cell (col_index cols c) r = value_at cols c r.
Proof.
  unfold has_column, col_index, value_at. simpl.
  destruct (index_of c cols); [reflexivity | discriminate].
Qed.

Lemma loc_has cols rws c :
  has_column (mk_df cols rws) c = true -> loc cols c = Ok (col_index cols c).
Proof. intros H. unfold loc. rewrite (has_column_index _ _ _ H). reflexivity. Qed.

Lemma mapM_loc_has cols rws cs :
  (forall c, In c cs -> has_column (mk_df cols rws) c = true) ->
  mapM (loc cols) cs = Ok (map (col_index cols) cs).
Proof.
  induction cs as [|c cs IH]; simpl; intros H; [reflexivity|].
  rewrite (loc_has _ rws c), IH by auto. reflexivity.
Qed.

Lemma series_has cols rws c :
  has_column (mk_df cols rws) c = true ->
  series (mk_df cols rws) c = Ok (map (value_at cols c) rws).
Proof.
  intros H. unfold series. simpl. rewrite (loc_has _ _ _ H). simpl. f_equal.
  apply map_ext. intros r. apply (cell_col_index _ _ _ _ H).
Qed.

Lemma frame_values_has cols rws cs :
  (forall c, In c cs -> has_column (mk_df cols rws) c = true) ->
  frame_values (mk_df cols rws) cs =
  Ok (map (fun r => map (fun c => value_at cols c r) cs) rws).
Proof.
  intros H. unfold frame_values. simpl. rewrite (mapM_loc_has _ rws) by exact H. simpl.
  f_equal. apply map_ext. intros r. rewrite map_map.
  apply map_ext_in. intros c Hc. apply (cell_col_index _ rws). auto.
Qed.

Lemma row_get_has cols rws r c :
  has_column (mk_df cols rws) c = true -> row_get cols r c = Ok (value_at cols c r).
Proof.
  intros H. unfold row_get. rewrite (loc_has _ _ _ H). simpl.
  rewrite (cell_col_index _ _ _ _ H). reflexivity.
Qed.

Lemma mapM_row_get_has cols rws r cs :
  (forall c, In c cs -> has_column (mk_df cols rws) c = true) ->
  mapM (row_get cols r) cs = Ok (map (fun c => value_at cols c r) cs).
Proof.
  induction cs as [|c cs IH]; simpl; intros H; [reflexivity|].
  rewrite (row_get_has _ rws), IH by auto. reflexivity.
Qed.

Lemma mapM_pure {A B : Type} (f : A -> result B) (h : A -> B) (l : list A) :
  (forall a, In a l -> f a = Ok (h a)) -> mapM f l = Ok (map h l).
Proof.
  induction l as [|a l IH]; simpl; intros H; [reflexivity|].
  rewrite (H a) by auto. simpl. rewrite IH by auto. reflexivity.
Qed.

(** *** One market *)

Section OneMarket.

Variable cols : list string.
Variable tp : list Q.
Hypothesis Hvalid : valid_table (mk_df cols []).
Hypothesis Htp : length tp = 4%nat.

Let share := value_at cols "MarketShare".
Let hhi := value_at cols "HHI".
Let hub_dummy := fun r : list Q => map (fun c => value_at cols c r) hub_cols.

Lemma valid_has rws c :
  In c (market_keys ++
        ["MarketShare"; "HHI"; "MonthlyFlights"; "AirportHubSize"; "AirlineHubSize"] ++
        hub_cols) ->
  has_column (mk_df cols rws) c = true.
Proof. intros H. exact (Hvalid c H). Qed.

Ltac has_col := apply valid_has; simpl; tauto.

Lemma rows_of_single : rows_of (mk_ndarray [1; 4]%nat tp) = [tp].
Proof.
  unfold rows_of. cbn [shape flat chunks]. rewrite firstn_all2 by lia. reflexivity.
Qed.

Lemma total_hub_market_share_spec rws :
  total_hub_market_share (mk_df cols rws) =
  Ok (sum_axis0 4 (map (fun r => vscale (share r) (hub_dummy r)) rws)).
Proof.
  unfold total_hub_market_share.
  rewrite frame_values_has by (intros; has_col).
  rewrite series_has by has_col. cbn [bind]. f_equal.
  change (length hub_cols) with 4%nat. f_equal.
  rewrite map2_map_same. apply map_ext. intros r. unfold vscale.
  apply map_ext. intros x. apply Qmult_comm_eq.
Qed.

Lemma row_body_spec n total r :
  row_body tp cols n total r =
  Ok (mk_record (value_at cols "MonthlyFlights" r) (share r)
        (value_at cols "AirportHubSize" r) (value_at cols "AirlineHubSize" r)
        (hhi r) n (value_at cols "OriginAirportID" r)
        (2 * (share r - hhi r) * dot tp (vsub total (vscale (share r) (hub_dummy r))))%Q).
Proof.
  unfold row_body.
  rewrite (row_get_has _ [] _ "MarketShare") by has_col. cbn [bind].
  rewrite (row_get_has _ [] _ "HHI") by has_col. cbn [bind].
  rewrite (mapM_row_get_has _ []) by (intros; has_col). cbn [bind].
  rewrite (row_get_has _ [] _ "MonthlyFlights") by has_col. cbn [bind].
  rewrite (row_get_has _ [] _ "AirportHubSize") by has_col. cbn [bind].
  rewrite (row_get_has _ [] _ "AirlineHubSize") by has_col. cbn [bind].
  rewrite (row_get_has _ [] _ "OriginAirportID") by has_col. cbn [bind].
  reflexivity.
Qed.

(** The variant's records for one market carry the specified effects. *)
Lemma market_records_spec rws :
  exists recs,
    (total <- total_hub_market_share (mk_df cols rws) ;;
     mapM (row_body tp cols (length rws) total) rws) = Ok recs /\
    map r_effect recs = spec_effects tp cols rws.
Proof.
  rewrite total_hub_market_share_spec. cbn [bind].
  eexists. split.
  - apply mapM_pure. intros r _. apply row_body_spec.
  - rewrite map_map. reflexivity.
Qed.

(** The matrix variant's effect rows for one market, under the single draw
    [tp], are the specified effects, one per row. *)
Lemma group_effect_spec rws :
  group_effect (mk_ndarray [1; 4]%nat tp) hub_cols (mk_df cols rws) =
  Ok (map (fun e => [e]) (spec_effects tp cols rws)).
Proof.
  unfold group_effect.
  rewrite series_has by has_col. cbn [bind].
  rewrite frame_values_has by (intros; has_col). cbn [bind].
  rewrite series_has by has_col. cbn [bind]. f_equal.
  change (length hub_cols) with 4%nat.
  rewrite rows_of_single. unfold comp_2. rewrite transpose_matmul_T.
  unfold others_by_bin, S_total_by_bin, comp_1, effect_mat, spec_effects.
  rewrite !map2_map_same.
  unfold vsub, vscale. rewrite !map2_map_same, !map_map, map2_map_same.
  reflexivity.
Qed.

Lemma block_of_returns rws :
  returns (block_of (mk_ndarray [1; 4]%nat tp) market_keys hub_cols (mk_df cols rws)).
Proof.
  unfold block_of.
  rewrite series_has by has_col. cbn [bind].
  rewrite frame_values_has by (intros; has_col). cbn [bind].
  rewrite !series_has by has_col. cbn [bind].
  eexists. reflexivity.
Qed.

End OneMarket.

(** *** The whole table *)

Lemma true_loop_step tp g groups results :
  TrueEffect.loop tp (g :: groups) results =
  if (len g <=? 1)%nat then TrueEffect.loop tp groups results
  else (new <- market_records tp g ;; TrueEffect.loop tp groups (results ++ new)).
Proof.
  simpl. destruct (len g <=? 1)%nat; [reflexivity|]. unfold market_records.
  destruct (total_hub_market_share g); reflexivity.
Qed.

Lemma true_loop_markets tp groups results :
  TrueEffect.loop tp groups results =
  (news <- mapM (market_records tp) (filter kept groups) ;; Ok (results ++ concat news)).
Proof.
  revert results. induction groups as [|g groups IH]; intros results.
  - simpl. rewrite app_nil_r. reflexivity.
  - rewrite true_loop_step. cbn [filter]. unfold kept at 1.
    destruct (len g <=? 1)%nat; cbn [negb].
    + apply IH.
    + cbn [mapM]. destruct (market_records tp g) as [new|e]; cbn [bind]; [|reflexivity].
      rewrite IH. destruct (mapM (market_records tp) (filter kept groups)); cbn [bind concat];
        [|reflexivity].
      rewrite app_assoc. reflexivity.
Qed.

Lemma Permutation_filter {A : Type} (p : A -> bool) (l l' : list A) :
  Permutation l l' -> Permutation (filter p l) (filter p l').
Proof.
  induction 1 as [|x l l' _ IH|x y l|l l' l'' _ IH1 _ IH2]; simpl.
  - constructor.
  - destruct (p x); auto.
  - destruct (p x), (p y); auto using Permutation_refl. apply perm_swap.
  - eapply Permutation_trans; eauto.
Qed.

Lemma insert_key_perm k ks : Permutation (insert_key k ks) (k :: ks).
Proof.
  induction ks as [|k' ks IH]; simpl; [apply Permutation_refl|].
  destruct (key_leb k k'); [apply Permutation_refl|].
  eapply Permutation_trans; [apply perm_skip, IH | apply perm_swap].
Qed.

Lemma sort_keys_perm ks : Permutation (sort_keys ks) ks.
Proof.
  induction ks as [|k ks IH]; simpl; [constructor|].
  eapply Permutation_trans; [apply insert_key_perm | apply perm_skip, IH].
Qed.

Lemma concat_singletons {A : Type} (l : list A) : concat (map (fun e => [e]) l) = l.
Proof. induction l; simpl; congruence. Qed.

Lemma mapM_map_in {A B C : Type} (f : B -> result C) (mk : A -> B) (l : list A) :
  mapM f (map mk l) = mapM (fun a => f (mk a)) l.
Proof.
  induction l as [|a l IH]; simpl; [reflexivity|]. rewrite IH. reflexivity.
Qed.

Lemma mapM_exists {A B : Type} (f : A -> result B) (P : A -> B -> Prop) (l : list A) :
  (forall a, exists b, f a = Ok b /\ P a b) ->
  exists bs, mapM f l = Ok bs /\ Forall2 P l bs.
Proof.
  intros H. induction l as [|a l [bs [Hbs HF]]]; simpl.
  - exists []. split; [reflexivity | constructor].
  - destruct (H a) as [b [Hb HP]]. exists (b :: bs). rewrite Hb, Hbs. simpl.
    split; [reflexivity | constructor; assumption].
Qed.

Lemma missing_columns_nil df req :
  (forall c, In c req -> has_column df c = true) -> missing_columns df req = [].
Proof.
  unfold missing_columns. induction req as [|c req IH]; simpl; intros H; [reflexivity|].
  rewrite (H c) by auto. simpl. apply IH. auto.
Qed.

Lemma groupby_markets cols rws sort :
  valid_table (mk_df cols []) ->
  groupby (mk_df cols rws) market_keys sort =
  Ok (map (fun k => mk_df cols (group_rows (map (col_index cols) market_keys) rws k))
          (group_order sort (map (key_of (map (col_index cols) market_keys)) rws))).
Proof.
  intros V. unfold groupby. cbn [market_keys columns rows].
  fold market_keys. rewrite (mapM_loc_has cols []).
  - reflexivity.
  - intros c Hc. apply (V c). apply in_or_app. left. exact Hc.
Qed.

(** C6.  On a table holding the columns both functions read and
    with a length-4 coefficient vector, both functions return, and both
    compute for the observations of every market with more than one airline
    the effects of the specification's formula, in table order within the
    market.  The point-estimate variant lists the markets in order of first
    appearance, the matrix variant in ascending key order: the variant's
    effect column is the concatenation of the per-market effects in the
    first order, the matrix's single column the concatenation in the second.
    The two columns have the same length, are permutations of each other,
    and are equal row for row when the markets first appear in ascending key
    order. *)
Theorem C6_variant_agrees_up_to_market_order (df : DataFrame) (tp : list Q) :
  valid_table df ->
  length tp = 4%nat ->
  let idx := map (col_index (columns df)) market_keys in
  let ks := map (key_of idx) (rows df) in
  let market := fun k => group_rows idx (rows df) k in
  let big := fun k => negb (length (market k) <=? 1)%nat in
  let E := fun k => spec_effects tp (columns df) (market k) in
  exists recs out,
    determine_effect_coeff_true (array1 tp) df = Ok recs /\
    determine_effect_coeff df (mk_ndarray [1; 4]%nat tp)
      default_group_keys default_hub_dummy_cols = Ok out /\
    map r_effect recs = concat (map E (filter big (unique ks))) /\
    flat (out_effect out) = concat (map E (filter big (sort_keys (unique ks)))) /\
    shape (out_effect out) = [length recs; 1%nat] /\
    Permutation (map r_effect recs) (flat (out_effect out)) /\
    (sort_keys (unique ks) = unique ks -> map r_effect recs = flat (out_effect out)).
Proof.
  destruct df as [cols rws]. intros V L. cbv beta iota delta [columns rows].
  intros idx ks market big E.
  assert (V0 : valid_table (mk_df cols [])) by exact V.
  set (mk := fun k => mk_df cols (market k)).
  assert (Hkept : forall l, filter kept (map mk l) = map mk (filter big l)).
  { intros l. exact (filter_map_groups mk kept l). }
  (* the point-estimate variant *)
  destruct (mapM_exists (fun k => market_records tp (mk k))
              (fun k recs => map r_effect recs = E k) (filter big (unique ks))
              (fun k => market_records_spec cols tp V0 (market k)))
    as [news [Hnews Fnews]].
  assert (Htrue : determine_effect_coeff_true (array1 tp) (mk_df cols rws)
                  = Ok (concat news)).
  { unfold determine_effect_coeff_true. cbn [array1 flat]. rewrite L. cbn [Nat.eqb negb].
    rewrite (groupby_markets cols rws false V0). cbn [bind group_order].
    rewrite true_loop_markets.
    fold idx. fold ks. fold market. fold mk.
    rewrite Hkept, mapM_map_in, Hnews. reflexivity. }
  assert (Heff_true : map r_effect (concat news) = concat (map E (filter big (unique ks)))).
  { rewrite concat_map. f_equal. clear - Fnews.
    induction Fnews as [|k recs l news Hk _ IH]; simpl; congruence. }
  (* the matrix variant *)
  set (rs := mk_ndarray [1; 4]%nat tp).
  assert (Hgroups : groupby (mk_df cols rws) default_group_keys true
                    = Ok (map mk (sort_keys (unique ks)))).
  { apply (groupby_markets cols rws true V0). }
  assert (Hblocks : returns (mapM (block_of rs default_group_keys default_hub_dummy_cols)
                               (filter kept (map mk (sort_keys (unique ks)))))).
  { apply mapM_total. intros g Hg. rewrite Hkept in Hg.
    apply in_map_iff in Hg as [k [<- _]]. apply (block_of_returns cols tp V0). }
  destruct Hblocks as [bs Hbs].
  assert (Hmatrix : determine_effect_coeff (mk_df cols rws) rs
                      default_group_keys default_hub_dummy_cols = Ok (assemble rs bs)).
  { apply determine_effect_coeff_Ok_intro with (groups := map mk (sort_keys (unique ks)));
      auto.
    apply missing_columns_nil. intros c Hc. apply (V c).
    unfold required_columns, default_group_keys, base_cols, default_hub_dummy_cols in Hc.
    simpl in Hc |- *. tauto. }
  destruct (output_effect _ _ _ _ _ Hbs) as [effs [Heffs [Hflat Hshape]]].
  rewrite Hkept, mapM_map_in in Heffs.
  rewrite (mapM_pure _ (fun k => map (fun e => [e]) (E k))) in Heffs
    by (intros k _; apply (group_effect_spec cols tp V0 L)).
  injection Heffs as <-.
  assert (Heff_matrix : flat (out_effect (assemble rs bs))
                        = concat (map E (filter big (sort_keys (unique ks))))).
  { rewrite Hflat, map_map. f_equal. apply map_ext. intros k. apply concat_singletons. }
  assert (Hperm : Permutation (concat (map E (filter big (unique ks))))
                              (concat (map E (filter big (sort_keys (unique ks)))))).
  { rewrite <- !flat_map_concat_map. apply Permutation_flat_map, Permutation_filter.
    apply Permutation_sym, sort_keys_perm. }
  exists (concat news), (assemble rs bs).
  split; [exact Htrue|]. split; [exact Hmatrix|]. split; [exact Heff_true|].
  split; [exact Heff_matrix|]. split.
  { rewrite Hshape. cbn [shape rs nth]. f_equal.
    rewrite <- (length_map r_effect), Heff_true, (Permutation_length Hperm).
    rewrite map_map, concat_map_length, map_map. f_equal. apply map_ext.
    intros k. rewrite length_map. reflexivity. }
  split.
  { rewrite Heff_true, Heff_matrix. exact Hperm. }
  intros Hsorted. rewrite Heff_true, Heff_matrix, Hsorted. reflexivity.
Qed.

Lemma unsorted_table_valid : valid_table unsorted_table.
Proof.
  intros c Hc. simpl in Hc.
  repeat (destruct Hc as [<-|Hc]; [reflexivity|]). contradiction.
Qed.

(** On a table whose two markets appear in descending key order the two
    effect columns differ row for row: the variant starts with the market
    listed first, the matrix variant with the market of the smaller key. *)
Lemma C6_columns_differ_on_unsorted_table :
  valid_table unsorted_table /\
  exists recs out,
    determine_effect_coeff_true (array1 [1; 2; 5.0; 3]%Q) unsorted_table = Ok recs /\
    determine_effect_coeff unsorted_table (mk_ndarray [1; 4]%nat [1; 2; 5.0; 3]%Q)
      default_group_keys default_hub_dummy_cols = Ok out /\
    Qlist_eq (map r_effect recs) [0.144; -1.176; 0.32; -0.72]%Q /\
    Qlist_eq (flat (out_effect out)) [0.32; -0.72; 0.144; -1.176]%Q /\
    ~ Qlist_eq (map r_effect recs) (flat (out_effect out)).
Proof.
  split; [exact unsorted_table_valid|].
  eexists. eexists.
  split; [vm_compute; reflexivity|].
  split; [vm_compute; reflexivity|].
  split; [unfold Qlist_eq; Qlists|].
  split; [unfold Qlist_eq; Qlists|].
  intros H. inversion H as [|x y l l' Hq _]. vm_compute in Hq. discriminate.
Qed.

Lemma C6_variant_agrees_witness :
  exists recs out,
    determine_effect_coeff_true (array1 [1; 2; 5.0; 3]%Q) unsorted_table = Ok recs /\
    determine_effect_coeff unsorted_table (mk_ndarray [1; 4]%nat [1; 2; 5.0; 3]%Q)
      default_group_keys default_hub_dummy_cols = Ok out /\
    Permutation (map r_effect recs) (flat (out_effect out)).
Proof.
  destruct (C6_variant_agrees_up_to_market_order unsorted_table [1; 2; 5.0; 3]%Q
              unsorted_table_valid eq_refl)
    as (recs & out & H1 & H2 & _ & _ & _ & HP & _).
  exists recs, out. auto.
Defined.

End TrueEffectFacts.

(* ------------------------------------------------------------------ *)
(** ** The dominance matrix *)

Module DominanceFacts.
Import Dominance.

(** *** Counting draws *)

Lemma gt_test (x y : Q) :
  negb (Qle_bool x y) = if Qlt_le_dec y x then true else false.
Proof.
  destruct (Qlt_le_dec y x) as [H|H].
  - destruct (Qle_bool x y) eqn:E; [|reflexivity].
    apply Qle_bool_iff in E. exfalso. apply (Qlt_not_le _ _ H E).
  - apply Qle_bool_iff in H. rewrite H. reflexivity.
Qed.

Lemma count_gt_draws arr n k i j :
  shape arr = [n; k] -> (i < k)%nat -> (j < k)%nat ->
  count_gt (rows_of arr) i j = length (draws_gt arr i j).
Proof.
  intros Hsh Hi Hj. unfold count_gt, draws_gt.
  rewrite (filter_length_nth _ _ []).
  assert (Hn : length (rows_of arr) = n).
  { unfold rows_of. rewrite Hsh. apply chunks_length. }
  rewrite Hn, Hsh. cbn [nth]. f_equal. apply filter_ext_in.
  intros s Hs. apply in_seq in Hs.
  rewrite !(cell_rows_of arr n k) by (auto; lia). apply gt_test.
Qed.

Lemma three_way_count {A : Type} (p q t : A -> bool) (l : list A) :
  (forall x, In x l ->
     (p x = true /\ q x = false /\ t x = false) \/
     (p x = false /\ q x = true /\ t x = false) \/
     (p x = false /\ q x = false /\ t x = true)) ->
  (length (filter p l) + length (filter q l) + length (filter t l) = length l)%nat.
Proof.
  induction l as [|a l IH]; intros H; [reflexivity|].
  specialize (IH (fun x Hx => H x (or_intror Hx))).
  cbn [filter].
  destruct (H a (or_introl eq_refl)) as [(-> & -> & ->)|[(-> & -> & ->)|(-> & -> & ->)]];
    cbn [length]; lia.
Qed.

(** In every draw exactly one of: value i greater, value j greater, tie. *)
Lemma draws_partition arr i j :
  (length (draws_gt arr i j) + length (draws_gt arr j i) + length (draws_tied arr i j)
   = nth 0 (shape arr) 0)%nat.
Proof.
  unfold draws_gt, draws_tied.
  rewrite three_way_count; [apply length_seq|].
  intros s _.
  destruct (Qlt_le_dec (at2 arr s j) (at2 arr s i)) as [H1|H1];
    destruct (Qlt_le_dec (at2 arr s i) (at2 arr s j)) as [H2|H2];
    destruct (Qeq_dec (at2 arr s i) (at2 arr s j)) as [H3|H3]; auto.
  - exfalso. apply (Qlt_irrefl (at2 arr s i)). eapply Qlt_trans; eauto.
  - exfalso. apply (Qlt_irrefl (at2 arr s i)). eapply Qlt_trans; eauto.
  - exfalso. rewrite H3 in H1. apply (Qlt_irrefl _ H1).
  - exfalso. rewrite H3 in H2. apply (Qlt_irrefl _ H2).
  - exfalso. apply H3. apply Qle_antisym; assumption.
Qed.

(** *** Entries of the returned matrix *)

Lemma nth_combine_seq {A : Type} (l : list A) (i : nat) (d : A) :
  (i < length l)%nat ->
  nth i (combine (seq 0 (length l)) l) (O, d) = (i, nth i l d).
Proof.
  intros Hi. rewrite (combine_nth (seq 0 (length l)) l i O d) by apply length_seq.
  rewrite seq_nth by exact Hi. reflexivity.
Qed.

Lemma entry_fill_diagonal v m i j :
  (i < length m)%nat -> (j < length (nth i m []))%nat ->
  nth j (nth i (fill_diagonal v m) []) NaN =
  if (i =? j)%nat then v else nth j (nth i m []) NaN.
Proof.
  intros Hi Hj. unfold fill_diagonal.
  rewrite (nth_map_in _ _ _ (O, [])) by (rewrite length_combine, length_seq; lia).
  rewrite nth_combine_seq by exact Hi. cbn [fst snd].
  rewrite (nth_map_in _ _ _ (O, NaN)) by (rewrite length_combine, length_seq; lia).
  rewrite nth_combine_seq by exact Hj. reflexivity.
Qed.

Lemma row_probs n k arr i :
  (i < k)%nat -> nth i (probs n k arr) [] = map (fun j => prob n arr i j) (seq 0 k).
Proof.
  intros Hi. unfold probs. rewrite (nth_map_in _ _ _ O) by (rewrite length_seq; exact Hi).
  rewrite seq_nth by exact Hi. reflexivity.
Qed.

Lemma entry_probs n k arr i j :
  (i < k)%nat -> (j < k)%nat -> nth j (nth i (probs n k arr) []) NaN = prob n arr i j.
Proof.
  intros Hi Hj. rewrite row_probs by exact Hi.
  rewrite (nth_map_in _ _ _ O) by (rewrite length_seq; exact Hj).
  rewrite seq_nth by exact Hj. reflexivity.
Qed.

Lemma probs_length n k arr : length (probs n k arr) = k.
Proof. unfold probs. rewrite length_map. apply length_seq. Qed.

Lemma fill_diagonal_length v m : length (fill_diagonal v m) = length m.
Proof.
  unfold fill_diagonal. rewrite length_map, length_combine, length_seq. lia.
Qed.

Lemma fill_diagonal_row_length v m i :
  (i < length m)%nat -> length (nth i (fill_diagonal v m) []) = length (nth i m []).
Proof.
  intros Hi. unfold fill_diagonal.
  rewrite (nth_map_in _ _ _ (O, [])) by (rewrite length_combine, length_seq; lia).
  rewrite nth_combine_seq by exact Hi. cbn [snd].
  rewrite length_map, length_combine, length_seq. lia.
Qed.

(** The call on a 2-D array with default labels. *)
Lemma prob_values_different_array arr n k b :
  shape arr = [n; k] ->
  prob_values_different (AsArray arr) None b =
  Ok (mk_prob_frame (map LInt (seq 0 k)) (map LInt (seq 0 k))
        (fill_diagonal (if b then Finite 0.5 else NaN) (probs n k (rows_of arr)))).
Proof.
  intros Hsh. unfold prob_values_different. rewrite Hsh. cbn [bind].
  rewrite length_map, length_seq, Nat.eqb_refl. reflexivity.
Qed.

Lemma entry_array arr n k (b : bool) i j :
  (i < k)%nat -> (j < k)%nat ->
  entry (mk_prob_frame (map LInt (seq 0 k)) (map LInt (seq 0 k))
           (fill_diagonal (if b then Finite 0.5 else NaN) (probs n k (rows_of arr)))) i j =
  if (i =? j)%nat then (if b then Finite 0.5 else NaN) else prob n (rows_of arr) i j.
Proof.
  intros Hi Hj. unfold entry. cbn [values].
  rewrite entry_fill_diagonal.
  - rewrite entry_probs by assumption. reflexivity.
  - rewrite probs_length. exact Hi.
  - rewrite row_probs by exact Hi. rewrite length_map, length_seq. exact Hj.
Qed.

(** *** Fractions of the draws *)

Lemma inject_nat_pos n : (1 <= n)%nat -> (0 < inject_Z (Z.of_nat n))%Q.
Proof.
  intros H. change 0%Q with (inject_Z 0). rewrite <- Zlt_Qlt. lia.
Qed.

Lemma fraction_unit (l : list nat) (n : nat) :
  (1 <= n)%nat -> (length l <= n)%nat -> (0 <= fraction l n /\ fraction l n <= 1)%Q.
Proof.
  intros Hn Hl. pose proof (inject_nat_pos n Hn) as Hpos. unfold fraction. split.
  - apply Qle_shift_div_l; [exact Hpos|]. rewrite Qmult_0_l.
    change 0%Q with (inject_Z 0). rewrite <- Zle_Qle. lia.
  - apply Qle_shift_div_r; [exact Hpos|]. rewrite Qmult_1_l.
    rewrite <- Zle_Qle. lia.
Qed.

Lemma fraction_sum (a b t : list nat) (n : nat) :
  (1 <= n)%nat ->
  (length a + length b + length t = n)%nat ->
  (fraction a n + fraction b n == 1 - fraction t n)%Q.
Proof.
  intros Hn Hsum. pose proof (inject_nat_pos n Hn) as Hpos. unfold fraction.
  assert (HN : ~ (inject_Z (Z.of_nat n) == 0)%Q).
  { intros E. rewrite E in Hpos. apply (Qlt_irrefl _ Hpos). }
  assert (E : (inject_Z (Z.of_nat n) ==
               inject_Z (Z.of_nat (length a)) + inject_Z (Z.of_nat (length b))
               + inject_Z (Z.of_nat (length t)))%Q).
  { rewrite <- !inject_Z_plus, <- !Nat2Z.inj_add, Hsum. reflexivity. }
  field_simplify_eq; [|exact HN]. rewrite E. ring.
Qed.

Lemma fraction_zero (t : list nat) (n : nat) :
  (1 <= n)%nat -> (fraction t n == 0)%Q <-> t = [].
Proof.
  intros Hn. pose proof (inject_nat_pos n Hn) as Hpos. unfold fraction. split.
  - intros E. apply length_zero_iff_nil.
    assert (E' : (inject_Z (Z.of_nat (length t)) == 0)%Q).
    { apply (Qmult_inj_r _ _ (/ inject_Z (Z.of_nat n))).
      - intros Z. apply (Qlt_irrefl 0). rewrite <- Z at 2. apply Qinv_lt_0_compat. exact Hpos.
      - rewrite Qmult_0_l. exact E. }
    unfold Qeq in E'. simpl in E'. lia.
  - intros ->. reflexivity.
Qed.

(** C4. On a 2-D array of shape (num_sims, K) with at least one draw the
    call returns a K x K matrix (labelled 0 .. K-1).  Off the diagonal, entry
    (i, j) is the fraction of the draws s in which arr[s, i] > arr[s, j]
    strictly, so a tie counts for neither side; on the diagonal the entry is
    NaN when [include_diagonal] is false (the default of the Python
    signature) and 0.5 when it is true; every entry is in [0, 1] or NaN. *)
Theorem C4_dominance_matrix (arr : ndarray) (n k : nat) (include_diagonal : bool) :
  shape arr = [n; k] ->
  (1 <= n)%nat ->
  exists df,
    prob_values_different (AsArray arr) None include_diagonal = Ok df /\
    index df = map LInt (seq 0 k) /\ pf_columns df = map LInt (seq 0 k) /\
    length (values df) = k /\
    (forall i, (i < k)%nat -> length (nth i (values df) []) = k) /\
    (forall i j, (i < k)%nat -> (j < k)%nat -> i <> j ->
       entry df i j = Finite (fraction (draws_gt arr i j) n)) /\
    (forall i, (i < k)%nat ->
       entry df i i = if include_diagonal then Finite 0.5 else NaN) /\
    (forall i j, (i < k)%nat -> (j < k)%nat -> in_unit_or_nan (entry df i j)).
Proof.
  intros Hsh Hn. eexists. split; [apply (prob_values_different_array arr n k); exact Hsh|].
  assert (Hoff : forall i j, (i < k)%nat -> (j < k)%nat ->
            prob n (rows_of arr) i j = Finite (fraction (draws_gt arr i j) n)).
  { intros i j Hi Hj. unfold prob. destruct n as [|n']; [lia|].
    rewrite (count_gt_draws arr (S n') k) by assumption. reflexivity. }
  split; [reflexivity|]. split; [reflexivity|]. split.
  { cbn [values]. rewrite fill_diagonal_length. apply probs_length. }
  split.
  { intros i Hi. cbn [values].
    rewrite fill_diagonal_row_length by (rewrite probs_length; exact Hi).
    rewrite row_probs by exact Hi. rewrite length_map. apply length_seq. }
  split.
  { intros i j Hi Hj Hij. rewrite entry_array by assumption.
    apply Nat.eqb_neq in Hij. rewrite Hij. apply Hoff; assumption. }
  split.
  { intros i Hi. rewrite entry_array by assumption. rewrite Nat.eqb_refl. reflexivity. }
  intros i j Hi Hj. rewrite entry_array by assumption.
  destruct (i =? j)%nat.
  - destruct include_diagonal; cbn [in_unit_or_nan]; [|exact I].
    split; unfold Qle; simpl; lia.
  - rewrite Hoff by assumption. cbn [in_unit_or_nan]. apply fraction_unit; [exact Hn|].
    pose proof (draws_partition arr i j) as P. rewrite Hsh in P. cbn [nth] in P. lia.
Qed.

Lemma C4_dominance_matrix_witness :
  exists df,
    prob_values_different (AsArray (mk_ndarray [3; 2]%nat [1; 2; 5; 4; 3; 3]%Q)) None false
      = Ok df /\
    entry df 0 1 = Finite (fraction [1%nat] 3) /\ entry df 0 0 = NaN.
Proof.
  destruct (C4_dominance_matrix (mk_ndarray [3; 2]%nat [1; 2; 5; 4; 3; 3]%Q) 3 2 false
              eq_refl ltac:(lia))
    as (df & H & _ & _ & _ & _ & Hoff & Hdiag & _).
  exists df. split; [exact H|]. split.
  - rewrite (Hoff 0%nat 1%nat) by lia. reflexivity.
  - apply (Hdiag 0%nat). lia.
Defined.

(** C10. For two distinct columns i and j of a (num_sims, K) array with at
    least one draw, entry (i, j) + entry (j, i) = 1 - (fraction of the draws
    in which the two values are equal); so the sum is at most 1, and it is 1
    exactly when no draw ties the two values. *)
Theorem C10_pairwise_sum (arr : ndarray) (n k : nat) (include_diagonal : bool) (i j : nat) :
  shape arr = [n; k] ->
  (1 <= n)%nat ->
  (i < k)%nat -> (j < k)%nat -> i <> j ->
  exists df p q,
    prob_values_different (AsArray arr) None include_diagonal = Ok df /\
    entry df i j = Finite p /\
    entry df j i = Finite q /\
    (p + q == 1 - fraction (draws_tied arr i j) n)%Q /\
    (p + q <= 1)%Q /\
    ((p + q == 1)%Q <-> draws_tied arr i j = []).
Proof.
  intros Hsh Hn Hi Hj Hij.
  pose proof (draws_partition arr i j) as Hpart. rewrite Hsh in Hpart. cbn [nth] in Hpart.
  pose proof (fraction_sum _ _ _ n Hn Hpart) as Hsum.
  assert (Htie : (0 <= fraction (draws_tied arr i j) n /\ fraction (draws_tied arr i j) n <= 1)%Q).
  { apply fraction_unit; [exact Hn | lia]. }
  destruct Htie as [Htie0 Htie1].
  exists (mk_prob_frame (map LInt (seq 0 k)) (map LInt (seq 0 k))
            (fill_diagonal (if include_diagonal then Finite 0.5 else NaN)
               (probs n k (rows_of arr)))),
    (fraction (draws_gt arr i j) n), (fraction (draws_gt arr j i) n).
  split; [apply prob_values_different_array; exact Hsh|].
  assert (Hoff : forall i j, (i < k)%nat -> (j < k)%nat ->
            prob n (rows_of arr) i j = Finite (fraction (draws_gt arr i j) n)).
  { intros i' j' Hi' Hj'. unfold prob. destruct n as [|n']; [lia|].
    rewrite (count_gt_draws arr (S n') k) by assumption. reflexivity. }
  split.
  { rewrite entry_array by assumption. apply Nat.eqb_neq in Hij. rewrite Hij. auto. }
  split.
  { rewrite entry_array by assumption.
    assert (Hji : j <> i) by congruence. apply Nat.eqb_neq in Hji. rewrite Hji. auto. }
  split; [exact Hsum|]. split.
  { rewrite Hsum. lra. }
  rewrite Hsum, <- (fraction_zero _ n Hn). split; intros E; lra.
Qed.

Lemma C10_pairwise_sum_witness :
  exists df p q,
    prob_values_different (AsArray (mk_ndarray [3; 2]%nat [1; 2; 5; 4; 3; 3]%Q)) None false
      = Ok df /\
    entry df 0 1 = Finite p /\ entry df 1 0 = Finite q /\ (p + q == 2 / 3)%Q.
Proof.
  destruct (C10_pairwise_sum (mk_ndarray [3; 2]%nat [1; 2; 5; 4; 3; 3]%Q) 3 2 false 0 1
              eq_refl ltac:(lia) ltac:(lia) ltac:(lia) ltac:(lia))
    as (df & p & q & H & Hp & Hq & Hs & _).
  exists df, p, q. split; [exact H|]. split; [exact Hp|]. split; [exact Hq|].
  rewrite Hs. reflexivity.
Defined.

End DominanceFacts.

(* ------------------------------------------------------------------ *)
(** ** The coefficient samplers *)

Module SamplerFacts.
Import Sampler.

Lemma nth_concat_uniform (k : nat) (m : list (list Q)) (s c : nat) :
  Forall (fun r => length r = k) m ->
  (s < length m)%nat -> (c < k)%nat ->
  nth (s * k + c) (concat m) 0%Q = nth c (nth s m []) 0%Q.
Proof.
  intros Hm. revert s. induction Hm as [|r m Hr _ IH]; intros s Hs Hc; [simpl in Hs; lia|].
  destruct s as [|s]; cbn [concat nth].
  - rewrite app_nth1 by lia. reflexivity.
  - rewrite app_nth2 by (simpl; lia).
    replace (S s * k + c - length r)%nat with (s * k + c)%nat by (simpl; lia).
    apply IH; [simpl in Hs; lia | exact Hc].
Qed.

Lemma vsum_pair (l : list Q) :
  (vsum (firstn 2 l) == nth 0 l 0 + nth 1 l 0)%Q.
Proof.
  unfold vsum. destruct l as [|a [|b l]]; simpl; ring.
Qed.

(** Entry (s, c) of an array built from rows of one width. *)
Lemma at2_array2 (k : nat) (m : list (list Q)) (s c : nat) :
  Forall (fun r => length r = k) m ->
  (s < length m)%nat -> (c < k)%nat ->
  at2 (array2 k m) s c = nth c (nth s m []) 0%Q.
Proof.
  intros Hm Hs Hc. unfold at2, array2. cbn [shape flat nth].
  apply nth_concat_uniform; assumption.
Qed.

Section WithNumpy.

Variable read_csv : string -> result csv_table.
Variable bit_generator : Type.
Variable entropy : Type.
Variable seeded : Z -> bit_generator.
Variable unseeded : entropy -> bit_generator.
Variable multivariate_normal :
  bit_generator -> list Q -> list (list Q) -> nat -> mvn_method -> result ndarray.

Let basic := basic_random_sample read_csv bit_generator entropy seeded unseeded
               multivariate_normal.

(** C5. On a valid input (both files readable, the coefficient file with
    the hhiorigin and hhidest columns and a first row, the covariance file
    labelled with the same names, num_sims > 0, any seed, the generator
    returning its (num_sims, 2) draws) the simple-mode sampler returns a
    (num_sims, 4) matrix whose entry (s, c) is, for each of the 4 columns c,
    the sum of the two components of draw s, and a length-4 true_params
    vector whose every entry is the sum of the two point estimates. *)
Theorem C5_basic_sample_replicated
    (os : entropy) (coef_path cov_path : string) (num_sims : Z) (seed : option Z)
    (coef cov : csv_table) (mu : list Q) (Sigma : list (list Q)) (draws : ndarray) :
  (0 < num_sims)%Z ->
  read_csv coef_path = Ok coef ->
  missing_vars (table coef) basic_reg_vars = [] ->
  first_row (table coef) basic_reg_vars = Ok mu ->
  read_csv cov_path = Ok cov ->
  cov_matrix cov basic_reg_vars = Ok Sigma ->
  multivariate_normal (default_rng bit_generator entropy seeded unseeded os seed)
    mu Sigma (Z.to_nat num_sims) svd = Ok draws ->
  shape draws = [Z.to_nat num_sims; 2%nat] ->
  exists random_sample true_params,
    basic os coef_path cov_path num_sims seed = Ok (random_sample, true_params) /\
    shape random_sample = [Z.to_nat num_sims; 4%nat] /\
    (forall s c, (s < Z.to_nat num_sims)%nat -> (c < 4)%nat ->
       at2 random_sample s c = at2 random_sample s 0 /\
       (at2 random_sample s c == at2 draws s 0 + at2 draws s 1)%Q) /\
    shape true_params = [4%nat] /\
    (forall c, (c < 4)%nat ->
       nth c (flat true_params) 0%Q = nth 0 (flat true_params) 0%Q /\
       (nth c (flat true_params) 0 == nth 0 mu 0 + nth 1 mu 0)%Q).
Proof.
  intros Hpos Hcoef Hmiss Hmu Hcov HSigma Hdraws Hshape.
  assert (Hrows : length (rows_of draws) = Z.to_nat num_sims).
  { unfold rows_of. rewrite Hshape. apply chunks_length. }
  assert (Hrow : forall s, (s < Z.to_nat num_sims)%nat ->
            (vsum (nth s (rows_of draws) []) == at2 draws s 0 + at2 draws s 1)%Q).
  { intros s Hs. unfold rows_of, at2. rewrite Hshape. cbn [nth].
    rewrite nth_chunks by exact Hs. rewrite vsum_pair, !nth_skipn. reflexivity. }
  assert (Hmu2 : length mu = 2%nat).
  { unfold first_row in Hmu. destruct (rows (table coef)); [discriminate|].
    apply bind_Ok_inv in Hmu as [idx [Hidx Hmu]]. injection Hmu as <-.
    rewrite length_map. apply mapM_Ok_length in Hidx. exact Hidx. }
  eexists. eexists. split.
  { unfold basic, basic_random_sample.
    destruct (num_sims <=? 0)%Z eqn:E; [apply Z.leb_le in E; lia|].
    rewrite Hcoef. cbn [bind]. rewrite Hmiss, Hmu. cbn [bind].
    rewrite Hcov. cbn [bind]. rewrite HSigma. cbn [bind]. rewrite Hdraws. cbn [bind].
    reflexivity. }
  set (m := map (fun c => repeat c n_hub_sizes) (map vsum (rows_of draws))).
  assert (Hm : Forall (fun r => length r = 4%nat) m).
  { apply Forall_forall. intros r Hr. apply in_map_iff in Hr as [c [<- _]].
    apply repeat_length. }
  assert (Hlen : length m = Z.to_nat num_sims).
  { unfold m. rewrite !length_map. exact Hrows. }
  assert (Hentry : forall s c, (s < Z.to_nat num_sims)%nat -> (c < 4)%nat ->
            at2 (array2 n_hub_sizes m) s c = vsum (nth s (rows_of draws) [])).
  { intros s c Hs Hc. rewrite (at2_array2 4 m) by (auto; lia).
    unfold m. rewrite map_map.
    rewrite (nth_map_in _ _ _ []) by lia.
    apply nth_repeat_lt. exact Hc. }
  split; [unfold array2; cbn [shape]; rewrite Hlen; reflexivity|].
  split.
  { intros s c Hs Hc. rewrite !Hentry by (auto; lia). split; [reflexivity|].
    apply Hrow. exact Hs. }
  split; [reflexivity|].
  intros c Hc. cbn [array1 flat]. rewrite !nth_repeat_lt by (unfold n_hub_sizes; lia).
  split; [reflexivity|].
  destruct mu as [|m0 [|m1 [|m2 mu]]]; try discriminate. unfold vsum. simpl. ring.
Qed.

End WithNumpy.

Lemma C5_basic_sample_replicated_witness :
  exists random_sample true_params,
    basic_random_sample sample_files Z unit (fun z => z) (fun _ => 0%Z) mean_draws
      tt "coef.csv" "cov.csv" 3 (Some 12345%Z) = Ok (random_sample, true_params) /\
    shape random_sample = [3; 4]%nat /\
    shape true_params = [4%nat].
Proof.
  destruct (C5_basic_sample_replicated sample_files Z unit (fun z => z) (fun _ => 0%Z)
              mean_draws tt "coef.csv" "cov.csv" 3 (Some 12345%Z)
              (mk_csv None (mk_df ["hhiorigin"; "hhidest"] [[1.5; 0.5]]%Q))
              (mk_csv (Some ["hhiorigin"; "hhidest"])
                 (mk_df ["hhiorigin"; "hhidest"] [[1; 0]; [0; 1]]%Q))
              [1.5; 0.5]%Q [[1; 0]; [0; 1]]%Q
              (array2 2 (repeat [1.5; 0.5]%Q 3))
              eq_refl eq_refl eq_refl eq_refl eq_refl eq_refl eq_refl eq_refl)
    as (rs & tp & H & Hsh & _ & Htp & _).
  exists rs, tp. split; [exact H|]. split; [exact Hsh | exact Htp].
Defined.

(** C9. With an integer seed the samplers are deterministic: two
    invocations with the same arguments, reading files with the same
    contents, return the same draw matrix and the same true_params, whatever
    the state of the operating system's entropy source at either
    invocation. *)
Theorem C9_sampler_deterministic
    (read_csv1 read_csv2 : string -> result csv_table)
    (bit_generator entropy : Type)
    (seeded : Z -> bit_generator) (unseeded : entropy -> bit_generator)
    (multivariate_normal :
       bit_generator -> list Q -> list (list Q) -> nat -> mvn_method -> result ndarray)
    (os1 os2 : entropy) (coef_path cov_path : string) (num_sims seed : Z) :
  read_csv1 coef_path = read_csv2 coef_path ->
  read_csv1 cov_path = read_csv2 cov_path ->
  basic_random_sample read_csv1 bit_generator entropy seeded unseeded multivariate_normal
    os1 coef_path cov_path num_sims (Some seed) =
  basic_random_sample read_csv2 bit_generator entropy seeded unseeded multivariate_normal
    os2 coef_path cov_path num_sims (Some seed) /\
  hub_random_sample read_csv1 bit_generator entropy seeded unseeded multivariate_normal
    os1 coef_path cov_path num_sims (Some seed) =
  hub_random_sample read_csv2 bit_generator entropy seeded unseeded multivariate_normal
    os2 coef_path cov_path num_sims (Some seed).
Proof.
  intros Hcoef Hcov. unfold basic_random_sample, hub_random_sample, default_rng.
  rewrite Hcoef, Hcov. split; reflexivity.
Qed.

Lemma C9_sampler_deterministic_witness :
  basic_random_sample sample_files Z bool (fun z => z) (fun b : bool => if b then 1%Z else 0%Z)
    mean_draws true "coef.csv" "cov.csv" 3 (Some 12345%Z) =
  basic_random_sample
    (fun path => if String.eqb path "other.csv" then Raise (KeyError path)
                 else sample_files path)
    Z bool (fun z => z) (fun b : bool => if b then 1%Z else 0%Z)
    mean_draws false "coef.csv" "cov.csv" 3 (Some 12345%Z).
Proof.
  apply (C9_sampler_deterministic sample_files
           (fun path => if String.eqb path "other.csv" then Raise (KeyError path)
                        else sample_files path)
           Z bool (fun z => z) (fun b : bool => if b then 1%Z else 0%Z) mean_draws
           true false "coef.csv" "cov.csv" 3 12345 eq_refl eq_refl).
Defined.

End SamplerFacts.

(* ------------------------------------------------------------------ *)
(** ** The hub-stratified regressor *)

Module RegressorFacts.
Import Regressor.

(** *** Boolean masks *)

Lemma in_compress {A : Type} (mask : list bool) (a : list A) (x : A) :
  In x (compress mask a) <-> In (true, x) (combine mask a).
Proof.
  unfold compress. rewrite in_map_iff. split.
  - intros [[b y] [<- H]]. apply filter_In in H as [H Hb]. simpl in Hb |- *.
    rewrite Hb in H. exact H.
  - intros H. exists (true, x). split; [reflexivity|]. apply filter_In. auto.
Qed.

Lemma in_compress_source {A : Type} (mask : list bool) (a : list A) (x : A) :
  In x (compress mask a) -> In x a.
Proof. rewrite in_compress. apply in_combine_r. Qed.

Lemma in_compress_at {A : Type} (mask : list bool) (a : list A) (i : nat) (d : A) :
  length mask = length a -> (i < length a)%nat -> nth i mask false = true ->
  In (nth i a d) (compress mask a).
Proof.
  intros Hlen Hi Hm. apply in_compress. rewrite <- Hm.
  rewrite <- (combine_nth mask a i false d Hlen). apply nth_In.
  rewrite length_combine. lia.
Qed.

Lemma any_nonpositive_iff (w : list Q) :
  any_nonpositive w = true <-> exists x, In x w /\ (x <= 0)%Q.
Proof.
  unfold any_nonpositive. rewrite existsb_exists. split.
  - intros [x [Hin Hx]]. exists x. split; [exact Hin|]. apply Qle_bool_iff. exact Hx.
  - intros [x [Hin Hx]]. exists x. split; [exact Hin|]. apply Qle_bool_iff. exact Hx.
Qed.

Lemma any_nonpositive_false (w : list Q) :
  (forall x, In x w -> (0 < x)%Q) -> any_nonpositive w = false.
Proof.
  intros H. destruct (any_nonpositive w) eqn:E; [|reflexivity].
  apply any_nonpositive_iff in E as [x [Hin Hx]]. specialize (H x Hin). lra.
Qed.

Lemma hub_ind_length hs hub : length (hub_ind hs hub) = length hs.
Proof. unfold hub_ind. apply length_map. Qed.

Lemma nonpositive_in_some_hub (hs w : list Q) :
  length w = length hs -> hubs_in_range hs ->
  (exists x, In x w /\ (x <= 0)%Q) <->
  (exists hub, (hub < 4)%nat /\ any_nonpositive (compress (hub_ind hs hub) w) = true).
Proof.
  intros Hlen Hrange. split.
  - intros [x [Hin Hx]]. apply (In_nth _ _ 0%Q) in Hin as [i [Hi <-]].
    assert (Hh : In (nth i hs 0%Q) hs) by (apply nth_In; lia).
    unfold hubs_in_range in Hrange. rewrite Forall_forall in Hrange.
    destruct (Hrange _ Hh) as [k [Hk Hkeq]].
    exists k. split; [exact Hk|]. apply any_nonpositive_iff.
    exists (nth i w 0%Q). split; [|exact Hx].
    apply in_compress_at; [rewrite hub_ind_length; lia | exact Hi |].
    unfold hub_ind. rewrite (nth_map_in _ _ _ 0%Q) by lia.
    apply Qeq_bool_iff. exact Hkeq.
  - intros [hub [_ H]]. apply any_nonpositive_iff in H as [x [Hin Hx]].
    exists x. split; [|exact Hx]. eapply in_compress_source; eauto.
Qed.

(** *** Sequencing *)

Lemma mapM_raises_in {A B : Type} (f : A -> result B) (l : list A) (a : A) :
  In a l -> raises (f a) -> raises (mapM f l).
Proof.
  induction l as [|a' l IH]; intros Hin Hr; [contradiction|]. simpl.
  destruct (f a') as [b|e] eqn:E; simpl; [|eexists; reflexivity].
  destruct Hin as [->|Hin].
  - destruct Hr as [e Hr]. congruence.
  - destruct (IH Hin Hr) as [e ->]. simpl. eexists; reflexivity.
Qed.

Lemma mapM_first_error {A B : Type} (f : A -> result B) (l : list A) (e0 : exception) :
  (forall a, In a l -> returns (f a) \/ f a = Raise e0) ->
  (exists a, In a l /\ f a = Raise e0) ->
  mapM f l = Raise e0.
Proof.
  induction l as [|a l IH]; intros Hall [x [Hin Hx]]; [contradiction|]. simpl.
  destruct (Hall a (or_introl eq_refl)) as [[b Hb]|Hb]; rewrite Hb; simpl; [|reflexivity].
  destruct Hin as [->|Hin]; [congruence|].
  rewrite IH; [reflexivity | intros; apply Hall; right; assumption | eauto].
Qed.

Lemma mapM_Ok_nth {A B : Type} (f : A -> result B) (l : list A) (bs : list B)
    (i : nat) (d : A) (e : B) :
  mapM f l = Ok bs -> (i < length l)%nat -> f (nth i l d) = Ok (nth i bs e).
Proof.
  revert bs i. induction l as [|a l IH]; intros bs i H Hi; [simpl in Hi; lia|].
  simpl in H. apply bind_Ok_inv in H as [b [Hb H]].
  apply bind_Ok_inv in H as [bs' [Hbs H]]. injection H as <-.
  destruct i as [|i]; simpl; [exact Hb|]. apply IH; [exact Hbs | simpl in Hi; lia].
Qed.

(** *** The call on aligned inputs *)

Section WithStatsmodels.

Variable OLS_fit : list Q -> list (list Q) -> result (Q * Q).
Variable WLS_fit : list Q -> list (list Q) -> list Q -> result (Q * Q).

Variables market_share hub_size effect : ndarray.
Variables n columns : nat.
Hypothesis Hms : length (flat market_share) = n.
Hypothesis Hhs : length (flat hub_size) = n.
Hypothesis Heff : shape effect = [n; columns].

Let ms := flat market_share.
Let hs := flat hub_size.
Let mask := fun hub => hub_ind hs hub.
Let y := fun hub column => effect_hub (rows_of effect) (mask hub) column.
Let X := fun hub => design (compress (mask hub) ms).

Lemma find_slopes_aligned (weights : option ndarray) :
  match weights with Some w => length (flat w) = n | None => True end ->
  find_slopes OLS_fit WLS_fit market_share hub_size effect weights =
  (per_hub <- mapM (hub_body OLS_fit WLS_fit ms hs (rows_of effect)
                      (option_map flat weights) columns) (seq 0 4) ;;
   Ok (pack per_hub)).
Proof.
  intros Hw. unfold find_slopes. rewrite Heff. fold ms hs.
  unfold ms, hs. rewrite Hms, Hhs, !Nat.eqb_refl. cbn [negb orb].
  destruct weights as [w|]; cbn [option_map bind].
  - rewrite Hw, Nat.eqb_refl. cbn [negb bind]. reflexivity.
  - reflexivity.
Qed.

(** The summary statistics of a non-empty vector are computed. *)
Lemma stats_of_nonempty (v : list Q) :
  (1 <= length v)%nat -> returns (stats_of v).
Proof.
  destruct v as [|x v]; cbn [length]; [lia|]. intros _.
  unfold stats_of, percentile. cbn [bind]. eexists. reflexivity.
Qed.

(** One stratum, when there is a simulation column and its regressions
    succeed: the guard decides. *)
Lemma hub_body_guarded (w : option (list Q)) (hub : nat) :
  (1 <= columns)%nat ->
  (forall column, (column < columns)%nat ->
     returns (fit OLS_fit WLS_fit (option_map (compress (mask hub)) w) (y hub column) (X hub))) ->
  match w with
  | Some wv =>
      if any_nonpositive (compress (mask hub) wv)
      then hub_body OLS_fit WLS_fit ms hs (rows_of effect) w columns hub
           = Raise (ValueError nonpositive_msg)
      else returns (hub_body OLS_fit WLS_fit ms hs (rows_of effect) w columns hub)
  | None => returns (hub_body OLS_fit WLS_fit ms hs (rows_of effect) w columns hub)
  end.
Proof.
  intros Hcol Hfit.
  assert (Hparams : returns (mapM (fun column =>
              fit OLS_fit WLS_fit (option_map (compress (mask hub)) w) (y hub column) (X hub))
              (seq 0 columns))).
  { apply mapM_total. intros c Hc. apply in_seq in Hc. apply Hfit. lia. }
  destruct Hparams as [params Hparams].
  assert (Hlen : length params = columns).
  { pose proof (mapM_Ok_length _ _ _ Hparams) as L. rewrite length_seq in L. exact L. }
  destruct (stats_of_nonempty (map fst params)) as [si Hsi]; [rewrite length_map; lia|].
  destruct (stats_of_nonempty (map snd params)) as [ss Hss]; [rewrite length_map; lia|].
  unfold hub_body. fold (mask hub). fold (X hub).
  destruct w as [wv|]; cbn [option_map] in Hparams.
  - destruct (any_nonpositive (compress (mask hub) wv)); cbn [bind]; [reflexivity|].
    unfold y in Hparams. rewrite Hparams. cbn [bind]. rewrite Hsi, Hss. cbn [bind].
    eexists. reflexivity.
  - cbn [bind]. unfold y in Hparams. rewrite Hparams. cbn [bind]. rewrite Hsi, Hss.
    cbn [bind]. eexists. reflexivity.
Qed.

(** What a returned stratum holds: the fitted pairs, column by column. *)
Lemma hub_body_Ok (w : option (list Q)) (hub : nat) sv iv sm column :
  hub_body OLS_fit WLS_fit ms hs (rows_of effect) w columns hub = Ok (sv, iv, sm) ->
  (column < columns)%nat ->
  fit OLS_fit WLS_fit (option_map (compress (mask hub)) w) (y hub column) (X hub)
  = Ok (nth column iv 0%Q, nth column sv 0%Q).
Proof.
  unfold hub_body. fold (mask hub). fold (X hub). intros H Hc.
  apply bind_Ok_inv in H as [w_hub [Hw H]].
  apply bind_Ok_inv in H as [params [Hparams H]]. cbv zeta in H.
  apply bind_Ok_inv in H as [si [_ H]].
  apply bind_Ok_inv in H as [ss [_ H]]. injection H as <- <- _.
  assert (Hwh : w_hub = option_map (compress (mask hub)) w).
  { destruct w as [wv|]; cbn [option_map].
    - destruct (any_nonpositive (compress (mask hub) wv)); [discriminate|].
      injection Hw as <-. reflexivity.
    - injection Hw as <-. reflexivity. }
  subst w_hub.
  pose proof (mapM_Ok_nth _ _ _ column O (0%Q, 0%Q) Hparams) as E.
  rewrite length_seq, seq_nth in E by exact Hc. specialize (E Hc). cbn [Nat.add] in E.
  unfold y. rewrite E.
  replace (nth column (map fst params) 0%Q) with (fst (nth column params (0%Q, 0%Q)))
    by (symmetry; exact (map_nth fst params (0%Q, 0%Q) column)).
  replace (nth column (map snd params) 0%Q) with (snd (nth column params (0%Q, 0%Q)))
    by (symmetry; exact (map_nth snd params (0%Q, 0%Q) column)).
  destruct (nth column params (0%Q, 0%Q)); reflexivity.
Qed.

(** A non-positive weight stops its stratum at the guard. *)
Lemma hub_body_nonpositive (wv : list Q) (hub : nat) :
  any_nonpositive (compress (mask hub) wv) = true ->
  hub_body OLS_fit WLS_fit ms hs (rows_of effect) (Some wv) columns hub
  = Raise (ValueError nonpositive_msg).
Proof.
  intros H. unfold hub_body. fold (mask hub). rewrite H. reflexivity.
Qed.

(** C8.  On aligned inputs (N observations, an (N, S) effect
    matrix, N weights) whose hub sizes are all in {0, 1, 2, 3}:
    - a weight <= 0 always makes the call raise;
    - when there is at least one simulation column (S >= 1) and the
      statsmodels fits themselves succeed, the call raises if and only if
      some weight is <= 0, the error is then the non-positive-weights
      ValueError, and with all weights > 0 the call returns;
    - whatever the call returns with weights present was fitted by weighted
      least squares on the rows of each stratum with the weights sliced by
      hub, all weights being > 0;
    - with [weights=None] and S >= 1 the call returns when the fits succeed,
      and what it returns was fitted by ordinary least squares.
    (With S = 0 the summary percentiles of an empty vector raise, whatever
    the weights are.) *)
Theorem C8_weights_guard (weights : ndarray) :
  length (flat weights) = n ->
  hubs_in_range (flat hub_size) ->
  let with_weights :=
    find_slopes OLS_fit WLS_fit market_share hub_size effect (Some weights) in
  let without_weights :=
    find_slopes OLS_fit WLS_fit market_share hub_size effect None in
  let some_nonpositive := exists x, In x (flat weights) /\ (x <= 0)%Q in
  (some_nonpositive -> raises with_weights) /\
  ((1 <= columns)%nat ->
   (forall hub column, (hub < 4)%nat -> (column < columns)%nat ->
      returns (WLS_fit (stratum_y effect hub_size hub column)
                 (stratum_X market_share hub_size hub) (stratum_w weights hub_size hub))) ->
   (some_nonpositive <-> raises with_weights) /\
   (some_nonpositive -> with_weights = Raise (ValueError nonpositive_msg)) /\
   ((forall x, In x (flat weights) -> (0 < x)%Q) -> returns with_weights)) /\
  (forall slope_mat intercept_mat summary_list,
     with_weights = Ok (slope_mat, intercept_mat, summary_list) ->
     (forall x, In x (flat weights) -> (0 < x)%Q) /\
     length slope_mat = 4%nat /\ length intercept_mat = 4%nat /\
     forall hub column, (hub < 4)%nat -> (column < columns)%nat ->
       WLS_fit (stratum_y effect hub_size hub column)
         (stratum_X market_share hub_size hub) (stratum_w weights hub_size hub)
       = Ok (nth column (nth hub intercept_mat []) 0%Q,
             nth column (nth hub slope_mat []) 0%Q)) /\
  ((1 <= columns)%nat ->
   (forall hub column, (hub < 4)%nat -> (column < columns)%nat ->
      returns (OLS_fit (stratum_y effect hub_size hub column)
                 (stratum_X market_share hub_size hub))) ->
   returns without_weights) /\
  (forall slope_mat intercept_mat summary_list,
     without_weights = Ok (slope_mat, intercept_mat, summary_list) ->
     length slope_mat = 4%nat /\ length intercept_mat = 4%nat /\
     forall hub column, (hub < 4)%nat -> (column < columns)%nat ->
       OLS_fit (stratum_y effect hub_size hub column)
         (stratum_X market_share hub_size hub)
       = Ok (nth column (nth hub intercept_mat []) 0%Q,
             nth column (nth hub slope_mat []) 0%Q)).
Proof.
  intros Hw Hrange with_weights without_weights some_nonpositive.
  set (d := (@nil Q, @nil Q, (O, mk_summary O nan_stats nan_stats))).
  (* every returned call holds the fitted pairs *)
  assert (Hvalues : forall (w : option (list Q)) per_hub,
            mapM (hub_body OLS_fit WLS_fit ms hs (rows_of effect) w columns) (seq 0 4)
            = Ok per_hub ->
            length (fst (fst (pack per_hub))) = 4%nat /\
            length (snd (fst (pack per_hub))) = 4%nat /\
            forall hub column, (hub < 4)%nat -> (column < columns)%nat ->
              fit OLS_fit WLS_fit (option_map (compress (mask hub)) w) (y hub column) (X hub)
              = Ok (nth column (nth hub (snd (fst (pack per_hub))) []) 0%Q,
                    nth column (nth hub (fst (fst (pack per_hub))) []) 0%Q)).
  { intros w per_hub Hper. pose proof (mapM_Ok_length _ _ _ Hper) as Hlen.
    rewrite length_seq in Hlen. unfold pack. cbn [fst snd]. rewrite !length_map.
    split; [exact Hlen|]. split; [exact Hlen|]. intros hub column Hhub Hc.
    pose proof (mapM_Ok_nth _ _ _ hub O d Hper) as E.
    rewrite length_seq, seq_nth in E by exact Hhub. specialize (E Hhub). cbn [Nat.add] in E.
    rewrite !(nth_map_in _ _ _ d) by lia.
    destruct (nth hub per_hub d) as [[sv iv] sm]. cbn [fst snd].
    eapply hub_body_Ok; eauto. }
  pose proof (find_slopes_aligned (Some weights) Hw) as Ecall. cbn [option_map] in Ecall.
  fold with_weights in Ecall.
  pose proof (find_slopes_aligned None I) as Enone. cbn [option_map] in Enone.
  fold without_weights in Enone.
  assert (Hpositive_or : (forall x, In x (flat weights) -> (0 < x)%Q) \/ some_nonpositive).
  { destruct (any_nonpositive (flat weights)) eqn:Eany.
    - right. apply any_nonpositive_iff. exact Eany.
    - left. intros x Hx. destruct (Qlt_le_dec 0 x) as [Hlt|Hle]; [exact Hlt|].
      assert (Et : any_nonpositive (flat weights) = true)
        by (apply any_nonpositive_iff; eauto).
      congruence. }
  (* a non-positive weight always raises *)
  assert (Hraise : some_nonpositive -> raises with_weights).
  { intros Hex.
    apply (nonpositive_in_some_hub hs) in Hex as [hub [Hhub Hany]];
      [|unfold hs; lia | exact Hrange].
    assert (R : raises (mapM (hub_body OLS_fit WLS_fit ms hs (rows_of effect)
                                (Some (flat weights)) columns) (seq 0 4))).
    { apply (mapM_raises_in _ _ hub); [apply in_seq; lia|].
      rewrite (hub_body_nonpositive _ _ Hany). eexists. reflexivity. }
    destruct R as [e R]. rewrite Ecall, R. eexists. reflexivity. }
  split; [exact Hraise|].
  split.
  { intros Hcol HWLS.
    assert (Hguard : forall hub, (hub < 4)%nat ->
              if any_nonpositive (compress (mask hub) (flat weights))
              then hub_body OLS_fit WLS_fit ms hs (rows_of effect) (Some (flat weights))
                     columns hub = Raise (ValueError nonpositive_msg)
              else returns (hub_body OLS_fit WLS_fit ms hs (rows_of effect)
                              (Some (flat weights)) columns hub)).
    { intros hub Hhub. apply (hub_body_guarded (Some (flat weights)) hub Hcol).
      intros column Hc. apply (HWLS hub column Hhub Hc). }
    assert (Hgood : (forall x, In x (flat weights) -> (0 < x)%Q) -> returns with_weights).
    { intros Hall.
      assert (R : returns (mapM (hub_body OLS_fit WLS_fit ms hs (rows_of effect)
                                   (Some (flat weights)) columns) (seq 0 4))).
      { apply mapM_total. intros h Hh. apply in_seq in Hh.
        specialize (Hguard h ltac:(lia)).
        rewrite any_nonpositive_false in Hguard; [exact Hguard|].
        intros x Hx. apply Hall. eapply in_compress_source; eauto. }
      destruct R as [per_hub R]. rewrite Ecall, R. eexists. reflexivity. }
    split; [|split].
    - split; [exact Hraise|]. intros [e Hr].
      destruct Hpositive_or as [Hall|Hex]; [|exact Hex].
      destruct (Hgood Hall) as [r Hret]. congruence.
    - intros Hex. rewrite Ecall.
      apply (nonpositive_in_some_hub hs) in Hex as [hub [Hhub Hany]];
        [|unfold hs; lia | exact Hrange].
      rewrite (mapM_first_error _ _ (ValueError nonpositive_msg)); [reflexivity| |].
      + intros h Hh. apply in_seq in Hh. specialize (Hguard h ltac:(lia)).
        destruct (any_nonpositive (compress (mask h) (flat weights))); auto.
      + exists hub. split; [apply in_seq; lia|]. apply hub_body_nonpositive. exact Hany.
    - exact Hgood. }
  split.
  { intros sm im sl Hret. split.
    - destruct Hpositive_or as [Hall|Hex]; [exact Hall|].
      destruct (Hraise Hex) as [e Hr]. congruence.
    - rewrite Ecall in Hret. apply bind_Ok_inv in Hret as [per_hub [Hper Hret]].
      injection Hret as <- <- <-. exact (Hvalues _ _ Hper). }
  split.
  { intros Hcol HOLS.
    assert (R : returns (mapM (hub_body OLS_fit WLS_fit ms hs (rows_of effect) None columns)
                           (seq 0 4))).
    { apply mapM_total. intros h Hh. apply in_seq in Hh.
      apply (hub_body_guarded None h Hcol). intros column Hc. apply (HOLS h column); lia. }
    destruct R as [per_hub R]. rewrite Enone, R. eexists. reflexivity. }
  intros sm im sl Hret.
  rewrite Enone in Hret. apply bind_Ok_inv in Hret as [per_hub [Hper Hret]].
  injection Hret as <- <- <-. exact (Hvalues _ _ Hper).
Qed.

End WithStatsmodels.

Lemma C8_weights_guard_witness :
  let market_share := array1 [0.6; 0.4; 0.7; 0.3; 1; 1]%Q in
  let hub_size := array1 [0; 0; 1; 2; 3; 3]%Q in
  let effect := mk_ndarray [6; 1]%nat [0.32; -0.72; 0.1; 0.2; 0; 0]%Q in
  raises (find_slopes flat_OLS flat_WLS market_share hub_size effect
            (Some (array1 [1; 2; 0; 1; 1; 1]%Q))) /\
  returns (find_slopes flat_OLS flat_WLS market_share hub_size effect
             (Some (array1 [1; 2; 3; 1; 1; 1]%Q))).
Proof.
  intros market_share hub_size effect.
  assert (Hrange : hubs_in_range (flat hub_size)).
  { repeat constructor;
      first [ exists 0%nat; split; [lia | reflexivity]
            | exists 1%nat; split; [lia | reflexivity]
            | exists 2%nat; split; [lia | reflexivity]
            | exists 3%nat; split; [lia | reflexivity] ]. }
  split.
  - destruct (C8_weights_guard flat_OLS flat_WLS market_share hub_size effect 6 1
                eq_refl eq_refl eq_refl (array1 [1; 2; 0; 1; 1; 1]%Q) eq_refl Hrange)
      as (Hraise & _).
    apply Hraise. exists 0%Q. split; [simpl; tauto | apply Qle_refl].
  - destruct (C8_weights_guard flat_OLS flat_WLS market_share hub_size effect 6 1
                eq_refl eq_refl eq_refl (array1 [1; 2; 3; 1; 1; 1]%Q) eq_refl Hrange)
      as (_ & Hfits & _).
    destruct Hfits as (_ & _ & Hgood); [lia | intros; eexists; reflexivity|].
    apply Hgood. intros x Hx. simpl in Hx.
    repeat (destruct Hx as [<-|Hx]; [reflexivity|]). contradiction.
Defined.

(** With every weight strictly positive and every hub size in {0, 1, 2, 3}
    the call can still raise a ValueError: when the arrays do not align on
    their first dimension, and when a stratum has no observation and the
    regression on the empty input fails. *)
Lemma C8_raises_with_positive_weights :
  (hubs_in_range [0%Q] /\
   (forall x, In x [1%Q] -> (0 < x)%Q) /\
   find_slopes flat_OLS flat_WLS (array1 [0.6; 0.4]%Q) (array1 [0%Q])
     (mk_ndarray [2; 1]%nat [0.32; -0.72]%Q) (Some (array1 [1%Q]))
   = Raise (ValueError align_msg)) /\
  (hubs_in_range [0; 0]%Q /\
   (forall x, In x [1; 1]%Q -> (0 < x)%Q) /\
   find_slopes strict_OLS strict_WLS (array1 [0.6; 0.4]%Q) (array1 [0; 0]%Q)
     (mk_ndarray [2; 1]%nat [0.32; -0.72]%Q) (Some (array1 [1; 1]%Q))
   = Raise (ValueError empty_msg)).
Proof.
  split; split.
  - repeat constructor. exists 0%nat. split; [lia | reflexivity].
  - split; [|reflexivity]. intros x [<-|[]]. reflexivity.
  - repeat constructor; exists 0%nat; split; (lia || reflexivity).
  - split; [|reflexivity]. intros x [<-|[<-|[]]]; reflexivity.
Qed.

End RegressorFacts.


(* ------------------------------------------------------------------ *)
(** ** More on the effect propagator *)

Module PropagatorMore.
Import Propagator PropagatorFacts TrueEffectFacts.

(** *** Which calls raise, and what *)

Lemma missing_columns_nil_iff df req :
  missing_columns df req = [] <-> (forall c, In c req -> has_column df c = true).
Proof.
  split; [|apply missing_columns_nil].
  intros H c Hc. destruct (has_column df c) eqn:E; [reflexivity|]. exfalso.
  assert (Hin : In c (missing_columns df req)).
  { apply filter_In. rewrite E. auto. }
  rewrite H in Hin. exact Hin.
Qed.





(** *** The others vector is the sum over the other airlines *)

Lemma vsum_acc (l : list Q) (a : Q) : (fold_left Qplus l a == a + vsum l)%Q.
Proof.
  unfold vsum. revert a. induction l as [|x l IH]; intros a; simpl.
  - ring.
  - rewrite IH, (IH (0 + x)%Q). ring.
Qed.

Lemma vsum_cons (x : Q) (l : list Q) : (vsum (x :: l) == x + vsum l)%Q.
Proof. unfold vsum at 1. simpl. rewrite vsum_acc. ring. Qed.

Lemma vsum_split_at (f : nat -> Q) (l : list nat) (i : nat) :
  NoDup l -> In i l ->
  (vsum (map f l) == f i + vsum (map f (filter (fun j => negb (j =? i)%nat) l)))%Q.
Proof.
  induction l as [|a l IH]; intros Hnd Hin; [contradiction|].
  inversion Hnd as [|? ? Hna Hnd']; subst. cbn [map filter]. rewrite vsum_cons.
  destruct (Nat.eqb_spec a i) as [->|Hne]; cbn [negb].
  - f_equiv. f_equiv. f_equal. symmetry.
    rewrite <- (filter_ext_in (fun _ => true)).
    + clear. induction l; simpl; congruence.
    + intros j Hj. destruct (Nat.eqb_spec j i) as [->|]; [contradiction | reflexivity].
  - destruct Hin as [->|Hin]; [congruence|].
    cbn [map]. rewrite vsum_cons, (IH Hnd' Hin). ring.
Qed.

Lemma nth_map2 {A B C : Type} (f : A -> B -> C) l m i (a : A) (b : B) (c : C) :
  (i < length l)%nat -> (i < length m)%nat ->
  nth i (map2 f l m) c = f (nth i l a) (nth i m b).
Proof.
  revert m i. induction l as [|x l IH]; intros [|y m] i Hl Hm; simpl in *; try lia.
  destruct i; [reflexivity|]. apply IH; lia.
Qed.

Lemma vadd_length u v k : length u = k -> length v = k -> length (vadd u v) = k.
Proof. intros Hu Hv. unfold vadd. rewrite map2_length. lia. Qed.

Lemma nth_fold_vadd (k b : nat) (m : list (list Q)) (acc : list Q) :
  Forall (fun r => length r = k) m -> length acc = k -> (b < k)%nat ->
  (nth b (fold_left vadd m acc) 0 == nth b acc 0 + vsum (map (fun r => nth b r 0%Q) m))%Q.
Proof.
  intros Hm. revert acc. induction Hm as [|r m Hr _ IH]; intros acc Hacc Hb.
  - cbn. unfold vsum. simpl. ring.
  - cbn [fold_left map]. rewrite IH by (auto using vadd_length).
    rewrite vsum_cons. unfold vadd. rewrite (nth_map2 _ _ _ _ 0%Q 0%Q) by lia. ring.
Qed.

Lemma nth_repeat_zero (k b : nat) : nth b (repeat 0%Q k) 0%Q = 0%Q.
Proof.
  revert b. induction k as [|k IH]; intros [|b]; simpl; auto.
Qed.

(** X3. The others vector, computed as the market total less the
    observation's own contribution, is the sum over the other airlines of
    the market: for observation i and hub bin b,
    others_i[b] = sum over j <> i of share_j * hub_dummy_j[b]. *)
Theorem X3_others_is_sum_over_other_airlines
    (nbins : nat) (s : list Q) (I : list (list Q)) (i b : nat) :
  length I = length s ->
  Forall (fun r => length r = nbins) I ->
  (i < length s)%nat -> (b < nbins)%nat ->
  (nth b (nth i (others_by_bin nbins s I) []) 0
   == sum_over_others (length s) i (fun j => nth j s 0 * nth b (nth j I []) 0))%Q.
Proof.
  intros Hlen HI Hi Hb.
  set (sI := map2 vscale s I).
  assert (HsI : Forall (fun r => length r = nbins) sI).
  { apply Forall_forall. intros r Hr. apply (In_nth _ _ []) in Hr as [j [Hj <-]].
    unfold sI in Hj |- *. rewrite map2_length in Hj.
    rewrite (nth_map2 _ _ _ _ 0%Q []) by lia. unfold vscale. rewrite length_map.
    rewrite Forall_forall in HI. apply HI. apply nth_In. lia. }
  assert (HsIlen : length sI = length s).
  { unfold sI. rewrite map2_length. lia. }
  assert (Hentry : forall j, (j < length s)%nat ->
            nth b (nth j sI []) 0%Q = (nth j s 0 * nth b (nth j I []) 0)%Q).
  { intros j Hj. unfold sI. rewrite (nth_map2 _ _ _ _ 0%Q []) by lia.
    unfold vscale.
    assert (Hrow : length (nth j I []) = nbins).
    { rewrite Forall_forall in HI. apply HI. apply nth_In. lia. }
    rewrite (nth_map_in _ _ _ 0%Q) by lia. reflexivity. }
  unfold others_by_bin, S_total_by_bin. fold sI.
  rewrite (nth_map_in _ _ _ []) by lia.
  assert (Hrow : length (nth i sI []) = nbins).
  { rewrite Forall_forall in HsI. apply HsI. apply nth_In. lia. }
  assert (Htot : length (sum_axis0 nbins sI) = nbins).
  { unfold sum_axis0. clear - HsI. generalize (repeat_length 0%Q nbins).
    generalize (repeat 0%Q nbins). induction HsI as [|r m Hr _ IH]; intros acc Hacc;
      [exact Hacc|]. cbn [fold_left]. apply IH. apply vadd_length; assumption. }
  unfold vsub. rewrite (nth_map2 _ _ _ _ 0%Q 0%Q) by lia.
  unfold sum_axis0. rewrite (nth_fold_vadd nbins) by (auto using repeat_length).
  rewrite nth_repeat_zero, Hentry by exact Hi.
  assert (Hmap : map (fun r => nth b r 0%Q) sI
                 = map (fun j => (nth j s 0 * nth b (nth j I []) 0)%Q) (seq 0 (length s))).
  { rewrite <- HsIlen. clear - Hentry HsIlen.
    apply (nth_ext _ _ 0%Q 0%Q); [rewrite !length_map, length_seq; reflexivity|].
    intros j Hj. rewrite length_map in Hj.
    rewrite (nth_map_in _ _ _ []) by exact Hj.
    rewrite (nth_map_in _ _ _ O) by (rewrite length_seq; exact Hj).
    rewrite seq_nth by exact Hj. apply Hentry. lia. }
  rewrite Hmap. unfold sum_over_others.
  rewrite (vsum_split_at _ (seq 0 (length s)) i) by (auto using seq_NoDup; apply in_seq; lia).
  ring.
Qed.

Lemma X3_others_is_sum_over_other_airlines_witness :
  (nth 2 (nth 0 (others_by_bin 4 [0.5; 0.3; 0.2]%Q
                   [[0; 0; 0; 1]; [0; 0; 1; 0]; [0; 0; 1; 0]]%Q) []) 0 == 0.5)%Q.
Proof.
  rewrite (X3_others_is_sum_over_other_airlines 4 [0.5; 0.3; 0.2]%Q
             [[0; 0; 0; 1]; [0; 0; 1; 0]; [0; 0; 1; 0]]%Q 0 2 eq_refl
             ltac:(repeat constructor) ltac:(simpl; lia) ltac:(lia)).
  reflexivity.
Defined.

(** *** One effect column per draw *)

Lemma rows_of_length rs S k : shape rs = [S; k] -> length (rows_of rs) = S.
Proof. intros H. unfold rows_of. rewrite H. apply chunks_length. Qed.

Lemma rows_of_single_draw rs S k s :
  shape rs = [S; k] -> (s < S)%nat ->
  rows_of (single_draw rs s) = [nth s (rows_of rs) []].
Proof.
  intros Hsh Hs. unfold single_draw, rows_of at 1. cbn [shape flat chunks].
  rewrite Hsh. cbn [nth]. f_equal. apply firstn_all2.
  unfold rows_of. rewrite Hsh, nth_chunks by exact Hs. rewrite length_firstn. lia.
Qed.

Lemma effect_mat_single (R : list (list Q)) (s : nat) (c1 : list Q) (others : list (list Q)) :
  (s < length R)%nat ->
  effect_mat c1 (comp_2 [nth s R []] others)
  = column_of s (effect_mat c1 (comp_2 R others)).
Proof.
  intros Hs. unfold comp_2. rewrite !transpose_matmul_T. unfold effect_mat, column_of.
  revert others. induction c1 as [|c c1 IH]; intros [|o others]; try reflexivity.
  cbn [map map2]. rewrite IH. f_equal. unfold vscale.
  rewrite (nth_map_in _ _ _ 0%Q) by (rewrite length_map; exact Hs).
  rewrite (nth_map_in _ _ _ []) by exact Hs. reflexivity.
Qed.

Lemma effect_mat_widths (R : list (list Q)) (c1 : list Q) (others : list (list Q)) :
  Forall (fun row => length row = length R) (effect_mat c1 (comp_2 R others)).
Proof.
  unfold comp_2. rewrite transpose_matmul_T. unfold effect_mat.
  revert others. induction c1 as [|c c1 IH]; intros [|o others]; try constructor.
  - unfold vscale. rewrite !length_map. reflexivity.
  - apply IH.
Qed.

Lemma block_of_single_draw rs gk hc S k s g b :
  shape rs = [S; k] -> (s < S)%nat ->
  block_of rs gk hc g = Ok b ->
  exists b_s, block_of (single_draw rs s) gk hc g = Ok b_s /\ block_at S s b b_s.
Proof.
  intros Hsh Hs H. unfold block_of in H |- *.
  apply bind_Ok_inv in H as [sv [Hsv H]]. rewrite Hsv. cbn [bind].
  apply bind_Ok_inv in H as [I [HI H]]. rewrite HI. cbn [bind].
  apply bind_Ok_inv in H as [hhi [Hhhi H]]. rewrite Hhhi. cbn [bind].
  apply bind_Ok_inv in H as [mf [Hmf H]]. rewrite Hmf. cbn [bind].
  apply bind_Ok_inv in H as [ahs [Hahs H]]. rewrite Hahs. cbn [bind].
  apply bind_Ok_inv in H as [gid [Hgid H]]. rewrite Hgid. cbn [bind].
  injection H as <-. eexists. split; [reflexivity|].
  unfold block_at. cbn [blk_monthly_flights blk_market_share blk_airport_hub_size
                        blk_group_id blk_effect].
  repeat (split; [reflexivity|]).
  exists (effect_mat (comp_1 sv hhi)
            (comp_2 (rows_of rs) (others_by_bin (length hc) sv I))).
  pose proof (rows_of_length rs S k Hsh) as HR.
  split; [rewrite Hsh; reflexivity|]. split.
  - rewrite <- HR. apply effect_mat_widths.
  - rewrite (rows_of_single_draw rs S k s Hsh Hs).
    rewrite effect_mat_single by (rewrite HR; exact Hs). reflexivity.
Qed.

Lemma concat_map_concat {A : Type} (l : list (list (list A))) :
  concat (map (@concat A) l) = concat (concat l).
Proof.
  induction l as [|x l IH]; [reflexivity|]. cbn [map concat].
  rewrite concat_app, IH. reflexivity.
Qed.

Lemma column_of_concat (s : nat) (effs : list (list (list Q))) :
  concat (map (column_of s) effs) = column_of s (concat effs).
Proof.
  unfold column_of. induction effs as [|e effs IH]; [reflexivity|].
  cbn [map concat]. rewrite map_app, IH. reflexivity.
Qed.

(** X4. Each column of the effect matrix is computed from its own draw
    only: calling the propagator with row s of the draw matrix alone returns
    the same four parallel arrays and, as its single effect column, column s
    of the effect matrix of the full call. *)
Theorem X4_effect_column_uses_its_draw_only
    (df : DataFrame) (rs : ndarray) (gk hc : list string) (S k s : nat) (out : output) :
  shape rs = [S; k] ->
  (s < S)%nat ->
  determine_effect_coeff df rs gk hc = Ok out ->
  exists out_s N,
    determine_effect_coeff df (single_draw rs s) gk hc = Ok out_s /\
    out_monthly_flights out_s = out_monthly_flights out /\
    out_market_share out_s = out_market_share out /\
    out_airport_hub_size out_s = out_airport_hub_size out /\
    out_group_id out_s = out_group_id out /\
    shape (out_effect out) = [N; S] /\
    shape (out_effect out_s) = [N; 1%nat] /\
    forall i, (i < N)%nat -> at2 (out_effect out_s) i 0 = at2 (out_effect out) i s.
Proof.
  intros Hsh Hs H.
  apply determine_effect_coeff_Ok_inv in H as (Hdim & Hcols & Hmiss & groups & bs & Hg & Hbs & ->).
  destruct (mapM_project _ (block_of (single_draw rs s) gk hc) (block_at S s) _ _
              ltac:(intros g b _ Hb; exact (block_of_single_draw rs gk hc S k s g b Hsh Hs Hb))
              Hbs)
    as [bs_s [Hbs_s Frel]].
  assert (Hout_s : determine_effect_coeff df (single_draw rs s) gk hc
                   = Ok (assemble (single_draw rs s) bs_s)).
  { apply determine_effect_coeff_Ok_intro with (groups := groups); auto. }
  exists (assemble (single_draw rs s) bs_s).
  assert (Hpar : map blk_monthly_flights bs_s = map blk_monthly_flights bs /\
                 map blk_market_share bs_s = map blk_market_share bs /\
                 map blk_airport_hub_size bs_s = map blk_airport_hub_size bs /\
                 map blk_group_id bs_s = map blk_group_id bs).
  { clear - Frel. induction Frel as [|b b_s bs bs_s Hb _ (I1 & I2 & I3 & I4)];
      [repeat split|].
    destruct Hb as (E1 & E2 & E3 & E4 & _). cbn [map].
    rewrite E1, E2, E3, E4, I1, I2, I3, I4. repeat split. }
  destruct Hpar as (P1 & P2 & P3 & P4).
  assert (Heffs : exists effs,
            map blk_effect bs = map (array2 S) effs /\
            map blk_effect bs_s = map (array2 1) (map (column_of s) effs) /\
            Forall (Forall (fun row => length row = S)) effs).
  { clear - Frel. induction Frel as [|b b_s bs bs_s Hb _ [effs (E1 & E2 & E3)]].
    - exists []. repeat split. constructor.
    - destruct Hb as (_ & _ & _ & _ & eff & Eb & Hw & Ebs).
      exists (eff :: effs). cbn [map]. rewrite Eb, Ebs, E1, E2.
      repeat split. constructor; assumption. }
  destruct Heffs as (effs & E1 & E2 & Hw).
  exists (length (concat effs)).
  split; [exact Hout_s|].
  destruct bs as [|b bs]; destruct bs_s as [|b_s bs_s];
    try (inversion Frel; fail).
  - destruct effs; [|discriminate]. unfold assemble. cbn [out_monthly_flights
      out_market_share out_airport_hub_size out_group_id out_effect].
    repeat (split; [reflexivity|]).
    split; [unfold np_empty_0; rewrite Hsh; reflexivity|].
    split; [reflexivity|]. intros i Hi. simpl in Hi. lia.
  - unfold assemble. cbn [out_monthly_flights out_market_share out_airport_hub_size
                           out_group_id out_effect].
    rewrite P1, P2, P3, P4, E1, E2.
    repeat (split; [reflexivity|]).
    destruct effs as [|eff effs]; [discriminate|].
    rewrite (vstack_blocks S eff effs).
    change (map (column_of s) (eff :: effs))
      with (column_of s eff :: map (column_of s) effs).
    rewrite (vstack_blocks 1 (column_of s eff) (map (column_of s) effs)).
    change (column_of s eff :: map (column_of s) effs)
      with (map (column_of s) (eff :: effs)).
    set (all := eff :: effs) in *.
    assert (HN : list_sum (map (@length (list Q)) all) = length (concat all))
      by (symmetry; apply concat_map_length).
    assert (HNs : list_sum (map (@length (list Q)) (map (column_of s) all))
                  = length (concat all)).
    { rewrite <- concat_map_length, column_of_concat. unfold column_of. apply length_map. }
    rewrite HN, HNs. split; [reflexivity|]. split; [reflexivity|].
    intros i Hi. unfold at2. cbn [shape flat nth].
    rewrite !concat_map_concat, column_of_concat.
    assert (Hrows : Forall (fun row => length row = S) (concat all)).
    { apply Forall_concat. exact Hw. }
    rewrite (SamplerFacts.nth_concat_uniform S) by (auto; lia).
    rewrite (SamplerFacts.nth_concat_uniform 1).
    + unfold column_of. rewrite (nth_map_in _ _ _ []) by exact Hi. reflexivity.
    + apply Forall_forall. intros row Hrow. unfold column_of in Hrow.
      apply in_map_iff in Hrow as [r [<- _]]. reflexivity.
    + unfold column_of. rewrite length_map. exact Hi.
    + lia.
Qed.

Lemma X4_effect_column_uses_its_draw_only_witness :
  exists out out_s,
    determine_effect_coeff mixed_table two_draws
      default_group_keys default_hub_dummy_cols = Ok out /\
    determine_effect_coeff mixed_table (single_draw two_draws 1)
      default_group_keys default_hub_dummy_cols = Ok out_s /\
    at2 (out_effect out_s) 2 0 = at2 (out_effect out) 2 1.
Proof.
  assert (H : returns (determine_effect_coeff mixed_table two_draws
                         default_group_keys default_hub_dummy_cols)).
  { eexists. vm_compute. reflexivity. }
  destruct H as [out H].
  destruct (X4_effect_column_uses_its_draw_only mixed_table two_draws
              default_group_keys default_hub_dummy_cols 2 4 1 out eq_refl ltac:(lia) H)
    as (out_s & N & Hs & _ & _ & _ & _ & Hsh & _ & Hcol).
  exists out, out_s. split; [exact H|]. split; [exact Hs|].
  apply Hcol. vm_compute in H. injection H as <-. cbn [out_effect shape] in Hsh.
  injection Hsh as <-. lia.
Defined.

(** *** The shadowed definition *)

Lemma superseded_loop rs groups acc :
  Superseded.loop rs groups acc
  = Propagator.loop rs Superseded.GROUP_KEYS Superseded.HUB_DUMMY_COLS groups acc.
Proof.
  revert acc. induction groups as [|g groups IH]; intros acc; [reflexivity|].
  cbn [Superseded.loop Propagator.loop]. destruct (len g <=? 1)%nat; [apply IH|].
  unfold loop_body.
  change (Superseded.block_of rs g)
    with (block_of rs Superseded.GROUP_KEYS Superseded.HUB_DUMMY_COLS g).
  destruct (block_of rs Superseded.GROUP_KEYS Superseded.HUB_DUMMY_COLS g); cbn [bind];
    [apply IH | reflexivity].
Qed.

(** X2. The first definition of determine_effect_coeff, which the second
    one shadows, is the second one called with group_keys = GROUP_KEYS and
    hub_dummy_cols = HUB_DUMMY_COLS: on every table and draw matrix the two
    return the same arrays or raise the same error. *)
Theorem X2_superseded_definition_agrees (df : DataFrame) (rs : ndarray) :
  Superseded.determine_effect_coeff_first df rs
  = determine_effect_coeff df rs Superseded.GROUP_KEYS Superseded.HUB_DUMMY_COLS.
Proof.
  unfold Superseded.determine_effect_coeff_first, determine_effect_coeff.
  change (length Superseded.HUB_DUMMY_COLS) with 4%nat.
  destruct (negb (ndim rs =? 2)%nat || negb (nth 1 (shape rs) 0 =? 4)%nat); [reflexivity|].
  unfold required_columns, missing_columns. cbv zeta.
  rewrite !filter_app, <- app_assoc.
  match goal with |- match ?m with _ => _ end = _ => destruct m end; [|reflexivity].
  destruct (groupby df Superseded.GROUP_KEYS true) as [groups|e]; cbn [bind]; [|reflexivity].
  rewrite superseded_loop. reflexivity.
Qed.

End PropagatorMore.

(* ------------------------------------------------------------------ *)
(** ** More on the point-estimate variant *)

Module TrueEffectMore.
Import Propagator TrueEffect PropagatorFacts TrueEffectFacts.

Lemma row_get_raises cols r c e : row_get cols r c = Raise e -> is_KeyError e.
Proof.
  unfold row_get. intros H. apply bind_Raise_inv in H as [H|[i [_ H]]]; [|discriminate].
  eapply loc_raises; eauto.
Qed.

Lemma row_body_raises tp cols n total r e :
  row_body tp cols n total r = Raise e -> is_KeyError e.
Proof.
  unfold row_body. intros H.
  repeat match type of H with
  | bind (mapM _ _) _ = Raise _ =>
      apply bind_Raise_inv in H as [H|[? [_ H]]];
      [apply mapM_Raise_inv in H as [? [_ H]]; eapply row_get_raises; eassumption|]
  | bind _ _ = Raise _ =>
      apply bind_Raise_inv in H as [H|[? [_ H]]];
      [eapply row_get_raises; eassumption|]
  end.
  discriminate.
Qed.

Lemma market_records_raises tp g e : market_records tp g = Raise e -> is_KeyError e.
Proof.
  unfold market_records, total_hub_market_share. intros H.
  apply bind_Raise_inv in H as [H|[total [_ H]]].
  - apply bind_Raise_inv in H as [H|[I [_ H]]]; [eapply frame_values_raises; eauto|].
    apply bind_Raise_inv in H as [H|[sv [_ H]]]; [eapply series_raises; eauto|].
    discriminate.
  - apply mapM_Raise_inv in H as [r [_ H]]. eapply row_body_raises; eauto.
Qed.

(** X5. The point-estimate variant raises its length ValueError exactly
    when true_params, flattened, does not have 4 entries; the check comes
    before the table is touched, and nothing later raises that error. *)
Theorem X5_true_params_length_guard (true_params : ndarray) (df : DataFrame) :
  determine_effect_coeff_true true_params df = Raise (ValueError length_msg)
  <-> length (flat true_params) <> 4%nat.
Proof.
  unfold determine_effect_coeff_true.
  destruct (Nat.eqb_spec (length (flat true_params)) 4) as [E|E]; cbn [negb].
  - split; [|congruence]. intros H. exfalso.
    apply bind_Raise_inv in H as [H|[groups [_ H]]].
    + apply groupby_raises in H as [H|[k H]]; discriminate.
    + rewrite true_loop_markets in H.
      apply bind_Raise_inv in H as [H|[news [_ H]]]; [|discriminate].
      apply mapM_Raise_inv in H as [g [_ H]].
      apply market_records_raises in H as [k H]. discriminate.
  - split; [intros _; exact E | reflexivity].
Qed.

(** X6. On a table in which no market has two airlines the variant returns
    the empty frame as soon as the three key columns are present: the value
    columns (MarketShare, HHI, the hub dummies, ...) are read only inside a
    market that is kept, so their absence goes unnoticed. *)
Theorem X6_variant_empty_without_value_columns
    (true_params : ndarray) (df : DataFrame) (groups : list DataFrame) :
  length (flat true_params) = 4%nat ->
  groupby df market_keys false = Ok groups ->
  Forall (fun g => (len g <= 1)%nat) groups ->
  determine_effect_coeff_true true_params df = Ok [].
Proof.
  intros Htp Hg Hsmall. unfold determine_effect_coeff_true.
  rewrite Htp, Hg. cbn [Nat.eqb negb bind].
  rewrite true_loop_markets, (filter_kept_small _ Hsmall). reflexivity.
Qed.

Lemma X6_variant_empty_without_value_columns_witness :
  determine_effect_coeff_true (array1 [1; 2; 3; 4]%Q)
    (mk_df ["OriginAirportID"; "Year"; "Month"] [[11; 2019; 1]; [10; 2019; 1]]%Q)
  = Ok [] /\
  raises (determine_effect_coeff
            (mk_df ["OriginAirportID"; "Year"; "Month"] [[11; 2019; 1]; [10; 2019; 1]]%Q)
            (mk_ndarray [1; 4]%nat [1; 2; 3; 4]%Q)
            default_group_keys default_hub_dummy_cols).
Proof.
  split.
  - eapply X6_variant_empty_without_value_columns.
    + reflexivity.
    + vm_compute. reflexivity.
    + repeat constructor.
  - eexists. vm_compute. reflexivity.
Defined.

(** *** The returned frame, row by row *)

Lemma market_records_explicit cols rws tp :
  valid_table (mk_df cols []) ->
  market_records tp (mk_df cols rws) =
  Ok (map (fun r =>
             mk_record (value_at cols "MonthlyFlights" r) (value_at cols "MarketShare" r)
               (value_at cols "AirportHubSize" r) (value_at cols "AirlineHubSize" r)
               (value_at cols "HHI" r) (length rws) (value_at cols "OriginAirportID" r)
               (2 * (value_at cols "MarketShare" r - value_at cols "HHI" r)
                * dot tp (vsub
                    (sum_axis0 4
                       (map (fun x => vscale (value_at cols "MarketShare" x)
                                        (map (fun c => value_at cols c x) hub_cols)) rws))
                    (vscale (value_at cols "MarketShare" r)
                       (map (fun c => value_at cols c r) hub_cols))))%Q) rws).
Proof.
  intros V. unfold market_records. cbn [columns rows len].
  rewrite (total_hub_market_share_spec cols tp V). cbn [bind].
  apply mapM_pure. intros r _. apply (row_body_spec cols tp V).
Qed.

(** X7. On a valid table with a length-4 coefficient vector the variant
    returns one record per observation of a market with more than one
    airline, markets in order of first appearance and rows in table order:
    each record carries the observation's own cells, the number of airlines
    of its market (at least 2) and its effect. *)
Theorem X7_variant_records (tp : list Q) (df : DataFrame) :
  valid_table df ->
  length tp = 4%nat ->
  determine_effect_coeff_true (array1 tp) df
  = Ok (map (record_of tp df) (multi_airline_rows df)) /\
  Forall (fun rec => (2 <= r_num_airlines rec)%nat)
         (map (record_of tp df) (multi_airline_rows df)).
Proof.
  destruct df as [cols rws]. intros V L.
  assert (V0 : valid_table (mk_df cols [])) by exact V.
  set (idx := map (col_index cols) market_keys).
  set (ks := map (key_of idx) rws).
  set (big := fun k => negb (length (group_rows idx rws k) <=? 1)%nat).
  set (mk := fun k => mk_df cols (group_rows idx rws k)).
  assert (Hrec : forall k r, In r (group_rows idx rws k) ->
            market_of idx rws r = group_rows idx rws k).
  { intros k r Hr. unfold market_of. apply in_group_rows in Hr as [_ ->]. reflexivity. }
  split.
  - unfold determine_effect_coeff_true. cbn [array1 flat]. rewrite L.
    cbn [Nat.eqb negb]. rewrite (groupby_markets cols rws false V0).
    cbn [bind group_order]. rewrite true_loop_markets.
    fold idx. fold ks. fold mk.
    rewrite (filter_map_groups mk kept), mapM_map_in.
    rewrite (mapM_pure _ (fun k => map (record_of tp (mk_df cols rws)) (group_rows idx rws k))).
    + cbn [bind app]. f_equal. unfold multi_airline_rows. cbn [columns rows].
      fold idx. fold ks. rewrite concat_map, !map_map. reflexivity.
    + intros k _. unfold mk. rewrite (market_records_explicit cols _ tp V0). f_equal.
      apply map_ext_in. intros r Hr. unfold record_of. cbn [columns rows]. fold idx.
      rewrite (Hrec k r Hr). reflexivity.
  - apply Forall_forall. intros rec Hin. apply in_map_iff in Hin as [r [<- Hr]].
    unfold multi_airline_rows in Hr. cbn [columns rows] in Hr. fold idx in Hr. fold ks in Hr.
    apply in_concat in Hr as [rws_k [Hk Hr]]. apply in_map_iff in Hk as [k [<- Hk]].
    apply filter_In in Hk as [_ Hbig].
    unfold record_of. cbn [columns rows r_num_airlines]. fold idx.
    rewrite (Hrec k r Hr). apply negb_true_iff, Nat.leb_gt in Hbig. lia.
Qed.

Lemma X7_variant_records_witness :
  exists recs,
    determine_effect_coeff_true (array1 [1; 2; 5.0; 3]%Q) unsorted_table = Ok recs /\
    map r_num_airlines recs = [2; 2; 2; 2]%nat /\
    map r_airport_id recs = [20; 20; 10; 10]%Q.
Proof.
  destruct (X7_variant_records [1; 2; 5.0; 3]%Q unsorted_table unsorted_table_valid eq_refl)
    as [H _].
  eexists. split; [exact H|]. split; vm_compute; reflexivity.
Defined.

End TrueEffectMore.

(* ------------------------------------------------------------------ *)
(** ** More on the coefficient samplers *)

Module SamplerMore.
Import Sampler SamplerFacts PropagatorFacts.

Lemma chunks_widths (k n : nat) (l : list Q) :
  length l = (n * k)%nat -> Forall (fun r => length r = k) (chunks k n l).
Proof.
  revert l. induction n as [|n IH]; intros l Hl; [constructor|].
  cbn [chunks]. constructor.
  - rewrite length_firstn. simpl in Hl. lia.
  - apply IH. rewrite length_skipn. simpl in Hl. lia.
Qed.

Lemma rows_of_widths (a : ndarray) (n k : nat) :
  shape a = [n; k] -> length (flat a) = (n * k)%nat ->
  Forall (fun r => length r = k) (rows_of a).
Proof. intros Hsh Hl. unfold rows_of. rewrite Hsh. apply chunks_widths. exact Hl. Qed.

Lemma nth_vadd_halves (r : list Q) (c : nat) :
  length r = 8%nat -> (c < 4)%nat ->
  nth c (vadd (firstn 4 r) (skipn 4 r)) 0%Q = (nth c r 0 + nth (c + 4) r 0)%Q.
Proof.
  intros Hr Hc. unfold vadd.
  rewrite (PropagatorMore.nth_map2 _ _ _ _ 0%Q 0%Q)
    by (rewrite ?length_firstn, ?length_skipn; lia).
  rewrite nth_firstn by exact Hc. rewrite nth_skipn. f_equal. f_equal. lia.
Qed.

Lemma vadd_halves_length (r : list Q) :
  length r = 8%nat -> length (vadd (firstn 4 r) (skipn 4 r)) = 4%nat.
Proof.
  intros Hr. unfold vadd. rewrite map2_length, length_firstn, length_skipn. lia.
Qed.

Lemma first_row_length df vars mu : first_row df vars = Ok mu -> length mu = length vars.
Proof.
  unfold first_row. destruct (rows df); [discriminate|]. intros H.
  apply bind_Ok_inv in H as [idx [Hidx H]]. injection H as <-.
  rewrite length_map. apply mapM_Ok_length in Hidx. exact Hidx.
Qed.

Section WithNumpy.

Variable read_csv : string -> result csv_table.
Variable bit_generator : Type.
Variable entropy : Type.
Variable seeded : Z -> bit_generator.
Variable unseeded : entropy -> bit_generator.
Variable multivariate_normal :
  bit_generator -> list Q -> list (list Q) -> nat -> mvn_method -> result ndarray.

Let basic := basic_random_sample read_csv bit_generator entropy seeded unseeded
               multivariate_normal.
Let hub := hub_random_sample read_csv bit_generator entropy seeded unseeded
             multivariate_normal.

(** X8. What the samplers reject, in the order they check it: a simulation
    count <= 0 is a ValueError raised before any file is read; a coefficient
    file lacking one of the regressor columns is a KeyError whose message
    names the coefficient file and lists all the missing columns, in the
    order of the regressor list; a coefficient file with the columns but no
    row is the KeyError of [.loc[0]].  The covariance file is not read and
    the generator is not called in any of these cases. *)
Theorem X8_sampler_rejections
    (os : entropy) (coef_path cov_path : string) (num_sims : Z) (seed : option Z) :
  ((num_sims <= 0)%Z ->
   basic os coef_path cov_path num_sims seed = Raise (ValueError num_sims_msg) /\
   hub os coef_path cov_path num_sims seed = Raise (ValueError num_sims_msg)) /\
  (forall coef,
     (0 < num_sims)%Z -> read_csv coef_path = Ok coef ->
     (missing_vars (table coef) basic_reg_vars <> [] ->
      basic os coef_path cov_path num_sims seed
      = Raise (KeyError (missing_coef_msg coef_path
                           (missing_vars (table coef) basic_reg_vars)))) /\
     (missing_vars (table coef) hub_reg_vars <> [] ->
      hub os coef_path cov_path num_sims seed
      = Raise (KeyError (missing_coef_msg coef_path
                           (missing_vars (table coef) hub_reg_vars))))) /\
  (forall coef,
     (0 < num_sims)%Z -> read_csv coef_path = Ok coef -> rows (table coef) = [] ->
     (missing_vars (table coef) basic_reg_vars = [] ->
      basic os coef_path cov_path num_sims seed = Raise (KeyError "0")) /\
     (missing_vars (table coef) hub_reg_vars = [] ->
      hub os coef_path cov_path num_sims seed = Raise (KeyError "0"))).
Proof.
  unfold basic, hub, basic_random_sample, hub_random_sample.
  split; [|split].
  - intros H. apply Z.leb_le in H. rewrite H. split; reflexivity.
  - intros coef Hpos Hcoef.
    destruct (num_sims <=? 0)%Z eqn:E; [apply Z.leb_le in E; lia|].
    rewrite Hcoef. cbn [bind]. split; intros Hm.
    + destruct (missing_vars (table coef) basic_reg_vars); [contradiction | reflexivity].
    + destruct (missing_vars (table coef) hub_reg_vars); [contradiction | reflexivity].
  - intros coef Hpos Hcoef Hrows.
    destruct (num_sims <=? 0)%Z eqn:E; [apply Z.leb_le in E; lia|].
    rewrite Hcoef. cbn [bind]. unfold first_row. rewrite Hrows.
    split; intros ->; reflexivity.
Qed.

(** X9. On a valid input the hub-decomposed sampler returns a (num_sims, 4)
    matrix whose entry (s, c) is the origin draw plus the destination draw of
    hub bin c, draws[s, c] + draws[s, c + 4], and a length-4 true_params with
    true_params[c] = mu[c] + mu[c + 4]. *)
Theorem X9_hub_sample_sums_origin_and_destination
    (os : entropy) (coef_path cov_path : string) (num_sims : Z) (seed : option Z)
    (coef cov : csv_table) (mu : list Q) (Sigma : list (list Q)) (draws : ndarray) :
  (0 < num_sims)%Z ->
  read_csv coef_path = Ok coef ->
  missing_vars (table coef) hub_reg_vars = [] ->
  first_row (table coef) hub_reg_vars = Ok mu ->
  read_csv cov_path = Ok cov ->
  cov_matrix cov hub_reg_vars = Ok Sigma ->
  multivariate_normal (default_rng bit_generator entropy seeded unseeded os seed)
    mu Sigma (Z.to_nat num_sims) cholesky = Ok draws ->
  shape draws = [Z.to_nat num_sims; 8%nat] ->
  length (flat draws) = (Z.to_nat num_sims * 8)%nat ->
  exists random_sample true_params,
    hub os coef_path cov_path num_sims seed = Ok (random_sample, true_params) /\
    shape random_sample = [Z.to_nat num_sims; 4%nat] /\
    (forall s c, (s < Z.to_nat num_sims)%nat -> (c < 4)%nat ->
       at2 random_sample s c = (at2 draws s c + at2 draws s (c + 4))%Q) /\
    shape true_params = [4%nat] /\
    (forall c, (c < 4)%nat ->
       nth c (flat true_params) 0%Q = (nth c mu 0 + nth (c + 4) mu 0)%Q).
Proof.
  intros Hpos Hcoef Hmiss Hmu Hcov HSigma Hdraws Hshape Hwf.
  pose proof (rows_of_widths draws _ _ Hshape Hwf) as Hrows.
  assert (Hlen : length (rows_of draws) = Z.to_nat num_sims).
  { unfold rows_of. rewrite Hshape. apply chunks_length. }
  assert (Hmu8 : length mu = 8%nat) by (apply first_row_length in Hmu; exact Hmu).
  eexists. eexists. split.
  { unfold hub, hub_random_sample.
    destruct (num_sims <=? 0)%Z eqn:E; [apply Z.leb_le in E; lia|].
    rewrite Hcoef. cbn [bind]. rewrite Hmiss, Hmu. cbn [bind].
    rewrite Hcov. cbn [bind]. rewrite HSigma. cbn [bind]. rewrite Hdraws. cbn [bind].
    reflexivity. }
  set (m := map (fun d => vadd (firstn 4 d) (skipn 4 d)) (rows_of draws)).
  assert (Hm : Forall (fun r => length r = 4%nat) m).
  { apply Forall_forall. intros r Hr. apply in_map_iff in Hr as [d [<- Hd]].
    apply vadd_halves_length. rewrite Forall_forall in Hrows. apply Hrows. exact Hd. }
  assert (Hmlen : length m = Z.to_nat num_sims) by (unfold m; rewrite length_map; exact Hlen).
  split; [unfold array2; cbn [shape]; rewrite Hmlen; reflexivity|].
  split.
  { intros s c Hs Hc. rewrite (at2_array2 4 m) by (auto; lia).
    unfold m. rewrite (nth_map_in _ _ _ []) by lia.
    assert (Hrow : length (nth s (rows_of draws) []) = 8%nat).
    { rewrite Forall_forall in Hrows. apply Hrows. apply nth_In. lia. }
    rewrite nth_vadd_halves by assumption.
    rewrite <- !(cell_rows_of draws (Z.to_nat num_sims) 8 s) by (auto; lia).
    reflexivity. }
  split.
  { unfold array1. cbn [shape]. rewrite vadd_halves_length by exact Hmu8. reflexivity. }
  intros c Hc. cbn [array1 flat]. apply nth_vadd_halves; assumption.
Qed.

(** X10. true_params is what a draw equal to the point estimate produces:
    in either sampler, if draw s equals mu then row s of the returned matrix
    equals true_params. *)
Theorem X10_mean_draw_gives_true_params
    (os : entropy) (coef_path cov_path : string) (num_sims : Z) (seed : option Z)
    (coef cov : csv_table) (mu : list Q) (Sigma : list (list Q)) (draws : ndarray)
    (K s : nat) :
  (0 < num_sims)%Z ->
  read_csv coef_path = Ok coef ->
  read_csv cov_path = Ok cov ->
  shape draws = [Z.to_nat num_sims; K] ->
  length (flat draws) = (Z.to_nat num_sims * K)%nat ->
  (s < Z.to_nat num_sims)%nat ->
  nth s (rows_of draws) [] = mu ->
  (K = 2%nat ->
   missing_vars (table coef) basic_reg_vars = [] ->
   first_row (table coef) basic_reg_vars = Ok mu ->
   cov_matrix cov basic_reg_vars = Ok Sigma ->
   multivariate_normal (default_rng bit_generator entropy seeded unseeded os seed)
     mu Sigma (Z.to_nat num_sims) svd = Ok draws ->
   exists random_sample true_params,
     basic os coef_path cov_path num_sims seed = Ok (random_sample, true_params) /\
     forall c, (c < 4)%nat -> at2 random_sample s c = nth c (flat true_params) 0%Q) /\
  (K = 8%nat ->
   missing_vars (table coef) hub_reg_vars = [] ->
   first_row (table coef) hub_reg_vars = Ok mu ->
   cov_matrix cov hub_reg_vars = Ok Sigma ->
   multivariate_normal (default_rng bit_generator entropy seeded unseeded os seed)
     mu Sigma (Z.to_nat num_sims) cholesky = Ok draws ->
   exists random_sample true_params,
     hub os coef_path cov_path num_sims seed = Ok (random_sample, true_params) /\
     forall c, (c < 4)%nat -> at2 random_sample s c = nth c (flat true_params) 0%Q).
Proof.
  intros Hpos Hcoef Hcov Hshape Hwf Hs Hrow.
  assert (Hlen : length (rows_of draws) = Z.to_nat num_sims).
  { unfold rows_of. rewrite Hshape. apply chunks_length. }
  assert (Hguard : (num_sims <=? 0)%Z = false) by (apply Z.leb_gt; lia).
  split.
  - intros -> Hmiss Hmu HSigma Hdraws. eexists. eexists. split.
    { unfold basic, basic_random_sample. rewrite Hguard, Hcoef. cbn [bind].
      rewrite Hmiss, Hmu. cbn [bind]. rewrite Hcov. cbn [bind]. rewrite HSigma. cbn [bind].
      rewrite Hdraws. cbn [bind]. reflexivity. }
    intros c Hc. cbn [array1 flat].
    rewrite (at2_array2 4).
    + rewrite map_map, (nth_map_in _ _ _ []) by lia. rewrite Hrow. reflexivity.
    + apply Forall_forall. intros r Hr. apply in_map_iff in Hr as [x [<- _]].
      apply repeat_length.
    + rewrite !length_map. lia.
    + exact Hc.
  - intros -> Hmiss Hmu HSigma Hdraws.
    pose proof (rows_of_widths draws _ _ Hshape Hwf) as Hrows.
    eexists. eexists. split.
    { unfold hub, hub_random_sample. rewrite Hguard, Hcoef. cbn [bind].
      rewrite Hmiss, Hmu. cbn [bind]. rewrite Hcov. cbn [bind]. rewrite HSigma. cbn [bind].
      rewrite Hdraws. cbn [bind]. reflexivity. }
    intros c Hc. cbn [array1 flat].
    rewrite (at2_array2 4).
    + rewrite (nth_map_in _ _ _ []) by lia. rewrite Hrow. reflexivity.
    + apply Forall_forall. intros r Hr. apply in_map_iff in Hr as [d [<- Hd]].
      apply vadd_halves_length. rewrite Forall_forall in Hrows. apply Hrows. exact Hd.
    + rewrite length_map. lia.
    + exact Hc.
Qed.

End WithNumpy.

Lemma X8_sampler_rejections_witness :
  basic_random_sample sample_files Z unit (fun z => z) (fun _ => 0%Z) mean_draws
    tt "coef.csv" "cov.csv" 0 None = Raise (ValueError num_sims_msg) /\
  hub_random_sample sample_files Z unit (fun z => z) (fun _ => 0%Z) mean_draws
    tt "coef.csv" "cov.csv" 5 None
  = Raise (KeyError (missing_coef_msg "coef.csv" hub_reg_vars)) /\
  missing_coef_msg "coef.csv" ["hhiorigin"; "hhidest"]
  = "Missing coefficient columns in coef.csv: ['hhiorigin', 'hhidest']".
Proof.
  split; [|split].
  - apply (proj1 (X8_sampler_rejections sample_files Z unit (fun z => z) (fun _ => 0%Z)
                    mean_draws tt "coef.csv" "cov.csv" 0 None)).
    lia.
  - apply (proj1 (proj2 (X8_sampler_rejections sample_files Z unit (fun z => z)
                           (fun _ => 0%Z) mean_draws tt "coef.csv" "cov.csv" 5 None))
             (mk_csv None (mk_df ["hhiorigin"; "hhidest"] [[1.5; 0.5]]%Q))).
    + lia.
    + reflexivity.
    + discriminate.
  - reflexivity.
Defined.

Lemma X9_hub_sample_sums_origin_and_destination_witness :
  exists random_sample true_params,
    hub_random_sample hub_files Z unit (fun z => z) (fun _ => 0%Z) mean_draws
      tt "coef.csv" "cov.csv" 2 (Some 12345%Z) = Ok (random_sample, true_params) /\
    shape random_sample = [2; 4]%nat /\
    flat true_params = [1 + 0.5; 2 + 0.5; 3 + 0.5; 4 + 0.5]%Q.
Proof.
  destruct (X9_hub_sample_sums_origin_and_destination hub_files Z unit (fun z => z)
              (fun _ => 0%Z) mean_draws tt "coef.csv" "cov.csv" 2 (Some 12345%Z)
              (mk_csv None (mk_df hub_reg_vars [[1; 2; 3; 4; 0.5; 0.5; 0.5; 0.5]]%Q))
              (mk_csv (Some hub_reg_vars)
                 (mk_df hub_reg_vars
                    (map (fun i => map (fun j => if (i =? j)%nat then 1%Q else 0%Q) (seq 0 8))
                         (seq 0 8))))
              [1; 2; 3; 4; 0.5; 0.5; 0.5; 0.5]%Q
              (map (fun i => map (fun j => if (i =? j)%nat then 1%Q else 0%Q) (seq 0 8))
                   (seq 0 8))
              (array2 8 (repeat [1; 2; 3; 4; 0.5; 0.5; 0.5; 0.5]%Q 2))
              eq_refl eq_refl eq_refl eq_refl eq_refl eq_refl eq_refl eq_refl eq_refl)
    as (rs & tp & H & Hsh & _ & _ & _).
  exists rs, tp. split; [exact H|]. split; [exact Hsh|].
  vm_compute in H. injection H as _ <-. reflexivity.
Defined.

Lemma X10_mean_draw_gives_true_params_witness :
  exists random_sample true_params,
    basic_random_sample sample_files Z unit (fun z => z) (fun _ => 0%Z) mean_draws
      tt "coef.csv" "cov.csv" 3 (Some 12345%Z) = Ok (random_sample, true_params) /\
    forall c, (c < 4)%nat -> at2 random_sample 1 c = nth c (flat true_params) 0%Q.
Proof.
  destruct (X10_mean_draw_gives_true_params sample_files Z unit (fun z => z)
              (fun _ => 0%Z) mean_draws tt "coef.csv" "cov.csv" 3 (Some 12345%Z)
              (mk_csv None (mk_df ["hhiorigin"; "hhidest"] [[1.5; 0.5]]%Q))
              (mk_csv (Some ["hhiorigin"; "hhidest"])
                 (mk_df ["hhiorigin"; "hhidest"] [[1; 0]; [0; 1]]%Q))
              [1.5; 0.5]%Q [[1; 0]; [0; 1]]%Q
              (array2 2 (repeat [1.5; 0.5]%Q 3)) 2 1
              eq_refl eq_refl eq_refl eq_refl eq_refl ltac:(simpl; lia) eq_refl)
    as [Hbasic _].
  exact (Hbasic eq_refl eq_refl eq_refl eq_refl eq_refl).
Defined.

End SamplerMore.

(* ------------------------------------------------------------------ *)
(** ** More on the hub-stratified regressor *)

Module RegressorMore.
Import Regressor RegressorFacts.

Section WithStatsmodels.

Variable OLS_fit : list Q -> list (list Q) -> result (Q * Q).
Variable WLS_fit : list Q -> list (list Q) -> list Q -> result (Q * Q).

Let find := find_slopes OLS_fit WLS_fit.

(** X11. Argument checks of find_slopes, in the order the code makes them:
    arrays that do not align on the first dimension raise the alignment
    ValueError whatever the weights are; aligned arrays with a weight vector
    of another length raise the weights ValueError; and an aligned effect
    array that is not 2-dimensional -- in particular a single effect column
    passed as a 1-D vector -- raises a ValueError when its shape is unpacked.
    No regression is run in any of these cases. *)
Theorem X11_find_slopes_argument_checks
    (market_share hub_size effect : ndarray) (weights : option ndarray) (n : nat)
    (rest : list nat) :
  shape effect = n :: rest ->
  ((length (flat market_share) <> length (flat hub_size)
    \/ length (flat market_share) <> n) ->
   find market_share hub_size effect weights = Raise (ValueError align_msg)) /\
  (length (flat market_share) = n -> length (flat hub_size) = n ->
   (forall w, weights = Some w -> length (flat w) <> n ->
      find market_share hub_size effect weights = Raise (ValueError weights_len_msg)) /\
   (match weights with Some w => length (flat w) = n | None => True end ->
    (forall columns, rest <> [columns]) ->
    find market_share hub_size effect weights = Raise (ValueError unpack_msg))).
Proof.
  intros Hsh. unfold find, find_slopes. rewrite Hsh. split.
  - intros H.
    destruct (Nat.eqb_spec (length (flat market_share)) (length (flat hub_size)))
      as [E|E]; cbn [negb]; [|reflexivity].
    destruct H as [H|H]; [contradiction|].
    apply Nat.eqb_neq in H. rewrite H. reflexivity.
  - intros Hms Hhs. rewrite Hms, Hhs, !Nat.eqb_refl. cbn [negb]. split.
    + intros w -> Hw. apply Nat.eqb_neq in Hw. rewrite Hw. reflexivity.
    + intros Hw Hrest. destruct weights as [w|].
      * rewrite Hw, Nat.eqb_refl. cbn [negb bind].
        destruct rest as [|c [|c' rest']]; try reflexivity.
        exfalso. apply (Hrest c). reflexivity.
      * cbn [bind]. destruct rest as [|c [|c' rest']]; try reflexivity.
        exfalso. apply (Hrest c). reflexivity.
Qed.

End WithStatsmodels.

Lemma X11_find_slopes_argument_checks_witness :
  find_slopes flat_OLS flat_WLS (array1 [0.6; 0.4]%Q) (array1 [0; 0]%Q)
    (array1 [0.32; -0.72]%Q) None
  = Raise (ValueError unpack_msg).
Proof.
  destruct (X11_find_slopes_argument_checks flat_OLS flat_WLS
              (array1 [0.6; 0.4]%Q) (array1 [0; 0]%Q) (array1 [0.32; -0.72]%Q) None
              2 [] eq_refl) as [_ H].
  destruct (H eq_refl eq_refl) as [_ H'].
  apply H'; [exact I | discriminate].
Defined.

(** *** The strata partition the observations *)

Lemma count_mask_cons (h : Q) (hs : list Q) (hub : nat) :
  length (filter (fun b : bool => b) (hub_ind (h :: hs) hub))
  = ((if Qeq_bool h (inject_Z (Z.of_nat hub)) then 1 else 0)
     + length (filter (fun b : bool => b) (hub_ind hs hub)))%nat.
Proof.
  unfold hub_ind. cbn [map filter].
  destruct (Qeq_bool h (inject_Z (Z.of_nat hub))); reflexivity.
Qed.

Lemma distinct_hubs_differ (h : Q) (a b : nat) :
  a <> b ->
  Qeq_bool h (inject_Z (Z.of_nat a)) = true ->
  Qeq_bool h (inject_Z (Z.of_nat b)) = true -> False.
Proof.
  intros Hab Ha Hb. apply Qeq_bool_iff in Ha, Hb. rewrite Ha in Hb.
  unfold Qeq in Hb. simpl in Hb. lia.
Qed.

Lemma one_stratum_per_observation (h : Q) :
  let m := fun hub => if Qeq_bool h (inject_Z (Z.of_nat hub)) then 1%nat else 0%nat in
  (m 0 + m 1 + m 2 + m 3 <= 1)%nat /\
  ((exists k, (k < 4)%nat /\ (h == inject_Z (Z.of_nat k))%Q) ->
   (m 0 + m 1 + m 2 + m 3 = 1)%nat).
Proof.
  intros m. unfold m.
  destruct (Qeq_bool h (inject_Z (Z.of_nat 0))) eqn:E0;
  destruct (Qeq_bool h (inject_Z (Z.of_nat 1))) eqn:E1;
  destruct (Qeq_bool h (inject_Z (Z.of_nat 2))) eqn:E2;
  destruct (Qeq_bool h (inject_Z (Z.of_nat 3))) eqn:E3;
  try (exfalso; eapply (distinct_hubs_differ h 0 1); eauto; lia);
  try (exfalso; eapply (distinct_hubs_differ h 0 2); eauto; lia);
  try (exfalso; eapply (distinct_hubs_differ h 0 3); eauto; lia);
  try (exfalso; eapply (distinct_hubs_differ h 1 2); eauto; lia);
  try (exfalso; eapply (distinct_hubs_differ h 1 3); eauto; lia);
  try (exfalso; eapply (distinct_hubs_differ h 2 3); eauto; lia);
  (split; [simpl; lia|]); try (intros _; reflexivity).
  intros [k [Hk Hq]]. exfalso. apply Qeq_bool_iff in Hq.
  destruct k as [|[|[|[|k]]]]; try lia; congruence.
Qed.

Lemma strata_sizes (hs : list Q) :
  let size := fun hub => length (filter (fun b : bool => b) (hub_ind hs hub)) in
  (size 0 + size 1 + size 2 + size 3 <= length hs)%nat /\
  (hubs_in_range hs -> (size 0 + size 1 + size 2 + size 3 = length hs)%nat).
Proof.
  cbv zeta. induction hs as [|h hs [IHle IHeq]].
  - split; [simpl; lia | reflexivity].
  - rewrite !count_mask_cons. destruct (one_stratum_per_observation h) as [Hle Heq].
    cbv zeta in Hle, Heq. split.
    + simpl length. lia.
    + intros Hr. inversion Hr as [|? ? Hh Hr']; subst.
      specialize (Heq Hh). specialize (IHeq Hr'). simpl length. lia.
Qed.

Section Returned.

Variable OLS_fit : list Q -> list (list Q) -> result (Q * Q).
Variable WLS_fit : list Q -> list (list Q) -> list Q -> result (Q * Q).

Lemma hub_body_shape ms hs rws w columns hub sv iv sm :
  hub_body OLS_fit WLS_fit ms hs rws w columns hub = Ok (sv, iv, sm) ->
  length sv = columns /\ length iv = columns /\
  fst sm = hub /\
  n_obs (snd sm) = length (filter (fun b : bool => b) (hub_ind hs hub)).
Proof.
  unfold hub_body. intros H.
  apply bind_Ok_inv in H as [w_hub [_ H]].
  apply bind_Ok_inv in H as [params [Hparams H]]. cbv zeta in H.
  apply bind_Ok_inv in H as [si [_ H]].
  apply bind_Ok_inv in H as [ss [_ H]]. injection H as <- <- <-.
  apply mapM_Ok_length in Hparams. rewrite length_seq in Hparams.
  rewrite !length_map. auto.
Qed.

(** X12. What a returned call looks like: four slope vectors and four
    intercept vectors, one per hub 0..3 in this order, each with one entry
    per simulation column; a summary keyed 0, 1, 2, 3 whose n_obs is the
    number of observations of that hub.  No observation is counted in two
    strata, so the four n_obs sum to at most N, and to exactly N when every
    hub size is one of 0, 1, 2, 3. *)
Theorem X12_find_slopes_output_shape
    (market_share hub_size effect : ndarray) (weights : option ndarray)
    (slope_mat intercept_mat : list (list Q)) (summary_list : list (nat * summary)) :
  find_slopes OLS_fit WLS_fit market_share hub_size effect weights
  = Ok (slope_mat, intercept_mat, summary_list) ->
  exists N columns,
    shape effect = [N; columns] /\
    length (flat market_share) = N /\ length (flat hub_size) = N /\
    length slope_mat = 4%nat /\ length intercept_mat = 4%nat /\
    Forall (fun v => length v = columns) slope_mat /\
    Forall (fun v => length v = columns) intercept_mat /\
    map fst summary_list = [0; 1; 2; 3]%nat /\
    (forall hub, (hub < 4)%nat ->
       n_obs (snd (nth hub summary_list (O, mk_summary O nan_stats nan_stats)))
       = length (filter (fun b : bool => b) (stratum_mask hub_size hub))) /\
    (list_sum (map (fun e => n_obs (snd e)) summary_list) <= N)%nat /\
    (hubs_in_range (flat hub_size) ->
     list_sum (map (fun e => n_obs (snd e)) summary_list) = N).
Proof.
  unfold find_slopes. intros H.
  destruct (negb (length (flat market_share) =? length (flat hub_size))%nat) eqn:G1;
    [discriminate|].
  destruct (shape effect) as [|N rest] eqn:Hsh; [discriminate|].
  destruct (negb (length (flat market_share) =? N)%nat) eqn:G2; [discriminate|].
  apply negb_false_iff, Nat.eqb_eq in G1. apply negb_false_iff, Nat.eqb_eq in G2.
  apply bind_Ok_inv in H as [w [_ H]].
  destruct rest as [|columns [|c rest]]; try discriminate.
  apply bind_Ok_inv in H as [per_hub [Hper H]]. injection H as <- <- <-.
  exists N, columns. split; [reflexivity|]. split; [exact G2|]. split; [congruence|].
  cbn [seq mapM] in Hper.
  apply bind_Ok_inv in Hper as [[[s0 i0] m0] [H0 Hper]].
  apply bind_Ok_inv in Hper as [l1 [Hper E]]. injection E as <-.
  apply bind_Ok_inv in Hper as [[[s1 i1] m1] [H1 Hper]].
  apply bind_Ok_inv in Hper as [l2 [Hper E]]. injection E as <-.
  apply bind_Ok_inv in Hper as [[[s2 i2] m2] [H2 Hper]].
  apply bind_Ok_inv in Hper as [l3 [Hper E]]. injection E as <-.
  apply bind_Ok_inv in Hper as [[[s3 i3] m3] [H3 Hper]].
  apply bind_Ok_inv in Hper as [l4 [Hper E]]. injection E as <-. injection Hper as <-.
  apply hub_body_shape in H0 as (A0 & B0 & C0 & D0).
  apply hub_body_shape in H1 as (A1 & B1 & C1 & D1).
  apply hub_body_shape in H2 as (A2 & B2 & C2 & D2).
  apply hub_body_shape in H3 as (A3 & B3 & C3 & D3).
  cbn [map fst snd length].
  split; [reflexivity|]. split; [reflexivity|].
  split; [repeat constructor; assumption|].
  split; [repeat constructor; assumption|].
  split; [congruence|].
  split.
  { intros hub Hhub. unfold stratum_mask.
    destruct hub as [|[|[|[|hub]]]]; try lia; cbn [nth snd]; assumption. }
  cbn [list_sum]. rewrite D0, D1, D2, D3.
  destruct (strata_sizes (flat hub_size)) as [Hle Heq]. cbv beta zeta in Hle, Heq.
  assert (HN : length (flat hub_size) = N) by congruence. rewrite HN in Hle, Heq.
  unfold list_sum. cbn [fold_right].
  split; [lia|]. intros Hr. specialize (Heq Hr). lia.
Qed.

End Returned.

Lemma X12_find_slopes_output_shape_witness :
  exists slope_mat intercept_mat summary_list,
    find_slopes flat_OLS flat_WLS (array1 [0.6; 0.4; 0.7; 0.3; 1; 1]%Q)
      (array1 [0; 0; 1; 2; 3; 3]%Q)
      (mk_ndarray [6; 1]%nat [0.32; -0.72; 0.1; 0.2; 0; 0]%Q) None
    = Ok (slope_mat, intercept_mat, summary_list) /\
    map (fun e => n_obs (snd e)) summary_list = [2; 1; 1; 2]%nat.
Proof.
  assert (H : returns (find_slopes flat_OLS flat_WLS (array1 [0.6; 0.4; 0.7; 0.3; 1; 1]%Q)
                         (array1 [0; 0; 1; 2; 3; 3]%Q)
                         (mk_ndarray [6; 1]%nat [0.32; -0.72; 0.1; 0.2; 0; 0]%Q) None)).
  { eexists. vm_compute. reflexivity. }
  destruct H as [[[sm im] sl] H].
  destruct (X12_find_slopes_output_shape _ _ _ _ _ _ _ _ _ H)
    as (N & columns & _ & _ & _ & _ & _ & _ & _ & Hkeys & Hn & _).
  exists sm, im, sl. split; [exact H|].
  assert (L : length sl = 4%nat) by (rewrite <- (length_map fst), Hkeys; reflexivity).
  destruct sl as [|e0 [|e1 [|e2 [|e3 [|e4 sl]]]]]; try discriminate.
  pose proof (Hn 0%nat ltac:(lia)) as N0. pose proof (Hn 1%nat ltac:(lia)) as N1.
  pose proof (Hn 2%nat ltac:(lia)) as N2. pose proof (Hn 3%nat ltac:(lia)) as N3.
  cbn [nth] in N0, N1, N2, N3. cbn [map]. rewrite N0, N1, N2, N3. reflexivity.
Defined.

(** *** A stratum sees its own observations only *)

Lemma compress_agree {A : Type} (mask : list bool) (a b : list A) (d : A) :
  length a = length b ->
  (forall i, nth i mask false = true -> nth i a d = nth i b d) ->
  compress mask a = compress mask b.
Proof.
  unfold compress. revert a b. induction mask as [|m mask IH]; intros a b Hlen H;
    [reflexivity|].
  destruct a as [|x a]; destruct b as [|y b]; try discriminate; [reflexivity|].
  cbn [combine filter fst]. destruct m.
  - cbn [map snd]. f_equal.
    + exact (H 0%nat eq_refl).
    + apply IH; [simpl in Hlen; lia|]. intros i Hi. exact (H (S i) Hi).
  - apply IH; [simpl in Hlen; lia|]. intros i Hi. exact (H (S i) Hi).
Qed.

Section Locality.

Variable OLS_fit : list Q -> list (list Q) -> result (Q * Q).
Variable WLS_fit : list Q -> list (list Q) -> list Q -> result (Q * Q).

Lemma find_slopes_hub market_share hub_size effect weights sm im sl hub :
  find_slopes OLS_fit WLS_fit market_share hub_size effect weights = Ok (sm, im, sl) ->
  (hub < 4)%nat ->
  exists N columns summ,
    shape effect = [N; columns] /\
    length (flat market_share) = N /\ length (flat hub_size) = N /\
    match weights with Some w => length (flat w) = N | None => True end /\
    hub_body OLS_fit WLS_fit (flat market_share) (flat hub_size) (rows_of effect)
      (option_map flat weights) columns hub
    = Ok (nth hub sm [], nth hub im [], summ).
Proof.
  unfold find_slopes. intros H Hhub.
  destruct (negb (length (flat market_share) =? length (flat hub_size))%nat) eqn:G1;
    [discriminate|].
  destruct (shape effect) as [|N rest] eqn:Hsh; [discriminate|].
  destruct (negb (length (flat market_share) =? N)%nat) eqn:G2; [discriminate|].
  apply negb_false_iff, Nat.eqb_eq in G1. apply negb_false_iff, Nat.eqb_eq in G2.
  apply bind_Ok_inv in H as [w [Hw H]].
  destruct rest as [|columns [|c rest]]; try discriminate.
  apply bind_Ok_inv in H as [per_hub [Hper H]]. injection H as <- <- <-.
  set (d := (@nil Q, @nil Q, (O, mk_summary O nan_stats nan_stats))).
  pose proof (mapM_Ok_nth _ _ _ hub O d Hper) as E.
  rewrite length_seq, seq_nth in E by exact Hhub. specialize (E Hhub). cbn [Nat.add] in E.
  assert (Hwopt : w = option_map flat weights /\
                  match weights with Some w0 => length (flat w0) = N | None => True end).
  { destruct weights as [w0|]; cbn [option_map].
    - destruct (negb (length (flat w0) =? length (flat hub_size))%nat) eqn:Gw;
        [discriminate|].
      apply negb_false_iff, Nat.eqb_eq in Gw. injection Hw as <-. split; [reflexivity|].
      congruence.
    - injection Hw as <-. auto. }
  destruct Hwopt as [-> HwN].
  exists N, columns, (snd (nth hub per_hub d)).
  split; [reflexivity|]. split; [exact G2|]. split; [congruence|]. split; [exact HwN|].
  rewrite E. rewrite !(nth_map_in _ _ _ d)
    by (apply mapM_Ok_length in Hper; rewrite length_seq in Hper; lia).
  destruct (nth hub per_hub d) as [[sv iv] summ]. reflexivity.
Qed.

(** X13. The fits of a stratum use the observations of that stratum only:
    two calls with the same hub sizes whose market shares, effect rows and
    weights agree on the observations of hub h return the same slope vector
    and the same intercept vector for hub h, whatever the other observations
    hold. *)
Theorem X13_stratum_fits_are_local
    (market_share market_share' hub_size effect effect' : ndarray)
    (weights weights' : option ndarray) (hub : nat)
    sm im sl sm' im' sl' :
  (hub < 4)%nat ->
  shape effect = shape effect' ->
  (forall i, nth i (stratum_mask hub_size hub) false = true ->
     nth i (flat market_share) 0%Q = nth i (flat market_share') 0%Q /\
     nth i (rows_of effect) [] = nth i (rows_of effect') []) ->
  weights_agree (stratum_mask hub_size hub) weights weights' ->
  find_slopes OLS_fit WLS_fit market_share hub_size effect weights = Ok (sm, im, sl) ->
  find_slopes OLS_fit WLS_fit market_share' hub_size effect' weights' = Ok (sm', im', sl') ->
  nth hub sm [] = nth hub sm' [] /\ nth hub im [] = nth hub im' [].
Proof.
  intros Hhub Hshape Hagree Hw H H'.
  destruct (find_slopes_hub _ _ _ _ _ _ _ hub H Hhub)
    as (N & columns & summ & Hsh & Hms & Hhs & HwN & Hbody).
  destruct (find_slopes_hub _ _ _ _ _ _ _ hub H' Hhub)
    as (N' & columns' & summ' & Hsh' & Hms' & Hhs' & HwN' & Hbody').
  rewrite Hsh, Hsh' in Hshape. injection Hshape as <- <-.
  assert (HX : compress (hub_ind (flat hub_size) hub) (flat market_share)
               = compress (hub_ind (flat hub_size) hub) (flat market_share')).
  { apply (compress_agree _ _ _ 0%Q); [congruence|]. intros i Hi. apply Hagree. exact Hi. }
  assert (HR : compress (hub_ind (flat hub_size) hub) (rows_of effect)
               = compress (hub_ind (flat hub_size) hub) (rows_of effect')).
  { apply (compress_agree _ _ _ []).
    - unfold rows_of. rewrite Hsh, Hsh', !chunks_length. reflexivity.
    - intros i Hi. apply Hagree. exact Hi. }
  assert (Hsame : hub_body OLS_fit WLS_fit (flat market_share) (flat hub_size)
                    (rows_of effect) (option_map flat weights) columns hub
                  = hub_body OLS_fit WLS_fit (flat market_share') (flat hub_size)
                      (rows_of effect') (option_map flat weights') columns hub).
  { unfold hub_body, effect_hub. rewrite HX, HR.
    destruct weights as [w|]; destruct weights' as [w'|]; try contradiction;
      cbn [option_map]; [|reflexivity].
    rewrite (compress_agree _ (flat w) (flat w') 0%Q) by (congruence || exact Hw).
    reflexivity. }
  rewrite Hsame, Hbody' in Hbody. injection Hbody as -> -> _. auto.
Qed.

End Locality.

Lemma X13_stratum_fits_are_local_witness :
  exists sm im sl sm' im' sl',
    find_slopes flat_OLS flat_WLS (array1 [0.6; 0.4; 0.7; 0.3; 1; 1]%Q)
      (array1 [0; 0; 1; 2; 3; 3]%Q)
      (mk_ndarray [6; 1]%nat [0.32; -0.72; 0.1; 0.2; 0; 0]%Q) None = Ok (sm, im, sl) /\
    find_slopes flat_OLS flat_WLS (array1 [0.6; 0.4; 0.9; 0.8; 0; 0]%Q)
      (array1 [0; 0; 1; 2; 3; 3]%Q)
      (mk_ndarray [6; 1]%nat [0.32; -0.72; 5; 6; 7; 8]%Q) None = Ok (sm', im', sl') /\
    nth 0 im [] = nth 0 im' [].
Proof.
  assert (H : returns (find_slopes flat_OLS flat_WLS (array1 [0.6; 0.4; 0.7; 0.3; 1; 1]%Q)
                         (array1 [0; 0; 1; 2; 3; 3]%Q)
                         (mk_ndarray [6; 1]%nat [0.32; -0.72; 0.1; 0.2; 0; 0]%Q) None)).
  { eexists. vm_compute. reflexivity. }
  assert (H' : returns (find_slopes flat_OLS flat_WLS (array1 [0.6; 0.4; 0.9; 0.8; 0; 0]%Q)
                          (array1 [0; 0; 1; 2; 3; 3]%Q)
                          (mk_ndarray [6; 1]%nat [0.32; -0.72; 5; 6; 7; 8]%Q) None)).
  { eexists. vm_compute. reflexivity. }
  destruct H as [[[sm im] sl] H]. destruct H' as [[[sm' im'] sl'] H'].
  exists sm, im, sl, sm', im', sl'. split; [exact H|]. split; [exact H'|].
  refine (proj2 (X13_stratum_fits_are_local flat_OLS flat_WLS
                   (array1 [0.6; 0.4; 0.7; 0.3; 1; 1]%Q) (array1 [0.6; 0.4; 0.9; 0.8; 0; 0]%Q)
                   (array1 [0; 0; 1; 2; 3; 3]%Q)
                   (mk_ndarray [6; 1]%nat [0.32; -0.72; 0.1; 0.2; 0; 0]%Q)
                   (mk_ndarray [6; 1]%nat [0.32; -0.72; 5; 6; 7; 8]%Q)
                   None None 0
                   sm im sl sm' im' sl' ltac:(lia) eq_refl _ I H H')).
  intros i Hi. destruct i as [|[|[|[|[|[|i]]]]]]; try discriminate Hi.
  - split; reflexivity.
  - split; reflexivity.
  - destruct i; discriminate Hi.
Defined.

(** *** Degenerate effect arrays *)

Section Degenerate.

Variable OLS_fit : list Q -> list (list Q) -> result (Q * Q).
Variable WLS_fit : list Q -> list (list Q) -> list Q -> result (Q * Q).

Lemma hub_body_no_columns ms hs rws (w : option (list Q)) hub :
  hub_body OLS_fit WLS_fit ms hs rws w 0 hub =
  match w with
  | Some wv =>
      if any_nonpositive (compress (hub_ind hs hub) wv)
      then Raise (ValueError nonpositive_msg)
      else Raise (IndexError percentile_msg)
  | None => Raise (IndexError percentile_msg)
  end.
Proof.
  unfold hub_body. destruct w as [wv|]; cbn [bind seq mapM map]; [|reflexivity].
  destruct (any_nonpositive (compress (hub_ind hs hub) wv)); reflexivity.
Qed.

(** X22. Degenerate effect arrays.  A 0-dimensional effect raises the
    alignment ValueError when market_share and hub_size differ in length,
    and the IndexError of [effect.shape[0]] otherwise.  An aligned effect
    with no simulation column, of shape (N, 0), never returns: the call
    raises the non-positive-weights ValueError when a weight of hub 0 is
    <= 0, and otherwise the IndexError of [np.percentile] on the empty
    intercept vector of hub 0; no regression is run. *)
Theorem X22_find_slopes_degenerate_effect
    (market_share hub_size effect : ndarray) (weights : option ndarray) :
  (shape effect = [] ->
   (length (flat market_share) <> length (flat hub_size) ->
    find_slopes OLS_fit WLS_fit market_share hub_size effect weights
    = Raise (ValueError align_msg)) /\
   (length (flat market_share) = length (flat hub_size) ->
    find_slopes OLS_fit WLS_fit market_share hub_size effect weights
    = Raise (IndexError "tuple index out of range"))) /\
  (forall n,
     shape effect = [n; 0%nat] ->
     length (flat market_share) = n -> length (flat hub_size) = n ->
     match weights with Some w => length (flat w) = n | None => True end ->
     find_slopes OLS_fit WLS_fit market_share hub_size effect weights
     = match weights with
       | Some w =>
           if any_nonpositive (stratum_w w hub_size 0)
           then Raise (ValueError nonpositive_msg)
           else Raise (IndexError percentile_msg)
       | None => Raise (IndexError percentile_msg)
       end).
Proof.
  split.
  - intros Hsh. unfold find_slopes. rewrite Hsh. split; intros H.
    + apply Nat.eqb_neq in H. rewrite H. reflexivity.
    + rewrite H, Nat.eqb_refl. reflexivity.
  - intros n Hsh Hms Hhs Hw.
    rewrite (find_slopes_aligned OLS_fit WLS_fit market_share hub_size effect n 0
               Hms Hhs Hsh weights Hw).
    cbn [seq mapM]. rewrite hub_body_no_columns.
    destruct weights as [w|]; cbn [option_map]; [|reflexivity].
    unfold stratum_w, stratum_mask.
    destruct (any_nonpositive (compress (hub_ind (flat hub_size) 0) (flat w))); reflexivity.
Qed.

End Degenerate.

Lemma X22_find_slopes_degenerate_effect_witness :
  find_slopes flat_OLS flat_WLS (array1 [0.6; 0.4]%Q) (array1 [0%Q])
    (mk_ndarray [] [1%Q]) None = Raise (ValueError align_msg) /\
  find_slopes flat_OLS flat_WLS (array1 [0.6; 0.4]%Q) (array1 [0; 1]%Q)
    (mk_ndarray [2; 0]%nat []) (Some (array1 [1; 0]%Q))
  = Raise (IndexError percentile_msg).
Proof.
  split.
  - apply (proj1 (X22_find_slopes_degenerate_effect flat_OLS flat_WLS
                    (array1 [0.6; 0.4]%Q) (array1 [0%Q]) (mk_ndarray [] [1%Q]) None)).
    + reflexivity.
    + simpl. lia.
  - apply (proj2 (X22_find_slopes_degenerate_effect flat_OLS flat_WLS
                    (array1 [0.6; 0.4]%Q) (array1 [0; 1]%Q) (mk_ndarray [2; 0]%nat [])
                    (Some (array1 [1; 0]%Q))) 2%nat eq_refl eq_refl eq_refl eq_refl).
Defined.

End RegressorMore.

(* ------------------------------------------------------------------ *)
(** ** More on the dominance matrix *)

Module DominanceMore.
Import Dominance DominanceFacts PropagatorFacts.

(** *** Rejected arguments, and what the labels do *)

(** X14. A slopes array that is not 2-dimensional raises the dimension
    ValueError (and only such an array does); for a (num_sims, K) array a
    label list raises the labels ValueError exactly when its length is not K;
    otherwise the labels become both the index and the columns of the frame,
    and they do not change a single value of the matrix. *)
Theorem X14_dominance_arguments (arr : ndarray) (labels : option (list label))
    (include_diagonal : bool) :
  (prob_values_different (AsArray arr) labels include_diagonal
   = Raise (ValueError ndim_msg) <-> ndim arr <> 2%nat) /\
  (forall n k l, shape arr = [n; k] -> labels = Some l ->
     (prob_values_different (AsArray arr) labels include_diagonal
      = Raise (ValueError labels_msg) <-> length l <> k) /\
     (length l = k ->
      exists df df0,
        prob_values_different (AsArray arr) labels include_diagonal = Ok df /\
        prob_values_different (AsArray arr) None include_diagonal = Ok df0 /\
        index df = l /\ pf_columns df = l /\ values df = values df0)).
Proof.
  split.
  - unfold prob_values_different, ndim.
    destruct (shape arr) as [|n [|k [|x rest]]]; cbn [bind length];
      try (split; [intros _; lia | reflexivity]).
    split; [|intros H; exfalso; apply H; reflexivity].
    destruct (negb (length (match labels with
                            | Some l => l
                            | None => map LInt (seq 0 k)
                            end) =? k)%nat); discriminate.
  - intros n k l Hsh ->. unfold prob_values_different. rewrite Hsh. cbn [bind].
    destruct (Nat.eqb_spec (length l) k) as [E|E]; cbn [negb].
    + split; [split; [discriminate | congruence]|]. intros _.
      rewrite length_map, length_seq, Nat.eqb_refl. cbn [negb].
      eexists. eexists. split; [reflexivity|]. split; [reflexivity|]. repeat split.
    + split; [split; [intros _; exact E | reflexivity]|]. congruence.
Qed.

Lemma X14_dominance_arguments_witness :
  prob_values_different (AsArray (array1 [1; 2]%Q)) None false
  = Raise (ValueError ndim_msg) /\
  prob_values_different (AsArray (mk_ndarray [1; 2]%nat [1; 2]%Q)) (Some [LStr "a"]) false
  = Raise (ValueError labels_msg).
Proof.
  split.
  - apply (proj1 (X14_dominance_arguments (array1 [1; 2]%Q) None false)).
    unfold ndim. simpl. lia.
  - apply (proj1 (proj2 (X14_dominance_arguments (mk_ndarray [1; 2]%nat [1; 2]%Q)
                           (Some [LStr "a"]) false)
                    1%nat 2%nat [LStr "a"] eq_refl eq_refl)).
    simpl. lia.
Defined.

(** *** A list of columns is the matrix of these columns *)

Lemma chunks_concat (k : nat) (m : list (list Q)) :
  Forall (fun r => length r = k) m -> chunks k (length m) (concat m) = m.
Proof.
  induction 1 as [|r m Hr _ IH]; [reflexivity|].
  cbn [length chunks concat].
  rewrite firstn_app, <- Hr, Nat.sub_diag, firstn_all, firstn_O, app_nil_r.
  rewrite skipn_app, Nat.sub_diag, skipn_all. cbn [skipn app].
  rewrite Hr, IH. reflexivity.
Qed.

Lemma transpose_shape (n : nat) (cols : list (list Q)) :
  Forall (fun c => length c = n) cols ->
  length (transpose n cols) = n /\
  Forall (fun r => length r = length cols) (transpose n cols).
Proof.
  induction 1 as [|c cols Hc _ [IHl IHw]]; cbn [transpose length].
  - split; [apply repeat_length|]. apply Forall_forall. intros r Hr.
    apply repeat_spec in Hr. subst. reflexivity.
  - split; [rewrite map2_length; lia|].
    apply Forall_forall. intros r Hr. apply (In_nth _ _ []) in Hr as [i [Hi <-]].
    rewrite map2_length in Hi.
    rewrite (PropagatorMore.nth_map2 _ _ _ _ 0%Q []) by lia. cbn [length]. f_equal.
    rewrite Forall_forall in IHw. apply IHw. apply nth_In. lia.
Qed.

(** X15. Passing the K slope vectors as a list is the same as passing the
    (num_sims, K) array that has them as columns: same frame, same errors.
    An empty list, or vectors of different lengths, raise a ValueError when
    they are stacked. *)
Theorem X15_list_of_columns_is_the_matrix
    (c : ndarray) (cols : list ndarray) (labels : option (list label))
    (include_diagonal : bool) :
  (Forall (fun c' => length (flat c') = length (flat c)) cols ->
   prob_values_different (AsList (c :: cols)) labels include_diagonal
   = prob_values_different (AsArray (stacked (length (flat c)) (c :: cols)))
       labels include_diagonal) /\
  ((exists c', In c' cols /\ length (flat c') <> length (flat c)) ->
   prob_values_different (AsList (c :: cols)) labels include_diagonal
   = Raise (ValueError stack_msg)) /\
  prob_values_different (AsList []) labels include_diagonal
  = Raise (ValueError stack_msg).
Proof.
  split; [|split].
  - intros Hall.
    assert (Hall' : Forall (fun v => length v = length (flat c)) (map flat (c :: cols))).
    { cbn [map]. constructor; [reflexivity|]. apply Forall_forall. intros v Hv.
      apply in_map_iff in Hv as [c' [<- Hc']]. rewrite Forall_forall in Hall. auto. }
    destruct (transpose_shape _ _ Hall') as [Hlen Hw].
    rewrite length_map in Hw.
    unfold prob_values_different at 1. unfold column_stack. cbn [map].
    assert (Hb : forallb (fun c' => (length c' =? length (flat c))%nat)
                         (flat c :: map flat cols) = true).
    { apply forallb_forall. intros v Hv. apply Nat.eqb_eq.
      rewrite Forall_forall in Hall'. apply Hall'. exact Hv. }
    rewrite Hb. cbn [bind].
    unfold prob_values_different, stacked, array2. cbn [shape bind].
    unfold rows_of. cbn [shape flat]. rewrite chunks_concat by exact Hw.
    rewrite Hlen. cbn [map length]. rewrite length_map. reflexivity.
  - intros [c' [Hin Hne]]. unfold prob_values_different, column_stack. cbn [map].
    assert (Hb : forallb (fun v => (length v =? length (flat c))%nat)
                         (flat c :: map flat cols) = false).
    { apply not_true_is_false. intros Hb. rewrite forallb_forall in Hb.
      specialize (Hb (flat c') ltac:(right; apply in_map; exact Hin)).
      apply Nat.eqb_eq in Hb. contradiction. }
    rewrite Hb. reflexivity.
  - reflexivity.
Qed.

Lemma X15_list_of_columns_is_the_matrix_witness :
  prob_values_different (AsList [array1 [1; 5; 3]%Q; array1 [2; 4; 3]%Q]) None false
  = prob_values_different (AsArray (mk_ndarray [3; 2]%nat [1; 2; 5; 4; 3; 3]%Q)) None false.
Proof.
  apply (X15_list_of_columns_is_the_matrix (array1 [1; 5; 3]%Q) [array1 [2; 4; 3]%Q]
           None false).
  repeat constructor.
Defined.

(** *** Only the order of the values matters *)

Lemma count_gt_map (f : Q -> Q) (arr : ndarray) (n k i j : nat) :
  shape arr = [n; k] -> length (flat arr) = (n * k)%nat ->
  (forall x y, (x < y)%Q <-> (f x < f y)%Q) ->
  (i < k)%nat -> (j < k)%nat ->
  count_gt (rows_of (mk_ndarray (shape arr) (map f (flat arr)))) i j
  = count_gt (rows_of arr) i j.
Proof.
  intros Hsh Hlen Hf Hi Hj.
  rewrite (count_gt_draws _ n k) by assumption.
  rewrite (count_gt_draws arr n k) by assumption.
  unfold draws_gt. cbn [shape]. rewrite Hsh. cbn [nth]. f_equal.
  apply filter_ext_in. intros s Hs. apply in_seq in Hs.
  unfold at2. cbn [shape flat]. rewrite Hsh. cbn [nth].
  rewrite !(nth_map_in f _ _ 0%Q 0%Q) by nia.
  destruct (Qlt_le_dec (f (nth (s * k + j) (flat arr) 0)) (f (nth (s * k + i) (flat arr) 0)))
    as [H|H];
  destruct (Qlt_le_dec (nth (s * k + j) (flat arr) 0) (nth (s * k + i) (flat arr) 0))
    as [H'|H']; try reflexivity; exfalso.
  - apply Hf in H. exact (Qlt_not_le _ _ H H').
  - apply Hf in H'. exact (Qlt_not_le _ _ H' H).
Qed.

(** X16. The matrix depends on the order of the values only: applying one
    strictly increasing function to every slope draw (a change of units, a
    shift) changes no entry, no label and no error of the result. *)
Theorem X16_invariant_under_increasing_maps
    (f : Q -> Q) (arr : ndarray) (n k : nat) (labels : option (list label))
    (include_diagonal : bool) :
  shape arr = [n; k] -> length (flat arr) = (n * k)%nat ->
  (forall x y, (x < y)%Q <-> (f x < f y)%Q) ->
  prob_values_different (AsArray (mk_ndarray (shape arr) (map f (flat arr))))
    labels include_diagonal
  = prob_values_different (AsArray arr) labels include_diagonal.
Proof.
  intros Hsh Hlen Hf. unfold prob_values_different. cbn [shape]. rewrite Hsh. cbn [bind].
  destruct (negb (length (match labels with
                          | Some l => l
                          | None => map LInt (seq 0 k)
                          end) =? k)%nat); [reflexivity|].
  do 3 f_equal. unfold probs.
  apply map_ext_in. intros i Hi. apply in_seq in Hi.
  apply map_ext_in. intros j Hj. apply in_seq in Hj.
  unfold prob. destruct n as [|n']; [reflexivity|].
  rewrite <- Hsh. rewrite (count_gt_map f arr (S n') k) by (auto; lia). reflexivity.
Qed.

Lemma X16_invariant_under_increasing_maps_witness :
  prob_values_different
    (AsArray (mk_ndarray [2; 2]%nat (map (fun x => 3 * x + 1)%Q [1; 2; 4; 3]%Q))) None false
  = prob_values_different (AsArray (mk_ndarray [2; 2]%nat [1; 2; 4; 3]%Q)) None false.
Proof.
  apply (X16_invariant_under_increasing_maps (fun x => 3 * x + 1)%Q
           (mk_ndarray [2; 2]%nat [1; 2; 4; 3]%Q) 2 2 None false).
  - reflexivity.
  - reflexivity.
  - intros x y. split; intros H; lra.
Defined.

(** *** Entries 1 and 0 *)

Lemma filter_length_all {A : Type} (f : A -> bool) (l : list A) :
  length (filter f l) = length l <-> (forall x, In x l -> f x = true).
Proof.
  induction l as [|a l IH]; [split; [intros _ x []|reflexivity]|].
  cbn [filter]. destruct (f a) eqn:E; cbn [length].
  - split.
    + intros H x [<-|Hx]; [exact E|]. apply IH; [lia | exact Hx].
    + intros H. f_equal. apply IH. intros x Hx. apply H. right. exact Hx.
  - split.
    + intros H. pose proof (filter_length_le f l). lia.
    + intros H. specialize (H a (or_introl eq_refl)). congruence.
Qed.

Lemma filter_nil_iff {A : Type} (f : A -> bool) (l : list A) :
  filter f l = [] <-> (forall x, In x l -> f x = false).
Proof.
  induction l as [|a l IH]; [split; [intros _ x []|reflexivity]|].
  cbn [filter]. destruct (f a) eqn:E.
  - split; [discriminate|]. intros H. specialize (H a (or_introl eq_refl)). congruence.
  - rewrite IH. split.
    + intros H x [<-|Hx]; [exact E | exact (H x Hx)].
    + intros H x Hx. apply H. right. exact Hx.
Qed.

Lemma fraction_one (l : list nat) (n : nat) :
  (1 <= n)%nat -> (fraction l n == 1)%Q <-> length l = n.
Proof.
  intros Hn. pose proof (inject_nat_pos n Hn) as Hpos. unfold fraction.
  assert (Hne : ~ (inject_Z (Z.of_nat n) == 0)%Q).
  { intros Z. rewrite Z in Hpos. exact (Qlt_irrefl 0 Hpos). }
  split.
  - intros E.
    assert (E' : (inject_Z (Z.of_nat (length l)) == inject_Z (Z.of_nat n))%Q).
    { rewrite <- (Qmult_div_r (inject_Z (Z.of_nat (length l))) _ Hne).
      rewrite E. apply Qmult_1_r. }
    unfold Qeq in E'. simpl in E'. lia.
  - intros ->. field. exact Hne.
Qed.

(** X17. Off the diagonal, with at least one draw: entry (i, j) is 1 exactly
    when value i is strictly greater than value j in every draw, and 0
    exactly when it is strictly greater in none; two identical columns hence
    give 0 in both directions, not 0.5. *)
Theorem X17_certain_and_impossible_dominance
    (arr : ndarray) (n k : nat) (include_diagonal : bool) (i j : nat) :
  shape arr = [n; k] -> (1 <= n)%nat ->
  (i < k)%nat -> (j < k)%nat -> i <> j ->
  exists df p,
    prob_values_different (AsArray arr) None include_diagonal = Ok df /\
    entry df i j = Finite p /\
    ((p == 1)%Q <-> forall s, (s < n)%nat -> (at2 arr s j < at2 arr s i)%Q) /\
    ((p == 0)%Q <-> forall s, (s < n)%nat -> (at2 arr s i <= at2 arr s j)%Q).
Proof.
  intros Hsh Hn Hi Hj Hij.
  eexists. exists (fraction (draws_gt arr i j) n).
  split; [apply (prob_values_different_array arr n k); exact Hsh|].
  split.
  { rewrite entry_array by assumption.
    destruct (Nat.eqb_spec i j) as [E|_]; [contradiction|].
    unfold prob. destruct n as [|n']; [lia|].
    rewrite (count_gt_draws arr (S n') k) by assumption. reflexivity. }
  split.
  - rewrite fraction_one by exact Hn. unfold draws_gt. rewrite Hsh. cbn [nth].
    pose proof (filter_length_all
                  (fun s => if Qlt_le_dec (at2 arr s j) (at2 arr s i) then true else false)
                  (seq 0 n)) as Hall.
    rewrite length_seq in Hall. rewrite Hall. split.
    + intros H s Hs. specialize (H s ltac:(apply in_seq; lia)).
      destruct (Qlt_le_dec (at2 arr s j) (at2 arr s i)); [assumption | discriminate].
    + intros H s Hs. apply in_seq in Hs. specialize (H s ltac:(lia)).
      destruct (Qlt_le_dec (at2 arr s j) (at2 arr s i)) as [_|H']; [reflexivity|].
      exfalso. exact (Qlt_not_le _ _ H H').
  - rewrite fraction_zero by exact Hn. unfold draws_gt. rewrite Hsh. cbn [nth].
    rewrite filter_nil_iff. split.
    + intros H s Hs. specialize (H s ltac:(apply in_seq; lia)).
      destruct (Qlt_le_dec (at2 arr s j) (at2 arr s i)); [discriminate | assumption].
    + intros H s Hs. apply in_seq in Hs. specialize (H s ltac:(lia)).
      destruct (Qlt_le_dec (at2 arr s j) (at2 arr s i)) as [H'|_]; [|reflexivity].
      exfalso. exact (Qlt_not_le _ _ H' H).
Qed.

Lemma X17_certain_and_impossible_dominance_witness :
  exists df p,
    prob_values_different (AsArray (mk_ndarray [2; 2]%nat [1; 1; 3; 3]%Q)) None false = Ok df /\
    entry df 0 1 = Finite p /\ (p == 0)%Q.
Proof.
  destruct (X17_certain_and_impossible_dominance
              (mk_ndarray [2; 2]%nat [1; 1; 3; 3]%Q) 2 2 false 0 1
              eq_refl ltac:(lia) ltac:(lia) ltac:(lia) ltac:(lia))
    as (df & p & H & He & _ & H0).
  exists df, p. split; [exact H|]. split; [exact He|].
  apply H0. intros s Hs.
  destruct s as [|[|s]]; [vm_compute; discriminate | vm_compute; discriminate | lia].
Defined.

(** *** No draws at all *)

(** X18. An array with no draws, of shape (0, K), raises nothing: the result
    is the K x K frame whose entries off the diagonal are all NaN (the mean
    of an empty set of draws), the diagonal being filled as usual. *)
Theorem X18_no_draws_gives_nan
    (arr : ndarray) (k : nat) (include_diagonal : bool) :
  shape arr = [0%nat; k] ->
  exists df,
    prob_values_different (AsArray arr) None include_diagonal = Ok df /\
    length (values df) = k /\
    forall i j, (i < k)%nat -> (j < k)%nat ->
      entry df i j = if (i =? j)%nat
                     then (if include_diagonal then Finite 0.5 else NaN)
                     else NaN.
Proof.
  intros Hsh. eexists.
  split; [apply (prob_values_different_array arr 0 k); exact Hsh|].
  split.
  - cbn [values]. rewrite fill_diagonal_length. apply probs_length.
  - intros i j Hi Hj. rewrite entry_array by assumption. reflexivity.
Qed.

Lemma X18_no_draws_gives_nan_witness :
  exists df,
    prob_values_different (AsArray (mk_ndarray [0; 2]%nat [])) None true = Ok df /\
    entry df 0 1 = NaN /\ entry df 1 1 = Finite 0.5.
Proof.
  destruct (X18_no_draws_gives_nan (mk_ndarray [0; 2]%nat []) 2 true eq_refl)
    as (df & H & _ & He).
  exists df. split; [exact H|]. split.
  - apply (He 0%nat 1%nat); lia.
  - apply (He 1%nat 1%nat); lia.
Defined.

End DominanceMore.

(* ------------------------------------------------------------------ *)
(** ** The table of [plot_true_externality] *)

Module ExternalityFacts.
Import Propagator PropagatorFacts TrueEffectFacts PropagatorMore Externality.

Lemma compress_map {A B : Type} (p : A -> bool) (g : A -> B) (l : list A) :
  compress (map p l) (map g l) = map g (filter p l).
Proof.
  unfold compress. induction l as [|a l IH]; [reflexivity|].
  cbn [map combine filter fst]. destruct (p a); cbn [map snd]; rewrite IH; reflexivity.
Qed.

Lemma filter_absorb {A : Type} (p q u : A -> bool) (l : list A) :
  (forall x, q x = true -> p x = true -> u x = true) ->
  filter p (filter q (filter u l)) = filter p (filter q l).
Proof.
  intros H. induction l as [|a l IH]; [reflexivity|].
  cbn [filter]. destruct (u a) eqn:Eu; cbn [filter].
  - destruct (q a); cbn [filter]; [destruct (p a)|]; rewrite ?IH; reflexivity.
  - destruct (q a) eqn:Eq; cbn [filter]; [|exact IH].
    destruct (p a) eqn:Ep; [|exact IH].
    rewrite (H a Eq Ep) in Eu. discriminate.
Qed.

Lemma choose_weights_valid cols uw (R : list (list Q)) :
  valid_weights uw = true ->
  choose_weights uw (map (value_at cols "market share") R)
                    (map (value_at cols "monthly flights") R)
  = Ok (map (row_weight cols uw) R).
Proof.
  unfold valid_weights, choose_weights, row_weight. intros Hv.
  destruct (String.eqb uw "ms"); [reflexivity|].
  destruct (String.eqb uw "flights"); [reflexivity|].
  destruct (String.eqb uw "ms_x_flights"); [|discriminate].
  rewrite map2_map_same. reflexivity.
Qed.

Lemma choose_weights_invalid uw a b :
  valid_weights uw = false -> choose_weights uw a b = Raise (ValueError use_weights_msg).
Proof.
  unfold valid_weights, choose_weights. intros Hv.
  destruct (String.eqb uw "ms"); [discriminate|].
  destruct (String.eqb uw "flights"); [discriminate|].
  destruct (String.eqb uw "ms_x_flights"); [discriminate|]. reflexivity.
Qed.

Section WithStatsmodels.

Variable WLS_fit : list Q -> list (list Q) -> list Q -> result (Q * Q).

Lemma hub_body_series cols rws uw hub :
  (forall c, In c required -> has_column (mk_df cols rws) c = true) ->
  hub_body WLS_fit (mk_df cols rws) uw hub =
  (let R := filter (in_hub cols hub) rws in
   w <- choose_weights uw (map (value_at cols "market share") R)
                          (map (value_at cols "monthly flights") R) ;;
   let ok := map (fun x => negb (Qle_bool x 0)) w in
   WLS_fit (compress ok (map (value_at cols "effect") R))
           (Regressor.design (compress ok (map (value_at cols "market share") R)))
           (compress ok w)).
Proof.
  intros Hc. unfold hub_body.
  rewrite !series_has by (apply Hc; cbn; tauto). cbn [bind].
  unfold Regressor.hub_ind. rewrite map_map.
  change (fun x => Qeq_bool (value_at cols "airport hub size" x) (inject_Z (Z.of_nat hub)))
    with (in_hub cols hub).
  rewrite !compress_map. reflexivity.
Qed.

Lemma hub_body_rows cols rws uw hub :
  (forall c, In c required -> has_column (mk_df cols rws) c = true) ->
  valid_weights uw = true ->
  hub_body WLS_fit (mk_df cols rws) uw hub =
  WLS_fit (map (value_at cols "effect") (stratum_rows cols uw hub rws))
          (Regressor.design (map (value_at cols "market share") (stratum_rows cols uw hub rws)))
          (map (row_weight cols uw) (stratum_rows cols uw hub rws)).
Proof.
  intros Hc Hv. rewrite hub_body_series by exact Hc. cbv zeta.
  rewrite choose_weights_valid by exact Hv. cbn [bind].
  rewrite map_map.
  change (fun x => negb (Qle_bool (row_weight cols uw x) 0)) with (positive_weight cols uw).
  rewrite !compress_map. reflexivity.
Qed.

Lemma hub_body_invalid cols rws uw hub :
  (forall c, In c required -> has_column (mk_df cols rws) c = true) ->
  valid_weights uw = false ->
  hub_body WLS_fit (mk_df cols rws) uw hub = Raise (ValueError use_weights_msg).
Proof.
  intros Hc Hv. rewrite hub_body_series by exact Hc. cbv zeta.
  rewrite choose_weights_invalid by exact Hv. reflexivity.
Qed.

(** X19. The two argument checks of [plot_true_externality]: a table that
    lacks one of the four required columns raises the missing-columns
    ValueError, whatever [use_weights] is; with the columns present, a
    [use_weights] other than "ms", "flights" and "ms_x_flights" raises the
    use_weights ValueError whatever the data are (also on a table without
    rows) and before any regression is run, since this holds for every
    regression routine. *)
Theorem X19_externality_argument_checks (cols : list string) (rws : list (list Q))
    (use_weights : string) :
  ((exists c, In c required /\ has_column (mk_df cols rws) c = false) ->
   plot_true_externality WLS_fit (mk_df cols rws) use_weights
   = Raise (ValueError missing_msg)) /\
  ((forall c, In c required -> has_column (mk_df cols rws) c = true) ->
   valid_weights use_weights = false ->
   plot_true_externality WLS_fit (mk_df cols rws) use_weights
   = Raise (ValueError use_weights_msg)).
Proof.
  split.
  - intros [c [Hin Hc]]. unfold plot_true_externality.
    destruct (missing_columns (mk_df cols rws) required) eqn:E; [|reflexivity].
    apply missing_columns_nil_iff with (c := c) in E; [congruence | exact Hin].
  - intros Hc Hv. unfold plot_true_externality.
    rewrite (missing_columns_nil _ _ Hc).
    cbn [seq mapM]. rewrite hub_body_invalid by assumption. reflexivity.
Qed.

(** X20. With the four columns present and an accepted [use_weights], the
    regression of hub size [hub] is run on exactly the observations of that
    hub size whose weight is positive, in table order: their effects as
    response, (1, market share) as design row, their weights as weights.
    Observations with a zero or negative weight are dropped silently, so
    every weight handed to the regression is strictly positive; the table
    is returned exactly when the four regressions succeed. *)
Theorem X20_externality_regressions (cols : list string) (rws : list (list Q))
    (use_weights : string) :
  (forall c, In c required -> has_column (mk_df cols rws) c = true) ->
  valid_weights use_weights = true ->
  let R := fun hub => stratum_rows cols use_weights hub rws in
  let fit := fun hub =>
    WLS_fit (map (value_at cols "effect") (R hub))
            (map (fun r => [1%Q; value_at cols "market share" r]) (R hub))
            (map (row_weight cols use_weights) (R hub)) in
  (forall hub, Forall (fun w => (0 < w)%Q) (map (row_weight cols use_weights) (R hub))) /\
  plot_true_externality WLS_fit (mk_df cols rws) use_weights =
  (params <- mapM fit (seq 0 4) ;;
   Ok (mk_table hub_desc (map fst params) (map snd params))).
Proof.
  intros Hc Hv R fit. split.
  - intros hub. apply Forall_forall. intros w Hw.
    apply in_map_iff in Hw as [r [<- Hr]]. unfold R, stratum_rows in Hr.
    apply filter_In in Hr as [_ Hp]. unfold positive_weight in Hp.
    destruct (Qle_bool (row_weight cols use_weights r) 0) eqn:E; [discriminate|].
    apply Qnot_le_lt. intros Hle. apply Qle_bool_iff in Hle. congruence.
  - unfold plot_true_externality. rewrite (missing_columns_nil _ _ Hc).
    f_equal. apply mapM_ext_in. intros hub _.
    rewrite hub_body_rows by assumption. unfold fit, R, Regressor.design.
    rewrite map_map. reflexivity.
Qed.

(** X21. Only the observations some regression uses matter: deleting from
    the table every row whose weight is not positive, or whose airport hub
    size is none of 0, 1, 2, 3, changes neither the returned table nor the
    exception raised. *)
Theorem X21_unused_rows_do_not_matter (cols : list string) (rws : list (list Q))
    (use_weights : string) :
  plot_true_externality WLS_fit (mk_df cols (filter (used cols use_weights) rws)) use_weights
  = plot_true_externality WLS_fit (mk_df cols rws) use_weights.
Proof.
  unfold plot_true_externality.
  assert (Hm : missing_columns (mk_df cols (filter (used cols use_weights) rws)) required
               = missing_columns (mk_df cols rws) required) by reflexivity.
  rewrite Hm. destruct (missing_columns (mk_df cols rws) required) eqn:E; [|reflexivity].
  pose proof (proj1 (missing_columns_nil_iff _ _) E) as Hc.
  assert (Hc' : forall c, In c required ->
            has_column (mk_df cols (filter (used cols use_weights) rws)) c = true).
  { intros c Hin. exact (Hc c Hin). }
  f_equal. apply mapM_ext_in. intros hub Hhub. apply in_seq in Hhub.
  destruct (valid_weights use_weights) eqn:Hv.
  - rewrite !hub_body_rows by assumption. unfold stratum_rows.
    rewrite filter_absorb; [reflexivity|].
    intros r Hq Hp. unfold used. rewrite Hp. cbn [andb].
    apply existsb_exists. exists hub. split; [apply in_seq; lia | exact Hq].
  - rewrite !hub_body_invalid by assumption. reflexivity.
Qed.

End WithStatsmodels.

Lemma X19_externality_argument_checks_witness :
  plot_true_externality Regressor.flat_WLS
    (mk_df ["airport hub size"; "effect"; "market share"] [[0; 1; 0.5]%Q]) "ms"
  = Raise (ValueError missing_msg) /\
  plot_true_externality Regressor.strict_WLS
    (mk_df ["airport hub size"; "effect"; "market share"; "monthly flights"] []) "share"
  = Raise (ValueError use_weights_msg).
Proof.
  split.
  - apply (proj1 (X19_externality_argument_checks Regressor.flat_WLS _ _ "ms")).
    exists "monthly flights". split; [cbn; tauto | reflexivity].
  - apply (proj2 (X19_externality_argument_checks Regressor.strict_WLS _ _ "share")).
    + intros c Hin. cbn in Hin.
      destruct Hin as [<-|[<-|[<-|[<-|[]]]]]; reflexivity.
    + reflexivity.
Defined.

Lemma X20_externality_regressions_witness :
  exists t,
    plot_true_externality Regressor.flat_WLS
      (mk_df ["airport hub size"; "effect"; "market share"; "monthly flights"]
             [[0; 1; 0.5; 10]; [0; 7; 0; 10]; [1; 2; 0.5; 10]; [2; 3; 0.5; 10];
              [3; 4; 0.5; 10]; [3; 6; 0.5; 10]]%Q) "ms" = Ok t /\
    tb_index t = hub_desc /\
    Qlist_eq (tb_intercept t) [1; 2; 3; 5]%Q.
Proof.
  pose proof (X20_externality_regressions Regressor.flat_WLS
                ["airport hub size"; "effect"; "market share"; "monthly flights"]
                [[0; 1; 0.5; 10]; [0; 7; 0; 10]; [1; 2; 0.5; 10]; [2; 3; 0.5; 10];
                 [3; 4; 0.5; 10]; [3; 6; 0.5; 10]]%Q "ms") as H.
  cbv zeta in H. destruct H as [_ H].
  - intros c Hin. cbn in Hin.
    destruct Hin as [<-|[<-|[<-|[<-|[]]]]]; reflexivity.
  - reflexivity.
  - eexists. split; [rewrite H; vm_compute; reflexivity|].
    split; [reflexivity|]. vm_compute. repeat constructor.
Defined.

End ExternalityFacts.
